(** * Game leaderboard backend: the dual-store ranking engine

    A shallow embedding of [src/app.ts] (Express handlers over a MySQL
    [players] table and a Redis sorted set plus one Redis counter), the
    properties the specification states about it, and further properties of
    the handlers, their earlier revisions and their composition.

    Conventions of the embedding.
    - JavaScript numbers are an interface, [JsNumber]: the handlers are written
      once and run at IEEE binary64 ([float], what the program computes with)
      and at exact rationals ([Q], the arithmetic in which the specification
      states its closed forms).
    - MySQL and Redis are the two stores of a [World]; every command a handler
      issues is appended to [issued], so that "no store access" and "checked
      before the write" are statements about that list.
    - Store commands are taken to answer normally: the [catch] branches of the
      handlers (status 500) are reached only where the handler's own
      JavaScript throws.
    - What the JavaScript runtime and MySQL decide on their own (how a number
      prints, how [id = ?] and [LIKE] compare) enters as Section variables. *)

From Stdlib Require Import ZArith QArith List String Ascii Bool Floats Lia.
From Stdlib Require Import DecimalString Qfield Lqa Permutation Sorted.
Import ListNotations.

Set Implicit Arguments.
Local Open Scope string_scope.
Local Open Scope list_scope.
Local Open Scope Z_scope.

(* ================================================================= *)
(** ** JavaScript numbers *)

(** What the handlers ask of a number: decimal literals of the source text,
    [+], [-], [*], the order Redis sorts scores by, truthiness, and whether
    the value is NaN (which Redis refuses as a score). *)
Class JsNumber (num : Type) : Type := {
  nlit : Q -> num;
  nadd : num -> num -> num;
  nsub : num -> num -> num;
  nmul : num -> num -> num;
  nltb : num -> num -> bool;
  nfalsy : num -> bool;
  nis_nan : num -> bool
}.

(** A decimal literal denotes the binary64 value nearest to it; the quotient of
    two exactly representable integers is rounded the same way. *)
Definition float_of_Q (q : Q) : float :=
  let n := PrimFloat.of_uint63 (Uint63.of_Z (Z.abs (Qnum q))) in
  let d := PrimFloat.of_uint63 (Uint63.of_Z (Zpos (Qden q))) in
  if Qnum q <? 0 then PrimFloat.opp (PrimFloat.div n d) else PrimFloat.div n d.

#[export] Instance float_number : JsNumber float := {|
  nlit := float_of_Q;
  nadd := PrimFloat.add;
  nsub := PrimFloat.sub;
  nmul := PrimFloat.mul;
  nltb := PrimFloat.ltb;
  nfalsy := fun f => PrimFloat.eqb f PrimFloat.zero || PrimFloat.is_nan f;
  nis_nan := PrimFloat.is_nan
|}.

#[export] Instance exact_number : JsNumber Q := {|
  nlit := fun q => q;
  nadd := Qplus;
  nsub := Qminus;
  nmul := Qmult;
  nltb := fun a b => negb (Qle_bool b a);
  nfalsy := fun q => Qeq_bool q 0;
  nis_nan := fun _ => false
|}.

(* ================================================================= *)
(** ** JavaScript values of a request body *)

Inductive JsValue (num : Type) : Type :=
| JUndefined                      (* the field is missing *)
| JNull
| JBool (b : bool)
| JNum (n : num)
| JStr (s : string)
| JObject (rendering : string).   (* an object or array; what toString() gives *)

Arguments JUndefined {num}.
Arguments JNull {num}.
Arguments JBool {num} b.
Arguments JNum {num} n.
Arguments JStr {num} s.
Arguments JObject {num} rendering.

Inductive JsType : Type :=
| T_undefined | T_object | T_boolean | T_number | T_string.

Definition typeof {num} (v : JsValue num) : JsType :=
  match v with
  | JUndefined => T_undefined
  | JNull => T_object
  | JBool _ => T_boolean
  | JNum _ => T_number
  | JStr _ => T_string
  | JObject _ => T_object
  end.

Definition is_number {num} (v : JsValue num) : bool :=
  match typeof v with T_number => true | _ => false end.

(** [!v] is [negb (truthy v)]. *)
Definition truthy {num} `{JsNumber num} (v : JsValue num) : bool :=
  match v with
  | JUndefined | JNull => false
  | JBool b => b
  | JNum n => negb (nfalsy n)
  | JStr s => negb (String.eqb s "")
  | JObject _ => true
  end.

(** [insertId.toString()] and [player.id.toString()]: an integer in decimal. *)
Definition Z_toString (z : Z) : string := NilZero.string_of_int (Z.to_int z).

(* ================================================================= *)
(** ** The two stores *)

(** A row of [players] (init.sql: id INT AUTO_INCREMENT PRIMARY KEY). *)
Record Player : Type := {
  id : Z;
  name : string;
  country : string;
  country_code : string
}.

(** An element of the sorted set as node-redis returns it: [{value, score}]. *)
Record ScoreEntry (num : Type) : Type := {
  value : string;
  score : num
}.

(** Commands sent to a store, in the order they are issued. *)
Inductive Command (num : Type) : Type :=
| SELECT_id (playerId : JsValue num)            (* SELECT id FROM players WHERE id = ? *)
| SELECT_exact (n c cc : string)                (* ... WHERE name = ? AND country = ? AND country_code = ? *)
| INSERT_player (n c cc : string)
| SELECT_in (ids : list string)                 (* ... WHERE id IN (?) *)
| SELECT_like (q : string)                      (* ... WHERE name LIKE ? [OR country LIKE ?] *)
| SELECT_details (playerId : string)            (* SELECT name, country, country_code ... WHERE id = ? *)
| ZINCRBY (increment : num) (member : string)
| ZADD (s : num) (member : string)
| ZREVRANK (member : string)
| ZSCORE (member : string)
| ZRANGE_REV (start stop : Z)
| INCRBYFLOAT (increment : num)
| GET
| SET (v : num).

Arguments SELECT_id {num} playerId.
Arguments SELECT_exact {num} n c cc.
Arguments INSERT_player {num} n c cc.
Arguments SELECT_in {num} ids.
Arguments SELECT_like {num} q.
Arguments SELECT_details {num} playerId.
Arguments ZINCRBY {num} increment member.
Arguments ZADD {num} s member.
Arguments ZREVRANK {num} member.
Arguments ZSCORE {num} member.
Arguments ZRANGE_REV {num} start stop.
Arguments INCRBYFLOAT {num} increment.
Arguments GET {num}.
Arguments SET {num} v.


Record World (num : Type) : Type := {
  players : list Player;                 (* MySQL: table players *)
  auto_increment : Z;                    (* MySQL: next AUTO_INCREMENT value *)
  leaderboard : list (ScoreEntry num);   (* Redis: game_leaderboard, ascending *)
  prize_pool : option num;               (* Redis: leaderboard_prize_pool *)
  issued : list (Command num)
}.

(* ----------------------------------------------------------------- *)
(** *** The sorted set

    Redis keeps a sorted set ascending by score, members of equal score in
    lexicographic order; REV reads it backwards. *)

Section SortedSet.
Context {num : Type} `{JsNumber num}.

Definition entry_ltb (a b : ScoreEntry num) : bool :=
  nltb (score a) (score b)
  || (negb (nltb (score b) (score a)) && String.ltb (value a) (value b)).

Fixpoint zset_insert (e : ScoreEntry num) (l : list (ScoreEntry num)) :=
  match l with
  | [] => [e]
  | x :: r => if entry_ltb e x then e :: l else x :: zset_insert e r
  end.

Definition is_member (m : string) (e : ScoreEntry num) : bool :=
  String.eqb (value e) m.

Definition zset_remove (m : string) (l : list (ScoreEntry num)) :=
  filter (fun e => negb (is_member m e)) l.

(** ZSCORE *)
Definition zset_score (m : string) (l : list (ScoreEntry num)) : option num :=
  option_map (@score num) (find (is_member m) l).

(** ZADD: sets the member's score, adding the member when it is new. *)
Definition zset_add (s : num) (m : string) (l : list (ScoreEntry num)) :=
  zset_insert {| value := m; score := s |} (zset_remove m l).

(** ZINCRBY: a new member starts at the increment. *)
Definition zset_incrby (incr : num) (m : string) (l : list (ScoreEntry num)) :=
  match zset_score m l with
  | None => zset_add incr m l
  | Some s => zset_add (nadd s incr) m l
  end.

Fixpoint index_of (m : string) (l : list (ScoreEntry num)) : option Z :=
  match l with
  | [] => None
  | e :: r => if is_member m e then Some 0
              else option_map Z.succ (index_of m r)
  end.

(** ZREVRANK: 0-based position from the highest score. *)
Definition zset_revrank (m : string) (l : list (ScoreEntry num)) : option Z :=
  index_of m (rev l).

(** ZRANGE start stop REV, by index: negative indices count from the end,
    the range is clipped to the set. *)
Definition zset_range_rev (start stop : Z) (l : list (ScoreEntry num)) :=
  let len := Z.of_nat (List.length l) in
  let start := if start <? 0 then len + start else start in
  let stop := if stop <? 0 then len + stop else stop in
  let start := if start <? 0 then 0 else start in
  if (start >? stop) || (start >=? len) then []
  else
    let stop := if stop >=? len then len - 1 else stop in
    firstn (Z.to_nat (stop - start + 1)) (skipn (Z.to_nat start) (rev l)).

(** How often a member occurs in the set. *)
Definition occurrences (m : string) (l : list (ScoreEntry num)) : nat :=
  List.length (filter (is_member m) l).
End SortedSet.

(* ================================================================= *)
(** ** Handlers as state transformers *)

Definition M (num A : Type) : Type := World num -> A * World num.

Definition ret {num A} (a : A) : M num A := fun w => (a, w).

Definition bind {num A B} (c : M num A) (k : A -> M num B) : M num B :=
  fun w => let (a, w') := c w in k a w'.

Declare Scope handler_scope.
Delimit Scope handler_scope with handler.
Notation "x <- c ;; k" := (bind c (fun x => k))
  (at level 61, c at next level, right associativity) : handler_scope.
Notation "c ;;; k" := (bind c (fun _ => k))
  (at level 61, right associativity) : handler_scope.
Local Open Scope handler_scope.

Fixpoint mapM {num A B} (f : A -> M num B) (l : list A) : M num (list B) :=
  match l with
  | [] => ret []
  | a :: r => b <- f a ;; bs <- mapM f r ;; ret (b :: bs)
  end.

(** An HTTP reply: [res.status(s).json(payload)]; [res.json] alone is 200. *)
Record Response (A : Type) : Type := {
  status : Z;
  payload : A
}.

Inductive Reply : Type :=
| error_ (msg : string)
| message_ (msg : string)
| created_ (msg : string) (playerId : Z).

(** What an awaited call gives: its value, or an exception. *)
Inductive Outcome (A : Type) : Type :=
| Returned (a : A)
| Thrown.

Definition InvalidInput : Z := 400.
Definition NotFound : Z := 404.
Definition Conflict : Z := 409.

(* ================================================================= *)
(** ** The engine *)

Section Engine.
Context {num : Type} `{JsNumber num}.

(** Decided outside the repository. *)
Variable Number_toString : num -> string.         (* Number.prototype.toString *)
Variable sql_id_eq : JsValue num -> Z -> bool.    (* MySQL: id = ? *)
Variable sql_str_eq : string -> string -> bool.   (* MySQL: col = ?, by collation *)
Variable sql_like : string -> string -> bool.     (* MySQL: col LIKE '%q%' *)

(** INCRBYFLOAT as Redis computes it: from the value the key holds, read as
    a number (0 for a missing key), and the increment, the value the key
    holds afterwards, read as a number; nothing when Redis refuses the
    command ("increment would produce NaN or Infinity").  Redis adds in
    extended precision and keeps decimal text. *)
Variable redis_incrbyfloat : num -> num -> option num.

(** [v.toString()]; the handlers call it only on truthy values. *)
Definition toString (v : JsValue num) : string :=
  match v with
  | JNum n => Number_toString n
  | JStr s => s
  | JBool true => "true"
  | JBool false => "false"
  | JObject rendering => rendering
  | JUndefined | JNull => ""
  end.

(** The number behind a value whose typeof is 'number'. *)
Definition to_number (v : JsValue num) : num :=
  match v with JNum n => n | _ => nlit 0 end.

(* --------------------------------------------------------------- *)
(** *** Store commands *)

Definition issue (c : Command num) : M num unit := fun w =>
  (tt, {| players := players w; auto_increment := auto_increment w;
          leaderboard := leaderboard w; prize_pool := prize_pool w;
          issued := issued w ++ [c] |}).

Definition read {A} (f : World num -> A) : M num A := fun w => (f w, w).

Definition write_leaderboard (l : list (ScoreEntry num)) : M num unit := fun w =>
  (tt, {| players := players w; auto_increment := auto_increment w;
          leaderboard := l; prize_pool := prize_pool w;
          issued := issued w |}).

Definition write_prize_pool (v : option num) : M num unit := fun w =>
  (tt, {| players := players w; auto_increment := auto_increment w;
          leaderboard := leaderboard w; prize_pool := v;
          issued := issued w |}).

Definition db_select_id (playerId : JsValue num) : M num (list Player) :=
  issue (SELECT_id playerId) ;;;
  read (fun w => filter (fun p => sql_id_eq playerId (id p)) (players w)).

Definition same_player (n c cc : string) (p : Player) : bool :=
  sql_str_eq (name p) n && sql_str_eq (country p) c
  && sql_str_eq (country_code p) cc.

Definition db_select_exact (n c cc : string) : M num (list Player) :=
  issue (SELECT_exact n c cc) ;;;
  read (fun w => filter (same_player n c cc) (players w)).

(** INSERT INTO players ...; answers [insertId]. *)
Definition db_insert (n c cc : string) : M num Z :=
  issue (INSERT_player n c cc) ;;;
  fun w =>
    (auto_increment w,
     {| players := players w ++ [{| id := auto_increment w; name := n;
                                    country := c; country_code := cc |}];
        auto_increment := auto_increment w + 1;
        leaderboard := leaderboard w; prize_pool := prize_pool w;
        issued := issued w |}).

Definition zIncrBy (increment : num) (member : string) : M num unit :=
  issue (ZINCRBY increment member) ;;;
  l <- read (@leaderboard num) ;;
  write_leaderboard (zset_incrby increment member l).

Definition zAdd (s : num) (member : string) : M num unit :=
  issue (ZADD s member) ;;;
  l <- read (@leaderboard num) ;;
  write_leaderboard (zset_add s member l).

Definition zRevRank (member : string) : M num (option Z) :=
  issue (ZREVRANK member) ;;;
  read (fun w => zset_revrank member (leaderboard w)).

Definition zScore (member : string) : M num (option num) :=
  issue (ZSCORE member) ;;;
  read (fun w => zset_score member (leaderboard w)).

Definition zRangeWithScores (start stop : Z) : M num (list (ScoreEntry num)) :=
  issue (ZRANGE_REV start stop) ;;;
  read (fun w => zset_range_rev start stop (leaderboard w)).

(** ZINCRBY as the earning handlers await it: Redis refuses a score that
    would not be a number, and the await throws. *)
Definition try_zIncrBy (increment : num) (member : string)
  : M num (Outcome unit) :=
  l <- read (@leaderboard num) ;;
  if nis_nan (match zset_score member l with
              | None => increment
              | Some s => nadd s increment
              end)
  then issue (ZINCRBY increment member) ;;; ret (Thrown _)
  else zIncrBy increment member ;;; ret (Returned tt).

(** INCRBYFLOAT: a missing key counts as 0; the await throws when Redis
    refuses. *)
Definition incrByFloat (increment : num) : M num (Outcome unit) :=
  issue (INCRBYFLOAT increment) ;;;
  v <- read (@prize_pool num) ;;
  match redis_incrbyfloat (match v with Some x => x | None => nlit 0 end)
                          increment with
  | Some v' => write_prize_pool (Some v') ;;; ret (Returned tt)
  | None => ret (Thrown _)
  end.

Definition redis_get : M num (option num) :=
  issue GET ;;; read (@prize_pool num).

Definition redis_set (v : num) : M num unit :=
  issue (SET v) ;;; write_prize_pool (Some v).

(* --------------------------------------------------------------- *)
(** *** POST /leaderboard/earn

    The [catch] branch answers 500; of its body the [error] field is kept
    (the last revision adds a [message] field with the store's error text). *)

Definition leaderboard_earn (playerId amount : JsValue num)
  : M num (Response Reply) :=
  if negb (truthy playerId) || negb (is_number amount) then
    ret {| status := 400; payload := error_ "Invalid playerId or amount" |}
  else
    players <- db_select_id playerId ;;
    if (List.length players =? 0)%nat then
      ret {| status := 404; payload := error_ "Player not found" |}
    else
      scored <- try_zIncrBy (to_number amount) (toString playerId) ;;
      match scored with
      | Thrown _ =>
          ret {| status := 500; payload := error_ "Internal Server Error" |}
      | Returned _ =>
          fed <- incrByFloat (nmul (to_number amount) (nlit 0.02)) ;;
          match fed with
          | Thrown _ =>
              ret {| status := 500; payload := error_ "Internal Server Error" |}
          | Returned _ =>
              ret {| status := 200;
                     payload := message_ "Earnings updated successfully" |}
          end
      end.

(* --------------------------------------------------------------- *)
(** *** POST /player/create *)

(** White space as [String.prototype.trim] strips it (WhiteSpace and
    LineTerminator of ECMAScript), on the UTF-8 bytes of the text: the
    one-byte characters U+0009..U+000D and U+0020, *)
Definition is_space (c : ascii) : bool :=
  let n := nat_of_ascii c in
  ((9 <=? n) && (n <=? 13) || (n =? 32))%nat.

(** U+00A0 (C2 A0), *)
Definition is_space2 (a b : ascii) : bool :=
  ((nat_of_ascii a =? 194) && (nat_of_ascii b =? 160))%nat.

(** and U+1680 (E1 9A 80), U+2000..U+200A, U+2028, U+2029, U+202F
    (E2 80 80..8A, A8, A9, AF), U+205F (E2 81 9F), U+3000 (E3 80 80) and
    U+FEFF (EF BB BF). *)
Definition is_space3 (a b c : ascii) : bool :=
  let x := nat_of_ascii a in
  let y := nat_of_ascii b in
  let z := nat_of_ascii c in
  ((x =? 225) && (y =? 154) && (z =? 128)
   || (x =? 226) && (y =? 128)
      && ((128 <=? z) && (z <=? 138) || (z =? 168) || (z =? 169) || (z =? 175))
   || (x =? 226) && (y =? 129) && (z =? 159)
   || (x =? 227) && (y =? 128) && (z =? 128)
   || (x =? 239) && (y =? 187) && (z =? 191))%nat.

(** [s.trim()] is empty: the text is made of white space only. *)
Fixpoint blank (s : string) : bool :=
  match s with
  | EmptyString => true
  | String a r =>
      if is_space a then blank r
      else
        match r with
        | EmptyString => false
        | String b r1 =>
            if is_space2 a b then blank r1
            else
              match r1 with
              | EmptyString => false
              | String c r2 => is_space3 a b c && blank r2
              end
        end
  end.

(** [!field?.trim()] for a field that is a string or missing. *)
Definition missing (field : option string) : bool :=
  match field with None => true | Some s => blank s end.

Definition player_create (name country countryCode : option string)
  : M num (Response Reply) :=
  if missing name || missing country || missing countryCode then
    ret {| status := 400; payload := error_ "Missing required player details" |}
  else
    let n := match name with Some s => s | None => "" end in
    let c := match country with Some s => s | None => "" end in
    let cc := match countryCode with Some s => s | None => "" end in
    existingPlayers <- db_select_exact n c cc ;;
    if (0 <? List.length existingPlayers)%nat then
      ret {| status := 409; payload := error_ "Player already exists" |}
    else
      playerId <- db_insert n c cc ;;
      zAdd (nlit 0) (Z_toString playerId) ;;;
      ret {| status := 201;
             payload := created_ "Player created successfully" playerId |}.

(* --------------------------------------------------------------- *)
(** *** The weekly settlement (cron "59 23 * * 0") *)

Definition rewards : list num := [nlit 0.2; nlit 0.15; nlit 0.1].

(** The body of [for (let i = 0; i < leaderboard.length; i++)], from index
    [i] on; [rest] is [leaderboard.slice(i)]. *)
Fixpoint distribute (prizePool : num) (i : nat) (remainingPrize : num)
         (rest : list (ScoreEntry num)) : M num unit :=
  match rest with
  | [] => ret tt
  | e :: rest' =>
      let reward :=
        if (i <? 3)%nat then nmul prizePool (nth i rewards (nlit 0))
        else nmul remainingPrize (nlit 0.00567) in
      let remainingPrize := nsub remainingPrize reward in
      zIncrBy reward (value e) ;;;
      distribute prizePool (S i) remainingPrize rest'
  end.

Definition leaderboard_reset : M num unit :=
  stored <- redis_get ;;
  let prizePool := match stored with Some v => v | None => nlit 0 end in
  leaderboard <- zRangeWithScores 0 99 ;;
  (if (0 <? List.length leaderboard)%nat
   then distribute prizePool 0 prizePool leaderboard
   else ret tt) ;;;
  redis_set (nlit 0).

(* --------------------------------------------------------------- *)
(** *** Top-N view: getTopRankingPlayers *)

Record TopRow : Type := {
  top_ranking : Z;
  top_id : string;
  top_playerName : option string;
  top_country : option string;
  top_countryCode : option string;
  top_money : num
}.

Definition db_select_in (ids : list string) : M num (list Player) :=
  issue (SELECT_in ids) ;;;
  read (fun w =>
          filter (fun p => existsb (fun s => sql_id_eq (JStr s) (id p)) ids)
                 (players w)).

(** [l.map((x, index) => f x index)], counting from [i]. *)
Fixpoint map_index {A B} (f : A -> Z -> B) (i : Z) (l : list A) : list B :=
  match l with
  | [] => []
  | a :: r => f a i :: map_index f (i + 1) r
  end.

(** The profile query lists the ranked ids in [IN (?)]; the list is not
    empty when the sorted set is not, which the statements about this view
    assume (MySQL refuses an empty list). *)
Definition getTopRankingPlayers : M num (list TopRow) :=
  leaderboard <- zRangeWithScores 0 99 ;;
  let playerIds := map (@value num) leaderboard in
  players <- db_select_in playerIds ;;
  ret (map_index
         (fun player index =>
            let playerDetails :=
              find (fun p => String.eqb (Z_toString (id p)) (value player))
                   players in
            {| top_ranking := index + 1;
               top_id := value player;
               top_playerName := option_map name playerDetails;
               top_country := option_map country playerDetails;
               top_countryCode := option_map country_code playerDetails;
               top_money := score player |})
         0 leaderboard).

(* --------------------------------------------------------------- *)
(** *** getPlayerDetails *)

Record PlayerDetails : Type := {
  d_name : option string;
  d_country : option string;
  d_country_code : option string
}.

Definition no_details : PlayerDetails :=
  {| d_name := None; d_country := None; d_country_code := None |}.

Definition db_select_details (playerId : string) : M num (list Player) :=
  issue (SELECT_details playerId) ;;;
  read (fun w => filter (fun p => sql_id_eq (JStr playerId) (id p)) (players w)).

Definition getPlayerDetails (playerId : string) : M num PlayerDetails :=
  if String.eqb playerId "" then ret no_details
  else
    player <- db_select_details playerId ;;
    match player with
    | [] => ret no_details
    | p0 :: _ =>
        ret {| d_name := Some (name p0);
               d_country := Some (country p0);
               d_country_code := Some (country_code p0) |}
    end.

(* --------------------------------------------------------------- *)
(** *** Search with neighbourhoods: getSearchResults

    [Promise.all(players.map(async ...))] starts every callback in turn and
    runs each up to its first [await]: the test and update of
    [includedPlayerIds] for all matched players come first
    ([include_matched]).  The awaited commands only read, so what a callback
    reads does not depend on how far the others have got, and each is read
    through in turn ([fetch]).  The code after [await getPlayerDetails(...)]
    runs once per window entry, in the order in which the pool's queries
    answer: a [schedule] lists those resumptions as (callback, window index),
    and [resume] runs one of them without interruption.  It touches only the
    shared set and its own callback's two arrays. *)

Record NeighbourRow : Type := {
  n_ranking : Z;
  n_id : string;
  n_playerName : string;
  n_country : string;
  n_countryCode : string;
  n_money : num
}.

Record SearchResult : Type := {
  r_id : string;
  r_ranking : Z;
  r_playerName : string;
  r_country : string;
  r_countryCode : string;
  r_money : num;
  prevPlayers : list NeighbourRow;
  nextPlayers : list NeighbourRow
}.

(** A callback suspended in its inner [Promise.all]. *)
Record Task : Type := {
  task_player : Player;
  task_rank : Z;
  task_score : option num;
  task_startRank : Z;
  task_endRank : Z;
  surroundingPlayers : list (ScoreEntry num * PlayerDetails);
  task_prev : list NeighbourRow;
  task_next : list NeighbourRow
}.

(** [Set.prototype.has] *)
Definition has (s : list string) (k : string) : bool :=
  existsb (String.eqb k) s.

Fixpoint include_matched (players : list Player) (includedPlayerIds : list string)
  : list (Player * bool) * list string :=
  match players with
  | [] => ([], includedPlayerIds)
  | player :: rest =>
      let k := Z_toString (id player) in
      if has includedPlayerIds k then
        let (r, s) := include_matched rest includedPlayerIds in ((player, false) :: r, s)
      else
        let (r, s) := include_matched rest (includedPlayerIds ++ [k]) in
        ((player, true) :: r, s)
  end.

Definition startRank_of (rank : Z) : Z := if rank - 3 <? 0 then 0 else rank - 3.
Definition endRank_of (rank : Z) : Z := rank + 2.

Definition fetch (a : Player * bool) : M num (option Task) :=
  let (player, admitted) := a in
  if negb admitted then ret None
  else
    rank <- zRevRank (Z_toString (id player)) ;;
    score <- zScore (Z_toString (id player)) ;;
    match rank with
    | None => ret None
    | Some rank =>
        let startRank := startRank_of rank in
        let endRank := endRank_of rank in
        surrounding <- zRangeWithScores startRank endRank ;;
        details <- mapM (fun e => getPlayerDetails (value e)) surrounding ;;
        ret (Some {| task_player := player; task_rank := rank;
                     task_score := score; task_startRank := startRank;
                     task_endRank := endRank;
                     surroundingPlayers := combine surrounding details;
                     task_prev := []; task_next := [] |})
    end.

Fixpoint replace_nth {A} (i : nat) (a : A) (l : list A) : list A :=
  match l, i with
  | [], _ => []
  | _ :: r, O => a :: r
  | x :: r, S i' => x :: replace_nth i' a r
  end.

Definition push_prev (t : Task) (row : NeighbourRow) : Task :=
  {| task_player := task_player t; task_rank := task_rank t;
     task_score := task_score t; task_startRank := task_startRank t;
     task_endRank := task_endRank t;
     surroundingPlayers := surroundingPlayers t;
     task_prev := task_prev t ++ [row]; task_next := task_next t |}.

Definition push_next (t : Task) (row : NeighbourRow) : Task :=
  {| task_player := task_player t; task_rank := task_rank t;
     task_score := task_score t; task_startRank := task_startRank t;
     task_endRank := task_endRank t;
     surroundingPlayers := surroundingPlayers t;
     task_prev := task_prev t; task_next := task_next t ++ [row] |}.

Definition Pending : Type := (list string * list (option Task))%type.

Definition resume (st : Pending) (ev : nat * nat) : Pending :=
  let (includedPlayerIds, tasks) := st in
  let (i, index) := ev in
  match nth_error tasks i with
  | Some (Some t) =>
      match nth_error (surroundingPlayers t) index with
      | Some (player, playerDetails) =>
          match d_name playerDetails, d_country playerDetails,
                d_country_code playerDetails with
          | Some n, Some c, Some cc =>
              let row := {| n_ranking := task_startRank t + Z.of_nat index + 1;
                            n_id := value player;
                            n_playerName := n; n_country := c;
                            n_countryCode := cc;
                            n_money := score player |} in
              if task_startRank t + Z.of_nat index <? task_rank t then
                if negb (has includedPlayerIds (value player)) then
                  (includedPlayerIds ++ [value player],
                   replace_nth i (Some (push_prev t row)) tasks)
                else st
              else if task_startRank t + Z.of_nat index >? task_rank t then
                if negb (has includedPlayerIds (value player)) then
                  (includedPlayerIds ++ [value player],
                   replace_nth i (Some (push_next t row)) tasks)
                else st
              else st
          | _, _, _ => st
          end
      | None => st
      end
  | _ => st
  end.

(** [Number(score)] for a score that is a number or null. *)
Definition Number_of (s : option num) : num :=
  match s with Some x => x | None => nlit 0 end.

Definition result_of (t : Task) : SearchResult :=
  {| r_id := Z_toString (id (task_player t));
     r_ranking := task_rank t + 1;
     r_playerName := name (task_player t);
     r_country := country (task_player t);
     r_countryCode := country_code (task_player t);
     r_money := Number_of (task_score t);
     prevPlayers := task_prev t;
     nextPlayers := task_next t |}.

(** [xs.filter(x => x !== null)] *)
Fixpoint non_null {A} (l : list (option A)) : list A :=
  match l with
  | [] => []
  | Some a :: r => a :: non_null r
  | None :: r => non_null r
  end.

Definition getSearchResults (schedule : list (nat * nat)) (players : list Player)
  : M num (list SearchResult) :=
  let (admitted, includedPlayerIds) := include_matched players [] in
  tasks <- mapM fetch admitted ;;
  let (_, tasks) := fold_left resume schedule (includedPlayerIds, tasks) in
  ret (map result_of (non_null tasks)).

(* --------------------------------------------------------------- *)
(** *** GET /leaderboard/top-ranking-data *)

Record RankingData : Type := {
  topRankingPlayers : list TopRow;
  searchResults : option (list SearchResult)
}.

Definition query_given (query : option string) : bool :=
  match query with Some q => negb (String.eqb q "") | None => false end.

Definition db_select_like_name (q : string) : M num (list Player) :=
  issue (SELECT_like q) ;;;
  read (fun w => filter (fun p => sql_like (name p) q) (players w)).

(** [sort((a, b) => a.rank - b.rank)], which is stable. *)
Fixpoint insert_by_rank (x : Player * Z) (l : list (Player * Z)) :=
  match l with
  | [] => [x]
  | y :: r => if snd x <=? snd y then x :: l else y :: insert_by_rank x r
  end.

Definition sort_by_rank (l : list (Player * Z)) : list (Player * Z) :=
  fold_right insert_by_rank [] l.

Definition top_ranking_data (schedule : list (nat * nat)) (query : option string)
  : M num (Response RankingData) :=
  topRankingPlayers <- getTopRankingPlayers ;;
  if negb (query_given query) then
    ret {| status := 200;
           payload := {| topRankingPlayers := topRankingPlayers;
                         searchResults := None |} |}
  else
    let q := match query with Some q => q | None => "" end in
    players <- db_select_like_name q ;;
    if (List.length players =? 0)%nat then
      ret {| status := 200;
             payload := {| topRankingPlayers := topRankingPlayers;
                           searchResults := None |} |}
    else
      playersWithRanks <-
        mapM (fun player =>
                rank <- zRevRank (Z_toString (id player)) ;;
                ret (option_map (fun r => (player, r + 1)) rank))
             players ;;
      let filteredPlayers := sort_by_rank (non_null playersWithRanks) in
      searchResults <- getSearchResults schedule (map fst filteredPlayers) ;;
      ret {| status := 200;
             payload := {| topRankingPlayers := topRankingPlayers;
                           searchResults := Some searchResults |} |}.

(* --------------------------------------------------------------- *)
(** *** GET /leaderboard/search (the route's revision with neighbourhoods)

    Here the callbacks write ([zAdd]), so the order of the commands matters.
    One Redis connection answers in the order asked: every callback's
    [zRevRank] is sent before any [zScore], every [zScore] before any
    [zAdd] or range read, and those before any neighbour is looked up. *)

Record SearchRow : Type := {
  s_ranking : option Z;
  s_playerName : string;
  s_country : string;
  s_countryCode : string;
  s_money : num;
  s_surroundingPlayers : option (list NeighbourRow * list NeighbourRow)
}.

Inductive SearchReply : Type :=
| search_error (msg : string)
| search_rows (rows : list SearchRow).

Definition db_select_like (q : string) : M num (list Player) :=
  issue (SELECT_like q) ;;;
  read (fun w =>
          filter (fun p => sql_like (name p) q || sql_like (country p) q)
                 (players w)).

(** This revision's getPlayerDetails: [[]] or the row [player[0]] itself. *)
Definition getPlayerDetails_row (playerId : string) : M num (option Player) :=
  if String.eqb playerId "" then ret None
  else
    player <- db_select_details playerId ;;
    ret (hd_error player).

Inductive Suspended : Type :=
| healed
| ranged (rank startRank : Z) (surrounding : list (ScoreEntry num)).

Definition heal_or_range (a : Player * option Z) : M num Suspended :=
  let (player, rank) := a in
  match rank with
  | None =>
      zAdd (nlit 0) (Z_toString (id player)) ;;;
      ret healed
  | Some rank =>
      let startRank := rank - 3 in
      let endRank := rank + 2 in
      surrounding <- zRangeWithScores startRank endRank ;;
      ret (ranged rank startRank surrounding)
  end.

(** The inner callback after [await getPlayerDetails]: [playerDetails] is a
    row object, [playerDetails.length] is undefined, [playerDetails[0]] is
    undefined, and building the pushed object reads [.name] of it. *)
Definition neighbour_row (rank startRank : Z) (playerDetails : option Player)
           (index : Z) : Outcome unit :=
  match playerDetails with
  | None => Returned tt
  | Some _ =>
      if startRank + index <? rank then Thrown _
      else if startRank + index >? rank then Thrown _
      else Returned tt
  end.

Definition is_thrown {A} (o : Outcome A) : bool :=
  match o with Thrown _ => true | Returned _ => false end.

Definition finish (a : Player * option num * Suspended)
  : M num (Outcome SearchRow) :=
  let '(player, score, s) := a in
  match s with
  | healed =>
      ret (Returned {| s_ranking := None;
                       s_playerName := name player;
                       s_country := country player;
                       s_countryCode := country_code player;
                       s_money := nlit 0;
                       s_surroundingPlayers := None |})
  | ranged rank startRank surrounding =>
      details <- mapM (fun e => getPlayerDetails_row (value e)) surrounding ;;
      if existsb is_thrown (map_index (neighbour_row rank startRank) 0 details)
      then ret (Thrown _)
      else
        ret (Returned {| s_ranking := Some (rank + 1);
                         s_playerName := name player;
                         s_country := country player;
                         s_countryCode := country_code player;
                         s_money := Number_of score;
                         s_surroundingPlayers := Some ([], []) |})
  end.

(** [Promise.all]: the results in order, or the rejection. *)
Fixpoint all_returned {A} (l : list (Outcome A)) : option (list A) :=
  match l with
  | [] => Some []
  | Returned a :: r => option_map (cons a) (all_returned r)
  | Thrown _ :: _ => None
  end.

Definition leaderboard_search (query : option string)
  : M num (Response SearchReply) :=
  if negb (query_given query) then
    ret {| status := 400; payload := search_error "Query parameter is required" |}
  else
    let q := match query with Some q => q | None => "" end in
    players <- db_select_like q ;;
    if (List.length players =? 0)%nat then
      ret {| status := 200; payload := search_rows [] |}
    else
      ranks <- mapM (fun player => zRevRank (Z_toString (id player))) players ;;
      scores <- mapM (fun player => zScore (Z_toString (id player))) players ;;
      suspended <- mapM heal_or_range (combine players ranks) ;;
      outcomes <- mapM finish (combine (combine players scores) suspended) ;;
      match all_returned outcomes with
      | Some results => ret {| status := 200; payload := search_rows results |}
      | None =>
          ret {| status := 500; payload := search_error "Internal Server Error" |}
      end.

(* --------------------------------------------------------------- *)
(** *** GET /leaderboard/search, first revision (also unnamed/part_000)

    The callbacks of this revision only read: each asks for the rank, then
    for the score, and answers with a row.  As above, every [zRevRank] is
    sent before any [zScore]. *)

Record PlainRow : Type := {
  p_ranking : option Z;
  p_playerName : string;
  p_country : string;
  p_countryCode : string;
  p_money : num
}.

Inductive PlainReply : Type :=
| plain_error (msg : string)
| plain_rows (rows : list PlainRow).

(** [{ ranking: rank !== null ? rank + 1 : null, ...,
       money: score ? Number(score) : 0 }] *)
Definition plain_row (a : Player * option Z * option num) : PlainRow :=
  let '(player, rank, score) := a in
  {| p_ranking := option_map (fun r => r + 1) rank;
     p_playerName := name player;
     p_country := country player;
     p_countryCode := country_code player;
     p_money := match score with
                | Some s => if nfalsy s then nlit 0 else s
                | None => nlit 0
                end |}.

Definition leaderboard_search_plain (query : option string)
  : M num (Response PlainReply) :=
  if negb (query_given query) then
    ret {| status := 400; payload := plain_error "Query parameter is required" |}
  else
    let q := match query with Some q => q | None => "" end in
    players <- db_select_like q ;;
    if (List.length players =? 0)%nat then
      ret {| status := 200; payload := plain_rows [] |}
    else
      ranks <- mapM (fun player => zRevRank (Z_toString (id player))) players ;;
      scores <- mapM (fun player => zScore (Z_toString (id player))) players ;;
      ret {| status := 200;
             payload := plain_rows
                          (map plain_row (combine (combine players ranks) scores)) |}.

(* --------------------------------------------------------------- *)
(** *** The router build of POST /leaderboard/earn (unnamed/part_000)

    An earlier compiled variant, not mounted by app.ts: it has the same
    validation, the same two Redis calls inside the same try/catch, and no
    lookup in [players]. *)

Definition router_leaderboard_earn (playerId amount : JsValue num)
  : M num (Response Reply) :=
  if negb (truthy playerId) || negb (is_number amount) then
    ret {| status := 400; payload := error_ "Invalid playerId or amount" |}
  else
    scored <- try_zIncrBy (to_number amount) (toString playerId) ;;
    match scored with
    | Thrown _ =>
        ret {| status := 500; payload := error_ "Internal Server Error" |}
    | Returned _ =>
        fed <- incrByFloat (nmul (to_number amount) (nlit 0.02)) ;;
        match fed with
        | Thrown _ =>
            ret {| status := 500; payload := error_ "Internal Server Error" |}
        | Returned _ =>
            ret {| status := 200;
                   payload := message_ "Earnings updated successfully" |}
        end
    end.

End Engine.

Arguments Returned {A} a.
Arguments Thrown {A}.

(* ================================================================= *)
(** ** Requests served one after the other

    What app.ts answers: earnings, registrations, the weekly settlement and
    the combined view, each run to its end before the next starts. *)

Inductive Request (num : Type) : Type :=
| Earn (playerId amount : JsValue num)
| Register (name country countryCode : option string)
| Settle
| View (schedule : list (nat * nat)) (query : option string).

Arguments Earn {num} playerId amount.
Arguments Register {num} name country countryCode.
Arguments Settle {num}.
Arguments View {num} schedule query.

Section Requests.
Context {num : Type} `{JsNumber num}.
Variable Number_toString : num -> string.
Variable sql_id_eq : JsValue num -> Z -> bool.
Variable sql_str_eq : string -> string -> bool.
Variable sql_like : string -> string -> bool.
Variable redis_incrbyfloat : num -> num -> option num.

Definition handle (r : Request num) : M num unit :=
  match r with
  | Earn playerId amount =>
      leaderboard_earn Number_toString sql_id_eq redis_incrbyfloat
                       playerId amount ;;; ret tt
  | Register name country countryCode =>
      player_create sql_str_eq name country countryCode ;;; ret tt
  | Settle => leaderboard_reset
  | View schedule query =>
      top_ranking_data sql_id_eq sql_like schedule query ;;; ret tt
  end.

Definition serve (rs : list (Request num)) : M num unit :=
  mapM handle rs ;;; ret tt.

(** Earning requests alone, with their replies. *)
Definition earn_all (reqs : list (JsValue num * JsValue num))
  : M num (list (Response Reply)) :=
  mapM (fun r => leaderboard_earn Number_toString sql_id_eq redis_incrbyfloat
                                  (fst r) (snd r))
       reqs.
End Requests.

(* ================================================================= *)
(** ** A concrete runtime for the scenarios

    The scenarios of the specification use integer ids, canonical decimal id
    strings and plain substrings; on those the functions below agree with
    JavaScript and MySQL. *)

(** The integer a binary64 value denotes, when it denotes one. *)
Definition float_to_Z (f : float) : option Z :=
  match Prim2SF f with
  | S754_zero _ => Some 0
  | S754_finite s m e =>
      let magnitude :=
        if 0 <=? e then Some (Zpos m * 2 ^ e)
        else if Zpos m mod 2 ^ (- e) =? 0 then Some (Zpos m / 2 ^ (- e))
        else None in
      option_map (fun z => if s then - z else z) magnitude
  | _ => None
  end.

(** Number.prototype.toString on the integers the scenarios use. *)
Definition integer_toString (f : float) : string :=
  match float_to_Z f with
  | Some z => Z_toString z
  | None => "NaN"
  end.

(** [id = ?] for a number or a canonical decimal string. *)
Definition integer_id_eq (v : JsValue float) (z : Z) : bool :=
  match v with
  | JNum f => match float_to_Z f with Some k => k =? z | None => false end
  | JStr s => String.eqb s (Z_toString z)
  | _ => false
  end.

Fixpoint is_prefix (p s : string) : bool :=
  match p, s with
  | EmptyString, _ => true
  | String a p', String b s' => Ascii.eqb a b && is_prefix p' s'
  | String _ _, EmptyString => false
  end.

(** [s LIKE '%q%'], case-sensitively. *)
Fixpoint contains (s q : string) : bool :=
  is_prefix q s
  || match s with
     | EmptyString => false
     | String _ s' => contains s' q
     end.

Definition empty_world {num} : World num :=
  {| players := []; auto_increment := 1; leaderboard := [];
     prize_pool := None; issued := [] |}.

(** INCRBYFLOAT on the values of the scenarios, where the sum is exact:
    refused when the increment or the stored value is not finite. *)
Definition binary64_incrbyfloat (stored increment : float) : option float :=
  if PrimFloat.is_finite stored && PrimFloat.is_finite increment
  then Some (PrimFloat.add stored increment)
  else None.

Definition earn_f :=
  leaderboard_earn integer_toString integer_id_eq binary64_incrbyfloat.
Definition create_f := player_create (num := float) String.eqb.
Definition top_f := getTopRankingPlayers (num := float) integer_id_eq.
Definition ranking_data_f := top_ranking_data (num := float) integer_id_eq contains.
Definition search_f := leaderboard_search (num := float) integer_id_eq contains.

(* ================================================================= *)
(** ** Vocabulary of the statements *)

(** [parseFloat((await redisClient.get(PRIZE_POOL_KEY)) || "0")] *)
Definition pool_balance {num} `{JsNumber num} (w : World num) : num :=
  match prize_pool w with Some v => v | None => nlit 0 end.

(** The commands a handler added when it took [w] to [w']. *)
Definition new_commands {num} (w w' : World num) : list (Command num) :=
  skipn (List.length (issued w)) (issued w').

(** The score increments among some commands, in order. *)
Definition increments {num} (cs : list (Command num)) : list (string * num) :=
  flat_map (fun c => match c with
                     | ZINCRBY r m => [(m, r)]
                     | _ => []
                     end) cs.

Definition total {num} `{JsNumber num} (l : list num) : num :=
  fold_right nadd (nlit 0) l.

(** The two stores hold the same data. *)
Definition same_stores {num} (w w' : World num) : Prop :=
  players w' = players w /\ auto_increment w' = auto_increment w
  /\ leaderboard w' = leaderboard w /\ prize_pool w' = prize_pool w.

Definition invalid_input : Response Reply :=
  {| status := InvalidInput; payload := error_ "Invalid playerId or amount" |}.

Definition not_found : Response Reply :=
  {| status := NotFound; payload := error_ "Player not found" |}.

(** The rows [SELECT id FROM players WHERE id = ?] answers with. *)
Definition known {num} (sql_id_eq : JsValue num -> Z -> bool)
           (w : World num) (playerId : JsValue num) : list Player :=
  filter (fun p => sql_id_eq playerId (id p)) (players w).

(** The spec's "finite number". *)
Definition finite_number (v : JsValue float) : bool :=
  match v with
  | JNum f => negb (PrimFloat.is_nan f) && negb (PrimFloat.is_infinity f)
  | _ => false
  end.

(** Ids shown by one search result: the matched player and its neighbours. *)
Definition result_ids {num} (r : @SearchResult num) : list string :=
  r_id r :: map (@n_id num) (prevPlayers r) ++ map (@n_id num) (nextPlayers r).

Definition neighbour_ids {num} (r : @SearchResult num) : list string :=
  map (@n_id num) (prevPlayers r) ++ map (@n_id num) (nextPlayers r).

(** The rewards the settlement loop computes for [n] entries from index [i]
    on, and what is left of [remainingPrize] after them. *)
Fixpoint shares {num} `{JsNumber num} (prizePool : num) (i : nat)
         (remainingPrize : num) (n : nat) : list num :=
  match n with
  | O => []
  | S n' =>
      let reward :=
        if (i <? 3)%nat then nmul prizePool (nth i rewards (nlit 0))
        else nmul remainingPrize (nlit 0.00567) in
      reward :: shares prizePool (S i) (nsub remainingPrize reward) n'
  end.


(** Sending the increments [(member, reward)] to the sorted set, in order. *)
Definition apply_rewards {num} `{JsNumber num}
           (pairs : list (string * num)) (l : list (ScoreEntry num)) :=
  fold_left (fun l p => zset_incrby (snd p) (fst p) l) pairs l.


(** A computation that only reads: the stores keep their data and the list of
    issued commands only grows. *)
Definition quiet {num A} (m : M num A) : Prop :=
  forall w, same_stores w (snd (m w))
            /\ exists cs, issued (snd (m w)) = issued w ++ cs.

(** The key of a row of [players] in the sorted set: [player.id.toString()]. *)
Definition key_of (p : Player) : string := Z_toString (id p).

(** What [fetch] established about a suspended callback: the player's rank in
    the sorted set [l], the window bounds computed from it, the window read
    from [l], and the range command among [cs]. *)
Definition window_of {num} `{JsNumber num} (l : list (ScoreEntry num))
           (cs : list (Command num)) (t : @Task num) : Prop :=
  zset_revrank (key_of (task_player t)) l = Some (task_rank t)
  /\ task_startRank t = startRank_of (task_rank t)
  /\ task_endRank t = endRank_of (task_rank t)
  /\ map fst (surroundingPlayers t)
     = zset_range_rev (task_startRank t) (task_endRank t) l
  /\ In (ZRANGE_REV (task_startRank t) (task_endRank t)) cs.

(** A neighbour row copied from the window entry at [index], which lies before
    ([better = true]) or after the player's own rank. *)
Definition row_at {num} (t : @Task num) (better : bool) (row : @NeighbourRow num)
  : Prop :=
  exists index e d,
    nth_error (surroundingPlayers t) index = Some (e, d)
    /\ n_id row = value e /\ n_money row = score e
    /\ n_ranking row = task_startRank t + Z.of_nat index + 1
    /\ if better then task_startRank t + Z.of_nat index < task_rank t
       else task_rank t < task_startRank t + Z.of_nat index.

Definition task_ok {num} `{JsNumber num} (players : list Player)
           (l : list (ScoreEntry num)) (cs : list (Command num)) (t : @Task num)
  : Prop :=
  In (task_player t) players
  /\ window_of l cs t
  /\ Forall (row_at t true) (task_prev t)
  /\ Forall (row_at t false) (task_next t).

(** Ids a suspended callback will show: its player and the rows pushed so far. *)
Definition task_ids {num} (t : @Task num) : list string :=
  key_of (task_player t)
  :: map (@n_id num) (task_prev t) ++ map (@n_id num) (task_next t).

Definition ids_of {num} (tasks : list (option (@Task num))) : list string :=
  flat_map task_ids (non_null tasks).

(** The two invariants of the resumptions: every suspended callback keeps its
    window and rows in order, and no id is shown twice, each shown id being in
    the set. *)
Definition windows_ok {num} `{JsNumber num} (players : list Player)
           (l : list (ScoreEntry num)) (cs : list (Command num))
           (st : @Pending num) : Prop :=
  Forall (fun ot => forall t, ot = Some t -> task_ok players l cs t) (snd st).

Definition shown_once {num} (st : @Pending num) : Prop :=
  NoDup (ids_of (snd st)) /\ incl (ids_of (snd st)) (fst st).

(** The command that applies one reward. *)
Definition incr_command {num} (p : string * num) : Command num :=
  ZINCRBY (snd p) (fst p).

(** The callbacks that passed the test of [includedPlayerIds]. *)
Definition admitted_keys (adm : list (Player * bool)) : list string :=
  flat_map (fun a : Player * bool => if snd a then [key_of (fst a)] else []) adm.

(** A computation that may write: the list of issued commands only grows. *)
Definition appends {num A} (m : M num A) : Prop :=
  forall w, exists cs, issued (snd (m w)) = issued w ++ cs.

(** The sorted set holds exactly one entry for [k], with score 0. *)
Definition healed_key {num} `{JsNumber num} (k : string) (w : World num) : Prop :=
  zset_score k (leaderboard w) = Some (nlit 0)
  /\ occurrences k (leaderboard w) = 1%nat.

(** The row the search route answers for a player without a rank. *)
Definition unranked_row {num} `{JsNumber num} (p : Player) : @SearchRow num :=
  {| s_ranking := None;
     s_playerName := name p;
     s_country := country p;
     s_countryCode := country_code p;
     s_money := nlit 0;
     s_surroundingPlayers := None |}.

(** The rows a search for [q] matches ([name LIKE] or [country LIKE]). *)
Definition matching {num} (sql_like : string -> string -> bool) (q : string)
           (w : World num) : list Player :=
  filter (fun p => sql_like (name p) q || sql_like (country p) q) (players w).

(** What a suspended callback says about its matched player. *)
Definition task_head {num} (t : @Task num) : Player * Z * option num :=
  (task_player t, task_rank t, task_score t).

(** What [fetch] reads for a callback: nothing when the id was already in the
    set or has no rank in [l]. *)
Definition fetched {num} `{JsNumber num} (l : list (ScoreEntry num))
           (a : Player * bool) : option (Player * Z * option num) :=
  if snd a then
    option_map (fun R => (fst a, R, zset_score (key_of (fst a)) l))
               (zset_revrank (key_of (fst a)) l)
  else None.

(** The matched players [getSearchResults] answers for, with their ranks: of
    the players that share an id the first one, when it has a rank in [l]. *)
Fixpoint shown_players {num} `{JsNumber num} (l : list (ScoreEntry num))
         (players : list Player) (includedPlayerIds : list string)
  : list (Player * Z) :=
  match players with
  | [] => []
  | p :: rest =>
      if has includedPlayerIds (key_of p) then
        shown_players l rest includedPlayerIds
      else
        match zset_revrank (key_of p) l with
        | Some R => [(p, R)]
        | None => []
        end ++ shown_players l rest (includedPlayerIds ++ [key_of p])
  end.

(** A search result without its two neighbour lists. *)
Definition result_core {num} (r : @SearchResult num)
  : string * Z * string * string * string * num :=
  (r_id r, r_ranking r, r_playerName r, r_country r, r_countryCode r, r_money r).

(** The same six fields as [getSearchResults] fills them for a player found
    at 0-based rank [R] of [l]. *)
Definition core_of {num} `{JsNumber num} (l : list (ScoreEntry num))
           (a : Player * Z) : string * Z * string * string * string * num :=
  (key_of (fst a), snd a + 1, name (fst a), country (fst a),
   country_code (fst a), Number_of (zset_score (key_of (fst a)) l)).

(** The profile a neighbour row carries is that of a row of [players] which
    MySQL matches with the row's id. *)
Definition profile_of {num} (sql_id_eq : JsValue num -> Z -> bool)
           (players : list Player) (row : @NeighbourRow num) : Prop :=
  exists p,
    In p players /\ sql_id_eq (JStr (n_id row)) (id p) = true
    /\ n_playerName row = name p /\ n_country row = country p
    /\ n_countryCode row = country_code p.

(** What [getPlayerDetails] answered for a window entry: three nulls, or the
    three fields of a row that MySQL matches with the entry's member. *)
Definition details_of_row {num} (sql_id_eq : JsValue num -> Z -> bool)
           (players : list Player) (a : ScoreEntry num * PlayerDetails) : Prop :=
  snd a = no_details
  \/ exists p,
       In p players /\ sql_id_eq (JStr (value (fst a))) (id p) = true
       /\ snd a = {| d_name := Some (name p);
                     d_country := Some (country p);
                     d_country_code := Some (country_code p) |}.

(** The invariant of the resumptions about profiles. *)
Definition profiles_ok {num} (sql_id_eq : JsValue num -> Z -> bool)
           (players : list Player) (t : @Task num) : Prop :=
  Forall (details_of_row sql_id_eq players) (surroundingPlayers t)
  /\ Forall (profile_of sql_id_eq players) (task_prev t)
  /\ Forall (profile_of sql_id_eq players) (task_next t).

(** Every entry of [l] is still in [l'], with a score that is not lower. *)
Definition scores_kept (l l' : list (ScoreEntry Q)) : Prop :=
  forall m s, zset_score m l = Some s ->
              exists s', zset_score m l' = Some s' /\ (s <= s')%Q.

(** A request that cannot lower a score: not an earning with a negative
    amount, and not a registration (which stores score 0 under the new id,
    whatever was stored there). *)
Definition raises_only (r : Request Q) : Prop :=
  match r with
  | Earn _ (JNum a) => (0 <= a)%Q
  | Register _ _ _ => False
  | _ => True
  end.

(** Every row of [players] has an entry in the sorted set, under its id in
    decimal. *)
Definition all_ranked {num} `{JsNumber num} (w : World num) : Prop :=
  forall p, In p (players w) -> zset_score (key_of p) (leaderboard w) <> None.

(** The amounts of the earning requests that were answered 200. *)
Fixpoint credited {num} `{JsNumber num} (reqs : list (JsValue num * JsValue num))
         (replies : list (Response Reply)) : list num :=
  match reqs, replies with
  | r :: reqs', reply :: replies' =>
      (if status reply =? 200 then [to_number (snd r)] else [])
      ++ credited reqs' replies'
  | _, _ => []
  end.

(** The row [POST /player/create] inserts. *)
Definition new_player {num} (w : World num) (n c cc : string) : Player :=
  {| id := auto_increment w; name := n; country := c; country_code := cc |}.

(** The three fields fit their columns (init.sql: VARCHAR(255), VARCHAR(255),
    VARCHAR(10)), so that the INSERT stores them as sent. *)
Definition fits_columns (n c cc : string) : Prop :=
  (String.length n <= 255)%nat /\ (String.length c <= 255)%nat
  /\ (String.length cc <= 10)%nat.

(** The next id is one the column can hold (init.sql: id INT). *)
Definition id_fits {num} (w : World num) : Prop :=
  auto_increment w <= 2147483647.

(** The rows [SELECT ... FROM players WHERE id IN (?)] answers with for the
    ids [ids]. *)
Definition selected_in {num} (sql_id_eq : JsValue num -> Z -> bool)
           (ids : list string) (w : World num) : list Player :=
  filter (fun p => existsb (fun s => sql_id_eq (JStr s) (id p)) ids) (players w).

(** Every resumption takes place: each of the (at most six) window entries
    of each of the [n] callbacks is answered, in some order, at least once. *)
Definition answers_all (schedule : list (nat * nat)) (n : nat) : bool :=
  forallb (fun i =>
             forallb (fun index =>
                        existsb (fun ev : nat * nat =>
                                   Nat.eqb (fst ev) i && Nat.eqb (snd ev) index)
                                schedule)
                     (seq 0 6))
          (seq 0 n).

(** [getPlayerDetails] finds a row for the member [k]. *)
Definition has_profile {num} (sql_id_eq : JsValue num -> Z -> bool)
           (rows : list Player) (k : string) : bool :=
  negb (String.eqb k "")
  && existsb (fun p => sql_id_eq (JStr k) (id p)) rows.

(** None of the three fields [getPlayerDetails] answered is null. *)
Definition profile_found (d : PlayerDetails) : bool :=
  match d_name d, d_country d, d_country_code d with
  | Some _, Some _, Some _ => true
  | _, _, _ => false
  end.

(** What a suspended callback keeps while rows are pushed: its rank, the
    start of its window and the window with the profiles looked up. *)
Definition task_window {num} (t : @Task num)
  : Z * Z * list (ScoreEntry num * PlayerDetails) :=
  (task_rank t, task_startRank t, surroundingPlayers t).

(** The rows the duplicate check of [POST /player/create] finds. *)
Definition existing {num} (sql_str_eq : string -> string -> bool)
           (w : World num) (n c cc : string) : list Player :=
  filter (same_player sql_str_eq n c cc) (players w).

(** Number.prototype.toString and [id = ?] on exact integers. *)
Definition exact_toString (q : Q) : string := Z_toString (Qnum (Qred q)).

Definition exact_id_eq (v : JsValue Q) (z : Z) : bool :=
  match v with
  | JNum q => Qeq_bool q (inject_Z z)
  | JStr s => String.eqb s (Z_toString z)
  | _ => false
  end.

Definition internal_error : Response Reply :=
  {| status := 500; payload := error_ "Internal Server Error" |}.

(** The score ZINCRBY leaves under [member]. *)
Definition new_score {num} `{JsNumber num} (increment : num) (member : string)
           (w : World num) : num :=
  match zset_score member (leaderboard w) with
  | None => increment
  | Some s => nadd s increment
  end.

(** INCRBYFLOAT in exact arithmetic: the sum, never refused. *)
Definition exact_incrbyfloat (stored increment : Q) : option Q :=
  Some (stored + increment)%Q.


Definition ada : Player :=
  {| id := 1; name := "Ada"; country := "US"; country_code := "US" |}.

Definition bob : Player :=
  {| id := 2; name := "Bob"; country := "TR"; country_code := "TR" |}.

(* ----------------------------------------------------------------- *)
(** *** Worlds of the scenarios *)

(** Scenario A after registration: Ada is player 1 with score 0. *)
Definition world_ada : World float :=
  snd (create_f (Some "Ada") (Some "US") (Some "US") empty_world).

(** Scenario B: two players with scores 500 and 300, pool 100. *)
Definition world_two : World float :=
  {| players := [ada; bob];
     auto_increment := 3;
     leaderboard := [ {| value := "2"; score := nlit 300 |};
                      {| value := "1"; score := nlit 500 |} ];
     prize_pool := Some (nlit 100);
     issued := [] |}.

Definition bea : Player :=
  {| id := 3; name := "Bea"; country := "FR"; country_code := "FR" |}.

(** Three ranked players: Ada first, Bob second, Bea third. *)
Definition world_three : World float :=
  {| players := [ada; bob; bea];
     auto_increment := 4;
     leaderboard := [ {| value := "3"; score := nlit 100 |};
                      {| value := "2"; score := nlit 300 |};
                      {| value := "1"; score := nlit 500 |} ];
     prize_pool := Some (nlit 100);
     issued := [] |}.

(** Ada's row as a neighbour: first, with 500. *)
Definition ada_first : @NeighbourRow float :=
  {| n_ranking := 1; n_id := "1"; n_playerName := "Ada"; n_country := "US";
     n_countryCode := "US"; n_money := nlit 500 |}.

(** Bob's result among three: second, Ada before him and Bea after him. *)
Definition bob_between : @SearchResult float :=
  {| r_id := "2"; r_ranking := 2; r_playerName := "Bob"; r_country := "TR";
     r_countryCode := "TR"; r_money := nlit 300;
     prevPlayers := [ada_first];
     nextPlayers := [ {| n_ranking := 3; n_id := "3"; n_playerName := "Bea";
                         n_country := "FR"; n_countryCode := "FR";
                         n_money := nlit 100 |} ] |}.

(** The six window entries of one callback, answered in window order. *)
Definition in_window_order (i : nat) : list (nat * nat) :=
  map (fun index => (i, index)) (seq 0 6).

(** Player 0 is registered here. *)
Definition world_zero : World float :=
  {| players := [ {| id := 0; name := "Zed"; country := "NZ"; country_code := "NZ" |} ];
     auto_increment := 1;
     leaderboard := [ {| value := "0"; score := nlit 0 |} ];
     prize_pool := None;
     issued := [] |}.

(** Scenario D: Bob is registered and has no entry in the sorted set. *)
Definition world_unranked : World float :=
  {| players := [ada; bob];
     auto_increment := 3;
     leaderboard := [ {| value := "1"; score := nlit 500 |} ];
     prize_pool := None;
     issued := [] |}.


(** The same hundred players in binary64. *)
Definition world_hundred_binary64 : World float :=
  {| players := [];
     auto_increment := 101;
     leaderboard := map (fun i => {| value := Z_toString (Z.of_nat i);
                                     score := nlit (inject_Z (Z.of_nat i)) |})
                        (seq 1 100);
     prize_pool := Some (nlit 100);
     issued := [] |}.

(** Scenario B's world in exact arithmetic. *)
Definition world_two_exact : World Q :=
  {| players := [ada; bob];
     auto_increment := 3;
     leaderboard := [ {| value := "2"; score := 300%Q |};
                      {| value := "1"; score := 500%Q |} ];
     prize_pool := Some 100%Q;
     issued := [] |}.

Fixpoint npow {num} `{JsNumber num} (x : num) (n : nat) : num :=
  match n with
  | O => nlit 1
  | S n' => nmul x (npow x n')
  end.

(** P - (1 - 0.20 - 0.15 - 0.10) * P * (1 - 0.00567)^97, evaluated left to
    right in the number interpretation at hand. *)
Definition closed_form {num} `{JsNumber num} (P : num) : num :=
  nsub P (nmul (nmul (nsub (nsub (nsub (nlit 1) (nlit 0.20)) (nlit 0.15))
                           (nlit 0.10))
                     P)
               (npow (nsub (nlit 1) (nlit 0.00567)) 97)).

(* ================================================================= *)
(** ** The sorted set: lemmas *)

Section SortedSetFacts.
Context {num : Type} `{JsNumber num}.
Implicit Types (l : list (ScoreEntry num)) (e : ScoreEntry num) (m : string).

Lemma is_member_eq m e : is_member m e = true <-> value e = m.
Proof. unfold is_member. apply String.eqb_eq. Qed.

Lemma find_insert_other m e l :
  is_member m e = false ->
  find (is_member m) (zset_insert e l) = find (is_member m) l.
Proof.
  intros He. induction l as [|x r IH]; simpl.
  - now rewrite He.
  - destruct (entry_ltb e x); simpl.
    + now rewrite He.
    + now rewrite IH.
Qed.

Lemma find_insert_fresh m e l :
  is_member m e = true ->
  find (is_member m) l = None ->
  find (is_member m) (zset_insert e l) = Some e.
Proof.
  intros He. induction l as [|x r IH]; simpl; intros Hl.
  - now rewrite He.
  - destruct (is_member m x) eqn:Hx; [discriminate|].
    destruct (entry_ltb e x); simpl.
    + now rewrite He.
    + rewrite Hx. auto.
Qed.

Lemma find_remove_same m l : find (is_member m) (zset_remove m l) = None.
Proof.
  unfold zset_remove. induction l as [|x r IH]; simpl; auto.
  destruct (is_member m x) eqn:Hx; simpl; auto.
  now rewrite Hx.
Qed.

Lemma find_remove_other m m' l :
  m <> m' ->
  find (is_member m) (zset_remove m' l) = find (is_member m) l.
Proof.
  intros Hne. unfold zset_remove. induction l as [|x r IH]; simpl; auto.
  destruct (is_member m' x) eqn:Hx'; simpl.
  - destruct (is_member m x) eqn:Hx; auto.
    apply is_member_eq in Hx, Hx'. congruence.
  - now rewrite IH.
Qed.

Lemma zset_score_add_same s m l : zset_score m (zset_add s m l) = Some s.
Proof.
  unfold zset_score, zset_add.
  rewrite find_insert_fresh; auto using find_remove_same.
  apply is_member_eq. reflexivity.
Qed.

Lemma zset_score_add_other s m m' l :
  m <> m' -> zset_score m (zset_add s m' l) = zset_score m l.
Proof.
  intros Hne. unfold zset_score, zset_add.
  rewrite find_insert_other, find_remove_other; auto.
  destruct (is_member m _) eqn:E; auto.
  apply is_member_eq in E. simpl in E. congruence.
Qed.

Lemma zset_score_incrby_same incr m l :
  zset_score m (zset_incrby incr m l)
  = Some (match zset_score m l with
          | None => incr
          | Some s => nadd s incr
          end).
Proof.
  unfold zset_incrby. destruct (zset_score m l); apply zset_score_add_same.
Qed.

Lemma zset_score_incrby_other incr m m' l :
  m <> m' -> zset_score m (zset_incrby incr m' l) = zset_score m l.
Proof.
  intros Hne. unfold zset_incrby.
  destruct (zset_score m' l); now apply zset_score_add_other.
Qed.

Lemma occurrences_insert m e l :
  occurrences m (zset_insert e l)
  = ((if is_member m e then 1 else 0) + occurrences m l)%nat.
Proof.
  unfold occurrences. induction l as [|x r IH]; simpl.
  - destruct (is_member m e); reflexivity.
  - destruct (entry_ltb e x); simpl.
    + destruct (is_member m e); reflexivity.
    + destruct (is_member m x); simpl; rewrite IH;
        destruct (is_member m e); simpl; lia.
Qed.

Lemma occurrences_remove_same m l : occurrences m (zset_remove m l) = 0%nat.
Proof.
  unfold occurrences, zset_remove. induction l as [|x r IH]; simpl; auto.
  destruct (is_member m x) eqn:Hx; simpl; auto.
  now rewrite Hx.
Qed.

Lemma occurrences_add_same s m l : occurrences m (zset_add s m l) = 1%nat.
Proof.
  unfold zset_add. rewrite occurrences_insert, occurrences_remove_same.
  replace (is_member m _) with true; auto.
  symmetry. apply is_member_eq. reflexivity.
Qed.

Lemma occurrences_remove_other m m' l :
  m <> m' -> occurrences m (zset_remove m' l) = occurrences m l.
Proof.
  intros Hne. unfold occurrences, zset_remove.
  induction l as [|x r IH]; simpl; auto.
  destruct (is_member m' x) eqn:Hx'; simpl.
  - destruct (is_member m x) eqn:Hx; auto.
    apply is_member_eq in Hx, Hx'. congruence.
  - destruct (is_member m x); simpl; now rewrite IH.
Qed.

Lemma occurrences_add_other s m m' l :
  m <> m' -> occurrences m (zset_add s m' l) = occurrences m l.
Proof.
  intros Hne. unfold zset_add.
  rewrite occurrences_insert, occurrences_remove_other; auto.
  destruct (is_member m _) eqn:E; auto.
  apply is_member_eq in E. simpl in E. congruence.
Qed.

Lemma index_of_nonneg m l r : index_of m l = Some r -> 0 <= r.
Proof.
  revert r. induction l as [|x t IH]; simpl; intros r; [discriminate|].
  destruct (is_member m x).
  - intros [= <-]. lia.
  - destruct (index_of m t) as [k|]; simpl; [|discriminate].
    intros [= <-]. specialize (IH k eq_refl). lia.
Qed.

Lemma zset_revrank_nonneg m l r : zset_revrank m l = Some r -> 0 <= r.
Proof. apply index_of_nonneg. Qed.

(** A range between two non-negative ranks is that slice of the descending
    ranking. *)
Lemma zset_range_rev_slice a b l :
  0 <= a <= b ->
  zset_range_rev a b l
  = firstn (Z.to_nat (b - a + 1)) (skipn (Z.to_nat a) (rev l)).
Proof.
  intros Hab. unfold zset_range_rev.
  destruct (Z.ltb_spec a 0); [lia|].
  destruct (Z.ltb_spec b 0); [lia|].
  destruct (Z.ltb_spec a 0); [lia|].
  destruct (Z.gtb_spec a b); [lia|]. simpl.
  destruct (Z.geb_spec a (Z.of_nat (List.length l))) as [Hge|Hlt].
  - rewrite skipn_all2; [now rewrite firstn_nil|].
    rewrite length_rev. lia.
  - destruct (Z.geb_spec b (Z.of_nat (List.length l))) as [Hb|Hb]; auto.
    rewrite !firstn_all2; auto; rewrite length_skipn, length_rev; lia.
Qed.

Lemma zset_range_rev_nth a b l j e :
  0 <= a <= b ->
  nth_error (zset_range_rev a b l) j = Some e ->
  nth_error (rev l) (Z.to_nat a + j) = Some e /\ a + Z.of_nat j <= b.
Proof.
  intros Hab. rewrite zset_range_rev_slice by auto. intros Hj.
  assert (Hlt : (j < Z.to_nat (b - a + 1))%nat).
  { destruct (Nat.lt_ge_cases j (Z.to_nat (b - a + 1))) as [|Hge]; auto.
    rewrite nth_error_firstn in Hj.
    destruct (Nat.ltb_spec j (Z.to_nat (b - a + 1))); [lia|discriminate]. }
  rewrite nth_error_firstn in Hj.
  destruct (Nat.ltb_spec j (Z.to_nat (b - a + 1))); [|lia].
  rewrite nth_error_skipn in Hj. split; auto. lia.
Qed.

Lemma zset_range_rev_length a b l :
  0 <= a <= b ->
  (List.length (zset_range_rev a b l) <= Z.to_nat (b - a + 1))%nat.
Proof.
  intros Hab. rewrite zset_range_rev_slice by auto. apply firstn_le_length.
Qed.
End SortedSetFacts.

(* ================================================================= *)
(** ** Recording an earning *)

Lemma skipn_app_exact {A} (l cs : list A) : skipn (List.length l) (l ++ cs) = cs.
Proof. induction l; simpl; auto. Qed.

Lemma map_fst_combine {A B} (a : list A) : forall (b : list B),
  List.length a = List.length b -> map fst (combine a b) = a.
Proof.
  induction a as [|x a IH]; intros [|y b]; simpl; try discriminate; auto.
  intros [= Hlen]. now rewrite IH.
Qed.

Lemma map_snd_combine {A B} (a : list A) : forall (b : list B),
  List.length a = List.length b -> map snd (combine a b) = b.
Proof.
  induction a as [|x a IH]; intros [|y b]; simpl; try discriminate; auto.
  intros [= Hlen]. now rewrite IH.
Qed.

Ltac run :=
  unfold bind, ret, issue, read, write_leaderboard, write_prize_pool; simpl.

Section Earn.
Context {num : Type} `{JsNumber num}.
Variable Number_toString : num -> string.
Variable sql_id_eq : JsValue num -> Z -> bool.
Variable redis_incrbyfloat : num -> num -> option num.

Let earn := leaderboard_earn Number_toString sql_id_eq redis_incrbyfloat.

Lemma earn_invalid w playerId amount :
  truthy playerId = false \/ is_number amount = false ->
  earn playerId amount w = (invalid_input, w).
Proof.
  intros Hbad. unfold earn, leaderboard_earn.
  destruct Hbad as [-> | ->]; simpl; auto.
  now rewrite orb_true_r.
Qed.

Lemma earn_valid_unknown w playerId amount :
  truthy playerId = true -> is_number amount = true ->
  known sql_id_eq w playerId = [] ->
  earn playerId amount w = (not_found, snd (issue (SELECT_id playerId) w)).
Proof.
  intros Hid Ham Hnone. unfold earn, leaderboard_earn, db_select_id.
  rewrite Hid, Ham. simpl. run.
  unfold known in Hnone. now rewrite Hnone.
Qed.

(** Both commands accepted. *)
Lemma earn_valid_known w playerId amount v :
  truthy playerId = true -> known sql_id_eq w playerId <> [] ->
  nis_nan (new_score amount (toString Number_toString playerId) w) = false ->
  redis_incrbyfloat (pool_balance w) (nmul amount (nlit 0.02)) = Some v ->
  earn playerId (JNum amount) w
  = ({| status := 200; payload := message_ "Earnings updated successfully" |},
     {| players := players w;
        auto_increment := auto_increment w;
        leaderboard :=
          zset_incrby amount (toString Number_toString playerId) (leaderboard w);
        prize_pool := Some v;
        issued := issued w
                  ++ [SELECT_id playerId;
                      ZINCRBY amount (toString Number_toString playerId);
                      INCRBYFLOAT (nmul amount (nlit 0.02))] |}).
Proof.
  intros Hid Hsome Hscore Hpool.
  unfold earn, leaderboard_earn, db_select_id, try_zIncrBy, zIncrBy, incrByFloat.
  rewrite Hid. simpl. run. unfold known in Hsome.
  destruct (filter _ (players w)) as [|p ps]; [congruence|]. simpl.
  unfold new_score in Hscore. rewrite Hscore. simpl.
  unfold pool_balance in Hpool. rewrite Hpool. simpl.
  rewrite <- !app_assoc. reflexivity.
Qed.

(** Redis refuses the score: nothing is written. *)
Lemma earn_score_refused w playerId amount :
  truthy playerId = true -> known sql_id_eq w playerId <> [] ->
  nis_nan (new_score amount (toString Number_toString playerId) w) = true ->
  earn playerId (JNum amount) w
  = (internal_error,
     {| players := players w;
        auto_increment := auto_increment w;
        leaderboard := leaderboard w;
        prize_pool := prize_pool w;
        issued := issued w
                  ++ [SELECT_id playerId;
                      ZINCRBY amount (toString Number_toString playerId)] |}).
Proof.
  intros Hid Hsome Hscore.
  unfold earn, leaderboard_earn, db_select_id, try_zIncrBy.
  rewrite Hid. simpl. run. unfold known in Hsome.
  destruct (filter _ (players w)) as [|p ps]; [congruence|]. simpl.
  unfold new_score in Hscore. rewrite Hscore. simpl.
  rewrite <- !app_assoc. reflexivity.
Qed.

(** Redis refuses the pool's increment: the score stays credited. *)
Lemma earn_pool_refused w playerId amount :
  truthy playerId = true -> known sql_id_eq w playerId <> [] ->
  nis_nan (new_score amount (toString Number_toString playerId) w) = false ->
  redis_incrbyfloat (pool_balance w) (nmul amount (nlit 0.02)) = None ->
  earn playerId (JNum amount) w
  = (internal_error,
     {| players := players w;
        auto_increment := auto_increment w;
        leaderboard :=
          zset_incrby amount (toString Number_toString playerId) (leaderboard w);
        prize_pool := prize_pool w;
        issued := issued w
                  ++ [SELECT_id playerId;
                      ZINCRBY amount (toString Number_toString playerId);
                      INCRBYFLOAT (nmul amount (nlit 0.02))] |}).
Proof.
  intros Hid Hsome Hscore Hpool.
  unfold earn, leaderboard_earn, db_select_id, try_zIncrBy, zIncrBy, incrByFloat.
  rewrite Hid. simpl. run. unfold known in Hsome.
  destruct (filter _ (players w)) as [|p ps]; [congruence|]. simpl.
  unfold new_score in Hscore. rewrite Hscore. simpl.
  unfold pool_balance in Hpool. rewrite Hpool. simpl.
  rewrite <- !app_assoc. reflexivity.
Qed.

(** A request that passes validation starts with the lookup and is not
    answered 400. *)
Lemma earn_valid_looks_up w playerId amount :
  truthy playerId = true ->
  let r := earn playerId (JNum amount) w in
  status (fst r) <> InvalidInput
  /\ exists rest, new_commands w (snd r) = SELECT_id playerId :: rest.
Proof.
  intros Hid. cbv zeta.
  destruct (known sql_id_eq w playerId) as [|p ps] eqn:Hk.
  - rewrite earn_valid_unknown by auto.
    unfold new_commands. simpl. rewrite skipn_app_exact.
    split; [discriminate|]. now exists [].
  - assert (Hsome : known sql_id_eq w playerId <> [])
      by (rewrite Hk; discriminate).
    destruct (nis_nan (new_score amount (toString Number_toString playerId) w))
      eqn:Hscore.
    + rewrite earn_score_refused by assumption.
      unfold new_commands. simpl. rewrite skipn_app_exact.
      split; [discriminate|]. eauto.
    + destruct (redis_incrbyfloat (pool_balance w) (nmul amount (nlit 0.02)))
        as [v|] eqn:Hpool.
      * rewrite (@earn_valid_known w playerId amount v) by assumption.
        unfold new_commands. simpl. rewrite skipn_app_exact.
        split; [discriminate|]. eauto.
      * rewrite earn_pool_refused by assumption.
        unfold new_commands. simpl. rewrite skipn_app_exact.
        split; [discriminate|]. eauto.
Qed.
End Earn.






(** C7, as the code has it.  An amount whose typeof is not 'number' is
    answered 400 with the world untouched: no command reaches either store.
    Every amount whose typeof is 'number' passes this check: with a truthy
    playerId the handler goes on to query [players]. *)
Theorem earn_rejects_non_number_amount
  {num : Type} `{JsNumber num}
  (Number_toString : num -> string) (sql_id_eq : JsValue num -> Z -> bool)
  (redis_incrbyfloat : num -> num -> option num)
  (w : World num) (playerId amount : JsValue num)
  (Hnot : is_number amount = false) :
  leaderboard_earn Number_toString sql_id_eq redis_incrbyfloat playerId amount w
  = (invalid_input, w)
  /\ (forall a : num,
        truthy playerId = true ->
        let r := leaderboard_earn Number_toString sql_id_eq redis_incrbyfloat
                   playerId (JNum a) w in
        status (fst r) <> InvalidInput
        /\ exists rest, new_commands w (snd r) = SELECT_id playerId :: rest).
Proof.
  split; [apply earn_invalid; auto|].
  intros a Hid. now apply earn_valid_looks_up.
Qed.

Lemma earn_rejects_non_number_amount_witness :
  is_number (JStr "100" : JsValue float) = false
  /\ earn_f (JNum (nlit 1)) (JStr "100") world_ada = (invalid_input, world_ada).
Proof.
  split; [reflexivity|].
  exact (proj1 (earn_rejects_non_number_amount integer_toString integer_id_eq
                  binary64_incrbyfloat world_ada (JNum (nlit 1)) (JStr "100")
                  eq_refl)).
Defined.

(** C7, as the claim has it, fails: Infinity is a number that is not finite,
    and the request is not answered 400; the lookup and the score increment
    are both issued. *)
Lemma earn_accepts_infinity :
  let amount := JNum PrimFloat.infinity in
  let r := earn_f (JNum (nlit 1)) amount world_ada in
  finite_number amount = false
  /\ status (fst r) <> InvalidInput
  /\ In (SELECT_id (JNum (nlit 1))) (new_commands world_ada (snd r))
  /\ In (ZINCRBY PrimFloat.infinity "1") (new_commands world_ada (snd r))
  /\ zset_score "1" (leaderboard (snd r)) = Some PrimFloat.infinity.
Proof.
  vm_compute. repeat split; try discriminate; auto.
Qed.

(** C10, as the code has it.  A falsy playerId is answered 400 whatever the
    amount and whatever the stores hold, with the world untouched: nothing is
    asked of either store, so the answer is never 404.  The number 0, the
    empty string and a missing field are falsy; every string that is not
    empty is truthy, the string "0" included. *)
Theorem earn_rejects_falsy_player_id
  {num : Type} `{JsNumber num}
  (Number_toString : num -> string) (sql_id_eq : JsValue num -> Z -> bool)
  (redis_incrbyfloat : num -> num -> option num)
  (w : World num) (playerId amount : JsValue num)
  (Hfalsy : truthy playerId = false) :
  leaderboard_earn Number_toString sql_id_eq redis_incrbyfloat playerId amount w
  = (invalid_input, w)
  /\ status invalid_input = InvalidInput
  /\ InvalidInput <> NotFound
  /\ truthy (JNum (nlit 0 : float)) = false
  /\ truthy (JStr "" : JsValue num) = false
  /\ truthy (JUndefined : JsValue num) = false
  /\ (forall s : string, s <> "" -> truthy (JStr s : JsValue num) = true).
Proof.
  split; [apply earn_invalid; auto|].
  repeat split; try reflexivity; try discriminate.
  intros s Hs. simpl. destruct (String.eqb_spec s ""); [contradiction|reflexivity].
Qed.

Lemma earn_rejects_falsy_player_id_witness :
  truthy (JNum (nlit 0 : float)) = false
  /\ known integer_id_eq world_zero (JNum (nlit 0)) <> []
  /\ earn_f (JNum (nlit 0)) (JNum (nlit 100)) world_zero = (invalid_input, world_zero).
Proof.
  split; [reflexivity|]. split; [vm_compute; discriminate|].
  exact (proj1 (earn_rejects_falsy_player_id integer_toString integer_id_eq
                  binary64_incrbyfloat world_zero (JNum (nlit 0))
                  (JNum (nlit 100)) eq_refl)).
Defined.

(** C10, as the claim has it, fails: player 0 records earnings when the
    request names it by the string "0", which is truthy: the answer is 200
    and the score of member "0" goes from 0 to 100. *)
Lemma player_zero_earns_by_string_id :
  let r := earn_f (JStr "0") (JNum (nlit 100)) world_zero in
  truthy (JStr "0" : JsValue float) = true
  /\ known integer_id_eq world_zero (JStr "0") <> []
  /\ status (fst r) = 200
  /\ zset_score "0" (leaderboard world_zero) = Some (nlit 0)
  /\ zset_score "0" (leaderboard (snd r)) = Some (nlit 100)
  /\ prize_pool (snd r) = Some (nlit 2).
Proof. vm_compute. repeat split; try reflexivity; discriminate. Qed.

(* ================================================================= *)
(** ** The weekly settlement *)

Section Settlement.
Context {num : Type} `{JsNumber num}.

Lemma shares_length (P : num) n : forall i rem,
  List.length (shares P i rem n) = n.
Proof. induction n; simpl; auto. Qed.

Lemma increments_app (a b : list (Command num)) :
  increments (a ++ b) = increments a ++ increments b.
Proof. unfold increments. apply flat_map_app. Qed.

Lemma increments_incr_commands (pairs : list (string * num)) :
  increments (map incr_command pairs) = pairs.
Proof.
  induction pairs as [|[m r] t IH]; simpl; auto.
  now rewrite IH.
Qed.

(** What one run of the loop does to the world. *)
Lemma distribute_run (P : num) : forall rest i rem (w : World num),
  distribute P i rem rest w
  = (tt,
     let pairs := combine (map (@value num) rest)
                          (shares P i rem (List.length rest)) in
     {| players := players w;
        auto_increment := auto_increment w;
        leaderboard := apply_rewards pairs (leaderboard w);
        prize_pool := prize_pool w;
        issued := issued w ++ map incr_command pairs |}).
Proof.
  induction rest as [|e rest IH]; intros i rem w.
  - simpl. unfold ret. destruct w; simpl. now rewrite app_nil_r.
  - simpl distribute. unfold bind at 1. unfold zIncrBy. run.
    rewrite IH. simpl. rewrite <- app_assoc. reflexivity.
Qed.

Lemma leaderboard_reset_run (w : World num) :
  leaderboard_reset w
  = (tt,
     let ranked := zset_range_rev 0 99 (leaderboard w) in
     let pairs := combine (map (@value num) ranked)
                          (shares (pool_balance w) 0 (pool_balance w)
                                  (List.length ranked)) in
     {| players := players w;
        auto_increment := auto_increment w;
        leaderboard := apply_rewards pairs (leaderboard w);
        prize_pool := Some (nlit 0);
        issued := issued w ++ [GET; ZRANGE_REV 0 99]
                  ++ map incr_command pairs ++ [SET (nlit 0)] |}).
Proof.
  unfold leaderboard_reset, redis_get, zRangeWithScores, redis_set. run.
  fold (pool_balance w).
  destruct (zset_range_rev 0 99 (leaderboard w)) as [|e rest] eqn:Hr.
  - simpl. rewrite <- !app_assoc. reflexivity.
  - change (0 <? List.length (e :: rest))%nat with true. cbv iota.
    rewrite distribute_run. simpl. rewrite <- !app_assoc. reflexivity.
Qed.

Lemma settlement_increments (w : World num) :
  increments (new_commands w (snd (leaderboard_reset w)))
  = let ranked := zset_range_rev 0 99 (leaderboard w) in
    combine (map (@value num) ranked)
            (shares (pool_balance w) 0 (pool_balance w) (List.length ranked)).
Proof.
  rewrite leaderboard_reset_run. unfold new_commands. simpl.
  rewrite skipn_app_exact. simpl.
  rewrite increments_app, increments_incr_commands. simpl.
  now rewrite app_nil_r.
Qed.



End Settlement.




(* ----------------------------------------------------------------- *)
(** *** The settlement in exact arithmetic *)

Section ExactSettlement.
Local Open Scope Q_scope.


Lemma total_cons (r : Q) (l : list Q) : total (r :: l) = r + total l.
Proof. reflexivity. Qed.







End ExactSettlement.





(* ================================================================= *)
(** ** Reading computations *)

Create HintDb quiet.

Section Quiet.
Context {num : Type} `{JsNumber num}.
Variable sql_id_eq : JsValue num -> Z -> bool.

Lemma same_stores_refl (w : World num) : same_stores w w.
Proof. repeat split. Qed.

Lemma quiet_ret {A} (a : A) : quiet (ret (num := num) a).
Proof.
  intros w. split; [apply same_stores_refl|].
  exists []. simpl. now rewrite app_nil_r.
Qed.

Lemma quiet_read {A} (f : World num -> A) : quiet (read f).
Proof.
  intros w. split; [apply same_stores_refl|].
  exists []. simpl. now rewrite app_nil_r.
Qed.

Lemma quiet_issue (c : Command num) : quiet (issue c).
Proof. intros w. split; [repeat split|]. now exists [c]. Qed.

Lemma quiet_bind {A B} (m : M num A) (k : A -> M num B) :
  quiet m -> (forall a, quiet (k a)) -> quiet (bind m k).
Proof.
  intros Hm Hk w. unfold bind. specialize (Hm w).
  destruct (m w) as [a w1]. simpl in Hm. specialize (Hk a w1).
  destruct Hm as [(Hp & Ha & Hl & Hz) [cs1 Hc1]].
  destruct Hk as [(Hp' & Ha' & Hl' & Hz') [cs2 Hc2]].
  split.
  - repeat split; congruence.
  - exists (cs1 ++ cs2). now rewrite Hc2, Hc1, app_assoc.
Qed.

Lemma quiet_mapM {A B} (f : A -> M num B) (l : list A) :
  (forall a, quiet (f a)) -> quiet (mapM f l).
Proof.
  intros Hf. induction l as [|a l IH]; simpl.
  - apply quiet_ret.
  - apply quiet_bind; [apply Hf|]. intros b.
    apply quiet_bind; [apply IH|]. intros bs. apply quiet_ret.
Qed.

Lemma mapM_length {A B} (f : A -> M num B) (l : list A) : forall w,
  List.length (fst (mapM f l w)) = List.length l.
Proof.
  induction l as [|a l IH]; intros w; simpl; auto.
  unfold bind. destruct (f a w) as [b w1].
  specialize (IH w1). destruct (mapM f l w1) as [bs w2].
  simpl in *. now rewrite IH.
Qed.

Lemma mapM_cons {A B} (f : A -> M num B) (a : A) (l : list A) (w : World num) :
  mapM f (a :: l) w
  = (fst (f a w) :: fst (mapM f l (snd (f a w))),
     snd (mapM f l (snd (f a w)))).
Proof.
  simpl. unfold bind, ret. destruct (f a w) as [b w1]. simpl.
  now destruct (mapM f l w1).
Qed.

Lemma new_commands_app (w w' : World num) cs :
  issued w' = issued w ++ cs -> new_commands w w' = cs.
Proof. intros Hc. unfold new_commands. rewrite Hc. apply skipn_app_exact. Qed.

#[local] Hint Resolve quiet_ret quiet_read quiet_issue : quiet.

Lemma quiet_zRevRank m : quiet (zRevRank (num := num) m).
Proof. apply quiet_bind; auto with quiet. Qed.

Lemma quiet_zScore m : quiet (zScore (num := num) m).
Proof. apply quiet_bind; auto with quiet. Qed.

Lemma quiet_zRangeWithScores a b : quiet (zRangeWithScores (num := num) a b).
Proof. apply quiet_bind; auto with quiet. Qed.

Lemma quiet_getPlayerDetails m : quiet (getPlayerDetails sql_id_eq m).
Proof.
  unfold getPlayerDetails. destruct (String.eqb m ""); auto with quiet.
  apply quiet_bind.
  - apply quiet_bind; auto with quiet.
  - intros [|p0 ps]; auto with quiet.
Qed.

Lemma quiet_fetch a : quiet (fetch sql_id_eq a).
Proof.
  destruct a as [p b]. unfold fetch. destruct b; simpl; auto with quiet.
  apply quiet_bind; [apply quiet_zRevRank|]. intros rank.
  apply quiet_bind; [apply quiet_zScore|]. intros sc.
  destruct rank as [rank|]; auto with quiet.
  apply quiet_bind; [apply quiet_zRangeWithScores|]. intros s.
  apply quiet_bind; auto with quiet.
  apply quiet_mapM. intros e. apply quiet_getPlayerDetails.
Qed.

(** What a callback that reaches its inner [Promise.all] has read. *)
Lemma fetch_task p b (w : World num) t :
  fst (fetch sql_id_eq (p, b) w) = Some t ->
  b = true /\ task_player t = p
  /\ window_of (leaderboard w)
               (new_commands w (snd (fetch sql_id_eq (p, b) w))) t
  /\ task_prev t = [] /\ task_next t = [].
Proof.
  destruct (quiet_fetch (p, b) w) as [_ [cs Hcs]].
  erewrite new_commands_app by exact Hcs. revert Hcs.
  unfold fetch. destruct b; simpl; [|discriminate].
  unfold zRevRank, zScore, zRangeWithScores. run.
  destruct (zset_revrank (Z_toString (id p)) (leaderboard w)) as [rank|] eqn:Hrank;
    [|discriminate].
  match goal with
  | |- context [mapM ?f ?l ?w0] =>
      pose proof (mapM_length f l w0) as Hlen;
      destruct (quiet_mapM f l (fun e => quiet_getPlayerDetails (value e)) w0)
        as [_ [cs' Hcs']];
      destruct (mapM f l w0) as [details w3]
  end.
  simpl in *. intros Hcs [= <-]. simpl.
  rewrite Hcs' in Hcs. rewrite <- !app_assoc in Hcs.
  apply app_inv_head in Hcs. subst cs.
  repeat split; auto.
  - simpl. now rewrite map_fst_combine.
  - simpl. auto.
Qed.
End Quiet.

(* ================================================================= *)
(** ** Search results and their neighbourhoods *)

Lemma has_In (s : list string) (k : string) : has s k = true <-> In k s.
Proof.
  unfold has. rewrite existsb_exists. split.
  - intros [x [Hin Heq]]. apply String.eqb_eq in Heq. now subst.
  - intros Hin. exists k. split; auto. apply String.eqb_refl.
Qed.

Lemma NoDup_snoc {A} (l : list A) (a : A) :
  NoDup l -> ~ In a l -> NoDup (l ++ [a]).
Proof.
  intros Hl Ha. apply NoDup_app; auto.
  - constructor; [intros []|constructor].
  - intros x Hx [<-|[]]. contradiction.
Qed.

Lemma Forall_replace_nth {A} (P : A -> Prop) (a : A) : forall l i,
  Forall P l -> P a -> Forall P (replace_nth i a l).
Proof.
  induction l as [|x l IH]; intros i Hl Ha; destruct i; simpl; auto;
    inversion Hl; subst; constructor; auto.
Qed.

Lemma startRank_of_max (rank : Z) : startRank_of rank = Z.max 0 (rank - 3).
Proof. unfold startRank_of. destruct (Z.ltb_spec (rank - 3) 0); lia. Qed.

(** The synchronous part: who passes the test of [includedPlayerIds]. *)
Lemma include_matched_spec (players : list Player) : forall inc adm inc',
  include_matched players inc = (adm, inc') ->
  map fst adm = players
  /\ inc' = inc ++ admitted_keys adm
  /\ (NoDup inc -> NoDup inc').
Proof.
  induction players as [|p rest IH]; intros inc adm inc'; simpl.
  - intros [= <- <-]. simpl. rewrite app_nil_r. auto.
  - destruct (has inc (Z_toString (id p))) eqn:Hhas.
    + destruct (include_matched rest inc) as [r s] eqn:Hr.
      intros [= <- <-]. destruct (IH _ _ _ Hr) as (Hfst & Hinc & Hnd).
      simpl. rewrite Hfst. auto.
    + destruct (include_matched rest (inc ++ [Z_toString (id p)])) as [r s] eqn:Hr.
      intros [= <- <-]. destruct (IH _ _ _ Hr) as (Hfst & Hinc & Hnd).
      simpl. rewrite Hfst. split; auto. split.
      * rewrite Hinc, <- app_assoc. reflexivity.
      * intros Hn. apply Hnd, NoDup_snoc; auto.
        intros Hin. apply has_In in Hin. congruence.
Qed.

Section SearchResults.
Context {num : Type} `{JsNumber num}.
Variable sql_id_eq : JsValue num -> Z -> bool.
Implicit Types (t : @Task num) (tasks : list (option (@Task num))).

Lemma window_of_more l cs1 cs2 cs3 t :
  window_of l cs2 t -> window_of l (cs1 ++ cs2 ++ cs3) t.
Proof.
  intros (Hr & Hs & He & Hw & Hin). repeat split; auto.
  apply in_or_app. right. apply in_or_app. now left.
Qed.

Lemma task_ok_more players l cs1 cs2 cs3 t :
  task_ok players l cs2 t -> task_ok players l (cs1 ++ cs2 ++ cs3) t.
Proof.
  intros (Hin & Hw & Hp & Hn).
  split; [exact Hin|]. split; [now apply window_of_more|]. split; assumption.
Qed.

Lemma ids_of_cons_some t tasks : ids_of (Some t :: tasks) = task_ids t ++ ids_of tasks.
Proof. reflexivity. Qed.

Lemma ids_of_cons_none tasks : ids_of (@None Task :: tasks) = ids_of tasks.
Proof. reflexivity. Qed.

(** The reading part: one suspended callback per admitted player that has a
    rank, each with its window, and nothing written. *)
Lemma mapM_fetch players (adm : list (Player * bool)) : forall (w : World num),
  Forall (fun a => In (fst a) players) adm ->
  let r := mapM (fetch sql_id_eq) adm w in
  leaderboard (snd r) = leaderboard w
  /\ exists cs,
      issued (snd r) = issued w ++ cs
      /\ Forall (fun ot => forall t, ot = Some t ->
                                     task_ok players (leaderboard w) cs t) (fst r)
      /\ incl (ids_of (fst r)) (admitted_keys adm)
      /\ (NoDup (admitted_keys adm) -> NoDup (ids_of (fst r))).
Proof.
  induction adm as [|[p b] adm IH]; intros w Hadm r; subst r.
  - simpl. split; auto. exists []. rewrite app_nil_r.
    repeat split; auto. intros x [].
  - inversion Hadm as [|? ? Hp Hrest]; subst. simpl in Hp.
    rewrite mapM_cons.
    destruct (quiet_fetch sql_id_eq (p, b) w) as [(_ & _ & Hl1 & _) [cs1 Hc1]].
    pose proof (@fetch_task num _ sql_id_eq p b w) as Htask.
    erewrite new_commands_app in Htask by exact Hc1.
    destruct (fetch sql_id_eq (p, b) w) as [ot w1]. simpl in Hl1, Hc1, Htask.
    cbn [fst snd].
    specialize (IH w1 Hrest). cbv zeta in IH.
    destruct (mapM (fetch sql_id_eq) adm w1) as [ts w2]. simpl in IH |- *.
    destruct IH as (Hl2 & cs2 & Hc2 & Hok & Hincl & Hnd).
    split; [congruence|]. exists (cs1 ++ cs2). split; [|split; [|split]].
    + now rewrite Hc2, Hc1, app_assoc.
    + constructor.
      * intros t ->. destruct (Htask t eq_refl) as (_ & Hpl & Hw & Hpr & Hnx).
        replace (cs1 ++ cs2) with ([] ++ cs1 ++ cs2) by reflexivity.
        apply task_ok_more.
        split; [now rewrite Hpl|]. split; [exact Hw|].
        split; [rewrite Hpr|rewrite Hnx]; constructor.
      * eapply Forall_impl; [|exact Hok]. intros ot' Hot t ->.
        replace (cs1 ++ cs2) with (cs1 ++ cs2 ++ []) by now rewrite app_nil_r.
        apply task_ok_more. rewrite Hl1 in Hot. now apply Hot.
    + destruct ot as [t|].
      * destruct (Htask t eq_refl) as (-> & Hpl & _ & Hpr & Hnx).
        rewrite ids_of_cons_some. unfold task_ids.
        rewrite Hpl, Hpr, Hnx. simpl.
        intros x [<-|Hx]; [now left|right; auto].
      * rewrite ids_of_cons_none. unfold admitted_keys. simpl.
        intros x Hx. apply in_or_app. right. now apply Hincl.
    + intros Hnodup. destruct ot as [t|].
      * destruct (Htask t eq_refl) as (-> & Hpl & _ & Hpr & Hnx).
        rewrite ids_of_cons_some. unfold task_ids.
        rewrite Hpl, Hpr, Hnx. simpl in *.
        inversion Hnodup; subst. constructor; auto.
      * rewrite ids_of_cons_none. apply Hnd.
        unfold admitted_keys in Hnodup. simpl in Hnodup.
        now apply NoDup_app_remove_l in Hnodup.
Qed.

(** Pushing a row adds its id to the ids shown, and changes nothing else. *)
Lemma ids_of_replace t' x : forall tasks i t,
  nth_error tasks i = Some (Some t) ->
  Permutation (task_ids t') (x :: task_ids t) ->
  Permutation (ids_of (replace_nth i (Some t') tasks)) (x :: ids_of tasks).
Proof.
  induction tasks as [|ot tasks IH]; intros i t Hi Hperm.
  - destruct i; discriminate.
  - destruct i as [|i]; simpl in Hi.
    + injection Hi as ->. simpl replace_nth. rewrite !ids_of_cons_some.
      change (x :: task_ids t ++ ids_of tasks)
        with ((x :: task_ids t) ++ ids_of tasks).
      now apply Permutation_app_tail.
    + simpl replace_nth. specialize (IH i t Hi Hperm).
      destruct ot as [t0|].
      * rewrite !ids_of_cons_some.
        etransitivity; [apply Permutation_app_head, IH|].
        symmetry. apply Permutation_middle.
      * now rewrite !ids_of_cons_none.
Qed.

Lemma task_ids_push_prev t row :
  Permutation (task_ids (push_prev t row)) (n_id row :: task_ids t).
Proof.
  unfold task_ids. simpl. rewrite map_app, <- app_assoc. simpl.
  symmetry.
  apply (Permutation_cons_app
           (key_of (task_player t) :: map (@n_id num) (task_prev t))).
  reflexivity.
Qed.

Lemma task_ids_push_next t row :
  Permutation (task_ids (push_next t row)) (n_id row :: task_ids t).
Proof.
  unfold task_ids. simpl. rewrite map_app, app_assoc. simpl.
  symmetry.
  apply (Permutation_cons_app
           (key_of (task_player t)
            :: map (@n_id num) (task_prev t) ++ map (@n_id num) (task_next t))).
  now rewrite app_nil_r.
Qed.

Lemma push_prev_ok players l cs t index e d row :
  task_ok players l cs t ->
  nth_error (surroundingPlayers t) index = Some (e, d) ->
  n_id row = value e -> n_money row = score e ->
  n_ranking row = task_startRank t + Z.of_nat index + 1 ->
  task_startRank t + Z.of_nat index < task_rank t ->
  task_ok players l cs (push_prev t row).
Proof.
  intros (Hin & Hw & Hp & Hn) He Hid Hm Hr Hlt.
  split; [exact Hin|]. split; [exact Hw|]. split; [|exact Hn].
  simpl. apply Forall_app. split; [exact Hp|].
  constructor; [|constructor]. exists index, e, d. auto.
Qed.

Lemma push_next_ok players l cs t index e d row :
  task_ok players l cs t ->
  nth_error (surroundingPlayers t) index = Some (e, d) ->
  n_id row = value e -> n_money row = score e ->
  n_ranking row = task_startRank t + Z.of_nat index + 1 ->
  task_rank t < task_startRank t + Z.of_nat index ->
  task_ok players l cs (push_next t row).
Proof.
  intros (Hin & Hw & Hp & Hn) He Hid Hm Hr Hlt.
  split; [exact Hin|]. split; [exact Hw|]. split; [exact Hp|].
  simpl. apply Forall_app. split; [exact Hn|].
  constructor; [|constructor]. exists index, e, d. auto.
Qed.

Lemma resume_invariants players l cs (st : @Pending num) ev :
  windows_ok players l cs st /\ shown_once st ->
  windows_ok players l cs (resume st ev) /\ shown_once (resume st ev).
Proof.
  destruct st as [inc tasks], ev as [i index]. intros Hsame.
  assert (Hinv := Hsame). destruct Hinv as [Hok [Hnd Hincl]].
  unfold resume.
  destruct (nth_error tasks i) as [[t|]|] eqn:Ht; try exact Hsame.
  destruct (nth_error (surroundingPlayers t) index) as [[e d]|] eqn:He;
    try exact Hsame.
  destruct (d_name d), (d_country d), (d_country_code d); try exact Hsame.
  assert (Htok : task_ok players l cs t).
  { unfold windows_ok in Hok. rewrite Forall_forall in Hok.
    apply (Hok (Some t)); auto. eapply nth_error_In; eauto. }
  simpl in Hnd, Hincl.
  assert (Hfresh : has inc (value e) = false -> ~ In (value e) (ids_of tasks)).
  { intros Hhas Hin. apply Hincl, has_In in Hin. congruence. }
  destruct (Z.ltb_spec (task_startRank t + Z.of_nat index) (task_rank t)).
  - destruct (has inc (value e)) eqn:Hhas; [exact Hsame|]. cbn [negb].
    assert (Hperm := ids_of_replace _ _ Ht (task_ids_push_prev t
      {| n_ranking := task_startRank t + Z.of_nat index + 1;
         n_id := value e; n_playerName := s; n_country := s0;
         n_countryCode := s1; n_money := score e |})).
    split; [|split]; simpl.
    + apply Forall_replace_nth; auto. intros t' [= <-].
      eapply push_prev_ok; eauto.
    + eapply Permutation_NoDup; [symmetry; apply Hperm|].
      constructor; auto.
    + intros x Hx. apply (Permutation_in _ Hperm) in Hx.
      apply in_or_app. destruct Hx as [<-|Hx]; [right; now left|left; auto].
  - destruct (Z.gtb_spec (task_startRank t + Z.of_nat index) (task_rank t));
      [|exact Hsame].
    destruct (has inc (value e)) eqn:Hhas; [exact Hsame|]. cbn [negb].
    assert (Hperm := ids_of_replace _ _ Ht (task_ids_push_next t
      {| n_ranking := task_startRank t + Z.of_nat index + 1;
         n_id := value e; n_playerName := s; n_country := s0;
         n_countryCode := s1; n_money := score e |})).
    split; [|split]; simpl.
    + apply Forall_replace_nth; auto. intros t' [= <-].
      eapply push_next_ok; eauto.
    + eapply Permutation_NoDup; [symmetry; apply Hperm|].
      constructor; auto.
    + intros x Hx. apply (Permutation_in _ Hperm) in Hx.
      apply in_or_app. destruct Hx as [<-|Hx]; [right; now left|left; auto].
Qed.

Lemma resume_all_invariants players l cs schedule : forall (st : @Pending num),
  windows_ok players l cs st /\ shown_once st ->
  windows_ok players l cs (fold_left resume schedule st)
  /\ shown_once (fold_left resume schedule st).
Proof.
  induction schedule as [|ev schedule IH]; intros st Hst; simpl; auto.
  apply IH. now apply resume_invariants.
Qed.

Lemma result_ids_of tasks :
  flat_map (@result_ids num) (map result_of (non_null tasks)) = ids_of tasks.
Proof.
  unfold ids_of. induction (non_null tasks) as [|t ts IH]; simpl; auto.
  now rewrite IH.
Qed.

Lemma in_non_null {A} (a : A) : forall l, In a (non_null l) -> In (Some a) l.
Proof.
  induction l as [|[x|] l IH]; simpl; auto.
  intros [->|Hin]; auto.
Qed.

(** getSearchResults, whatever the order of the resumptions. *)
Lemma getSearchResults_spec schedule players (w : World num) :
  let res := getSearchResults sql_id_eq schedule players w in
  leaderboard (snd res) = leaderboard w
  /\ exists tasks,
      fst res = map result_of (non_null tasks)
      /\ Forall (fun ot => forall t, ot = Some t ->
                   task_ok players (leaderboard w) (new_commands w (snd res)) t)
                tasks
      /\ NoDup (ids_of tasks).
Proof.
  unfold getSearchResults.
  destruct (include_matched players []) as [adm inc] eqn:Hadm.
  destruct (include_matched_spec _ _ Hadm) as (Hfst & Hinc & Hnd).
  simpl in Hinc. specialize (Hnd (NoDup_nil _)).
  assert (Hin : Forall (fun a : Player * bool => In (fst a) players) adm).
  { rewrite <- Hfst. apply Forall_forall. intros a Ha. now apply in_map. }
  destruct (@mapM_fetch players adm w Hin) as (Hl & cs & Hcs & Hok & Hincl & Hnodup).
  unfold bind.
  destruct (mapM (fetch sql_id_eq) adm w) as [tasks w1]. simpl in Hl, Hcs, Hok, Hincl, Hnodup.
  destruct (@resume_all_invariants players (leaderboard w) cs schedule
              (inc, tasks)) as [Hok' [Hnd' _]].
  { split; [exact Hok|]. split; simpl.
    - apply Hnodup. now rewrite <- Hinc.
    - now rewrite Hinc. }
  destruct (fold_left resume schedule (inc, tasks)) as [inc' tasks'].
  simpl. split; [exact Hl|]. exists tasks'.
  erewrite new_commands_app by exact Hcs. auto.
Qed.
End SearchResults.

(** C8, as the code has it.  In every combined response the search results
    show no player id twice: the ids of the matched players and of all rows of
    all their neighbourhoods are pairwise distinct, in whatever order the
    lookups of the neighbours' profiles answer.  (The set of included ids
    starts empty inside getSearchResults; the top-N view is not in it.) *)
Theorem search_results_show_each_id_once
  {num : Type} `{JsNumber num} (sql_id_eq : JsValue num -> Z -> bool)
  (sql_like : string -> string -> bool)
  (schedule : list (nat * nat)) (query : option string) (w : World num) :
  match searchResults
          (payload (fst (top_ranking_data sql_id_eq sql_like schedule query w)))
  with
  | Some results => NoDup (flat_map (@result_ids num) results)
  | None => True
  end.
Proof.
  unfold top_ranking_data, bind.
  destruct (getTopRankingPlayers sql_id_eq w) as [top w1].
  destruct (query_given query); cbn [negb]; [|exact I].
  match goal with
  | |- context [db_select_like_name ?f ?q ?w0] =>
      destruct (db_select_like_name f q w0) as [matched w2]
  end.
  destruct (List.length matched =? 0)%nat; [exact I|].
  match goal with
  | |- context [mapM ?f matched w2] =>
      destruct (mapM f matched w2) as [ranked w3]
  end.
  destruct (getSearchResults_spec sql_id_eq schedule
              (map fst (sort_by_rank (non_null ranked))) w3)
    as (_ & tasks & Hres & _ & Hnd).
  destruct (getSearchResults sql_id_eq schedule
              (map fst (sort_by_rank (non_null ranked))) w3) as [results w4].
  simpl in *. subst results. now rewrite result_ids_of.
Qed.

(** C8, as the claim has it, fails: with Ada first and Bob second, a search
    for "Ada" shows Bob in the top-N view and again in Ada's neighbourhood. *)
Lemma top_view_and_neighbourhood_share_an_id :
  let reply :=
    payload (fst (ranking_data_f [(0, 0); (0, 1)]%nat (Some "Ada") world_two)) in
  exists results,
    searchResults reply = Some results
    /\ In "2" (map (@top_id float) (topRankingPlayers reply))
    /\ In "2" (flat_map (@neighbour_ids float) results)
    /\ ~ NoDup (map (@top_id float) (topRankingPlayers reply)
                ++ flat_map (@neighbour_ids float) results).
Proof.
  vm_compute. eexists. split; [reflexivity|].
  split; [auto|]. split; [simpl; auto|].
  simpl. intros Hn.
  inversion Hn as [|? ? _ Hn1]. inversion Hn1 as [|? ? Hnotin _].
  apply Hnotin. now left.
Qed.

(* ================================================================= *)
(** ** The search route and its self-heal *)

Section SearchRoute.
Context {num : Type} `{JsNumber num}.
Variable sql_id_eq : JsValue num -> Z -> bool.
Variable sql_like : string -> string -> bool.

Lemma index_of_none m : forall (l : list (ScoreEntry num)),
  index_of m l = None <-> (forall e, In e l -> is_member m e = false).
Proof.
  induction l as [|x l IH]; simpl.
  - split; auto. intros _ e [].
  - destruct (is_member m x) eqn:Hx.
    + split; [discriminate|]. intros Hall.
      rewrite (Hall x (or_introl eq_refl)) in Hx. discriminate.
    + destruct (index_of m l) as [k|]; simpl.
      * split; [discriminate|]. intros Hall.
        assert (Hnone : Some k = None)
          by (apply IH; intros e He; apply Hall; now right).
        discriminate.
      * split; auto. intros _ e [<-|He]; auto.
        destruct IH as [IH _]. now apply IH.
Qed.

(** No rank exactly when no entry. *)
Lemma revrank_none_iff_no_score m (l : list (ScoreEntry num)) :
  zset_revrank m l = None <-> zset_score m l = None.
Proof.
  unfold zset_revrank, zset_score. rewrite index_of_none. split.
  - intros Hall. destruct (find (is_member m) l) as [e|] eqn:Hf; auto.
    apply find_some in Hf. destruct Hf as [Hin Hm].
    rewrite (Hall e) in Hm; [discriminate|]. now apply in_rev in Hin.
  - intros Hf e He. destruct (find (is_member m) l) as [x|] eqn:Hfind;
      [discriminate|].
    apply (find_none _ _ Hfind). now apply in_rev.
Qed.

Lemma quiet_appends {A} (m : M num A) : quiet m -> appends m.
Proof. intros Hq w. apply (Hq w). Qed.

Lemma mapM_snd_inv {A B} (inv : World num -> Prop) (f : A -> M num B) :
  (forall a w, inv w -> inv (snd (f a w))) ->
  forall l w, inv w -> inv (snd (mapM f l w)).
Proof.
  intros Hf. induction l as [|a l IH]; intros w Hw; auto.
  rewrite mapM_cons. simpl. auto.
Qed.

Lemma mapM_nth {A B} (inv : World num -> Prop) (f : A -> M num B) :
  (forall a w, inv w -> inv (snd (f a w))) ->
  forall l w i a,
    inv w -> nth_error l i = Some a ->
    exists w', inv w' /\ nth_error (fst (mapM f l w)) i = Some (fst (f a w')).
Proof.
  intros Hf. induction l as [|x l IH]; intros w i a Hw Hi.
  - destruct i; discriminate.
  - rewrite mapM_cons. destruct i as [|i]; simpl in Hi |- *.
    + injection Hi as ->. eauto.
    + apply IH; auto.
Qed.

Lemma mapM_appends {A B} (f : A -> M num B) (l : list A) :
  (forall a, appends (f a)) -> appends (mapM f l).
Proof.
  intros Hf. induction l as [|a l IH]; intros w.
  - exists []. simpl. now rewrite app_nil_r.
  - rewrite mapM_cons. simpl.
    destruct (Hf a w) as [cs1 Hc1]. destruct (IH (snd (f a w))) as [cs2 Hc2].
    exists (cs1 ++ cs2). now rewrite Hc2, Hc1, app_assoc.
Qed.

Lemma nth_error_combine {A B} : forall (l1 : list A) (l2 : list B) i a b,
  nth_error l1 i = Some a -> nth_error l2 i = Some b ->
  nth_error (combine l1 l2) i = Some (a, b).
Proof.
  induction l1 as [|x l1 IH]; intros [|y l2] [|i] a b H1 H2;
    simpl in *; try discriminate.
  - congruence.
  - auto.
Qed.

Lemma nth_error_same_length {A B} (l1 : list A) (l2 : list B) i a :
  List.length l2 = List.length l1 -> nth_error l1 i = Some a ->
  exists b, nth_error l2 i = Some b.
Proof.
  intros Hlen Hi. destruct (nth_error l2 i) as [b|] eqn:Hb; eauto.
  apply nth_error_None in Hb.
  assert (i < List.length l1)%nat by (apply nth_error_Some; congruence). lia.
Qed.

Lemma all_returned_nth {A} : forall (l : list (Outcome A)) rs i a,
  all_returned l = Some rs -> nth_error l i = Some (Returned a) ->
  nth_error rs i = Some a.
Proof.
  induction l as [|[x|] l IH]; intros rs i a Hall Hi; simpl in Hall.
  - destruct i; discriminate.
  - destruct (all_returned l) as [rs'|]; [|discriminate].
    injection Hall as <-. destruct i as [|i]; simpl in Hi |- *.
    + congruence.
    + eapply IH; eauto.
  - discriminate.
Qed.

Lemma all_returned_none {A} : forall (l : list (Outcome A)),
  all_returned l = None -> exists i, nth_error l i = Some Thrown.
Proof.
  induction l as [|[x|] l IH]; simpl; intros Hall.
  - discriminate.
  - destruct (all_returned l) as [rs|]; [discriminate|].
    destruct (IH eq_refl) as [i Hi]. now exists (S i).
  - now exists 0%nat.
Qed.

Lemma nth_error_combine_inv {A B} : forall (l1 : list A) (l2 : list B) i a b,
  nth_error (combine l1 l2) i = Some (a, b) ->
  nth_error l1 i = Some a /\ nth_error l2 i = Some b.
Proof.
  induction l1 as [|x l1 IH]; intros [|y l2] [|i] a b Hi;
    simpl in *; try discriminate.
  - injection Hi as -> ->. auto.
  - auto.
Qed.

Lemma mapM_nth_inv {A B} (inv : World num -> Prop) (f : A -> M num B) :
  (forall a w, inv w -> inv (snd (f a w))) ->
  forall l w i b,
    inv w -> nth_error (fst (mapM f l w)) i = Some b ->
    exists a w', inv w' /\ nth_error l i = Some a /\ b = fst (f a w').
Proof.
  intros Hf. induction l as [|x l IH]; intros w i b Hw Hi.
  - destruct i; discriminate.
  - rewrite mapM_cons in Hi. destruct i as [|i]; simpl in Hi |- *.
    + injection Hi as <-. exists x, w. auto.
    + apply (IH (snd (f x w)) i b); auto.
Qed.

(** The third round: heal or read the window. *)
Lemma heal_or_range_appends a : appends (heal_or_range (num := num) a).
Proof.
  destruct a as [p [rank|]]; intros w; simpl.
  - unfold zRangeWithScores. run. eexists. reflexivity.
  - unfold zAdd. run. eexists. reflexivity.
Qed.

Lemma heal_or_range_heals p (w : World num) :
  healed_key (key_of p) (snd (heal_or_range (p, None) w))
  /\ exists cs, issued (snd (heal_or_range (p, None) w))
                = issued w ++ ZADD (nlit 0) (key_of p) :: cs.
Proof.
  simpl. unfold zAdd. run. split; [split|].
  - apply zset_score_add_same.
  - apply occurrences_add_same.
  - now exists [].
Qed.

Lemma heal_or_range_keeps k a (w : World num) :
  healed_key k w -> healed_key k (snd (heal_or_range a w)).
Proof.
  intros [Hs Ho]. destruct a as [p [rank|]]; simpl.
  - unfold zRangeWithScores. run. now split.
  - unfold zAdd. run. unfold healed_key. simpl.
    destruct (String.eqb_spec k (Z_toString (id p))) as [->|Hne].
    + split; [apply zset_score_add_same|apply occurrences_add_same].
    + split.
      * now rewrite zset_score_add_other.
      * now rewrite occurrences_add_other.
Qed.

Lemma mapM_heal p : forall pairs (w : World num),
  In (p, None) pairs ->
  let w' := snd (mapM heal_or_range pairs w) in
  healed_key (key_of p) w'
  /\ exists a b, issued w' = issued w ++ a ++ ZADD (nlit 0) (key_of p) :: b.
Proof.
  induction pairs as [|x pairs IH]; intros w Hin; [destruct Hin|].
  cbv zeta. rewrite mapM_cons. cbn [snd].
  destruct Hin as [->|Hin].
  - destruct (heal_or_range_heals p w) as [Hh [cs Hcs]].
    split.
    + apply (mapM_snd_inv (healed_key (key_of p))); auto.
      intros a w0. apply heal_or_range_keeps.
    + destruct (mapM_appends heal_or_range pairs heal_or_range_appends
                  (snd (heal_or_range (p, None) w))) as [cs2 Hc2].
      exists [], (cs ++ cs2). rewrite Hc2, Hcs, <- app_assoc. reflexivity.
  - destruct (IH (snd (heal_or_range x w)) Hin) as [Hh (a & b & Hab)].
    split; [exact Hh|].
    destruct (heal_or_range_appends x w) as [cs1 Hc1].
    exists (cs1 ++ a), b. rewrite Hab, Hc1, <- !app_assoc. reflexivity.
Qed.

Lemma quiet_getPlayerDetails_row m : quiet (getPlayerDetails_row sql_id_eq m).
Proof.
  unfold getPlayerDetails_row. destruct (String.eqb m ""); [apply quiet_ret|].
  apply quiet_bind.
  - apply quiet_bind; [apply quiet_issue|]. intros _. apply quiet_read.
  - intros rows. apply quiet_ret.
Qed.

Lemma quiet_finish a : quiet (finish sql_id_eq a).
Proof.
  destruct a as [[p sc] [|rank startRank surrounding]]; simpl.
  - apply quiet_ret.
  - apply quiet_bind.
    + apply quiet_mapM. intros e. apply quiet_getPlayerDetails_row.
    + intros details. destruct (existsb _ _); apply quiet_ret.
Qed.
End SearchRoute.

Lemma bind_run {num A B} (m : M num A) (k : A -> M num B) (w : World num) :
  bind m k w = k (fst (m w)) (snd (m w)).
Proof. unfold bind. now destruct (m w). Qed.

Ltac step :=
  match goal with
  | |- context [bind ?m ?k ?w0] =>
      let E := fresh "E" in
      pose proof (bind_run m k w0) as E; rewrite E; clear E; cbv beta
  end.

(** The earlier revision of GET /leaderboard/search repairs the sorted set.
    When a search matches a player who has no entry in the sorted set,
    the route sends ZADD 0 for that player's id, and when it has run the
    sorted set holds exactly one entry for that id, with score 0; whenever the
    route answers with rows, the row at that player's position has ranking
    null and money 0; and it does answer with rows (200) when none of the
    matched players has an entry.  (The only other answer is 500, when the
    neighbourhood code of a ranked match throws.)  Scenario D: Bob is
    registered and unranked; a search for "Bob" answers 200 with his row
    (null, 0) and leaves one zero-score entry for id 2. *)
Theorem search_heals_unranked_player
  {num : Type} `{JsNumber num} (sql_id_eq : JsValue num -> Z -> bool)
  (sql_like : string -> string -> bool)
  (q : string) (w : World num) (player : Player)
  (Hq : q <> "")
  (Hmatch : In player (matching sql_like q w))
  (Hunranked : zset_score (key_of player) (leaderboard w) = None) :
  let r := leaderboard_search sql_id_eq sql_like (Some q) w in
  (healed_key (key_of player) (snd r)
   /\ In (ZADD (nlit 0) (key_of player)) (new_commands w (snd r))
   /\ (status (fst r) = 200 \/ status (fst r) = 500)
   /\ (forall rows,
         payload (fst r) = search_rows rows ->
         exists i,
           nth_error (matching sql_like q w) i = Some player
           /\ nth_error rows i = Some (unranked_row player))
   /\ ((forall p, In p (matching sql_like q w) ->
                  zset_score (key_of p) (leaderboard w) = None) ->
       status (fst r) = 200))
  /\ (let r := search_f (Some "Bob") world_unranked in
      fst r = {| status := 200; payload := search_rows [unranked_row bob] |}
      /\ zset_score "2" (leaderboard world_unranked) = None
      /\ zset_score "2" (leaderboard (snd r)) = Some (nlit 0)
      /\ occurrences "2" (leaderboard (snd r)) = 1%nat).
Proof.
  intros r. split; [|vm_compute; repeat split; reflexivity].
  subst r. unfold leaderboard_search.
  assert (Hg : query_given (Some q) = true).
  { simpl. destruct (String.eqb_spec q ""); [contradiction|reflexivity]. }
  rewrite Hg. cbn [negb]. cbv beta iota zeta.
  set (w1 := {| players := players w; auto_increment := auto_increment w;
                leaderboard := leaderboard w; prize_pool := prize_pool w;
                issued := issued w ++ [SELECT_like q] |}).
  assert (Hsel : db_select_like sql_like q w = (matching sql_like q w, w1))
    by reflexivity.
  step. rewrite Hsel. cbn [fst snd].
  set (matched := matching sql_like q w) in *.
  destruct (In_nth_error _ _ Hmatch) as [i Hi].
  assert (Hlen : (List.length matched =? 0)%nat = false).
  { destruct matched; [destruct i; discriminate|reflexivity]. }
  rewrite Hlen.
  (* first round: ranks *)
  step.
  set (rank_of := fun player0 : Player => zRevRank (Z_toString (id player0))).
  assert (Hq1 : quiet (mapM rank_of matched))
    by (apply quiet_mapM; intros a; apply quiet_zRevRank).
  destruct (Hq1 w1) as [(_ & _ & Hl2 & _) [cs2 Hc2]].
  destruct (mapM_nth (fun w' => leaderboard w' = leaderboard w) rank_of
              (fun a w0 Hw0 =>
                 eq_trans (proj1 (proj2 (proj2 (proj1 (quiet_zRevRank _ w0))))) Hw0)
              matched w1 i (a := player) eq_refl Hi) as (wr & Hwr & Hrank).
  assert (Hnone : fst (rank_of player wr) = None).
  { unfold rank_of, zRevRank. run. rewrite Hwr.
    now apply revrank_none_iff_no_score. }
  rewrite Hnone in Hrank.
  set (ranks := fst (mapM rank_of matched w1)) in *.
  set (w2 := snd (mapM rank_of matched w1)) in *.
  (* second round: scores *)
  step.
  set (score_of := fun player0 : Player => zScore (Z_toString (id player0))).
  assert (Hq2 : quiet (mapM score_of matched))
    by (apply quiet_mapM; intros a; apply quiet_zScore).
  destruct (Hq2 w2) as [(_ & _ & Hl3 & _) [cs3 Hc3]].
  destruct (@nth_error_same_length _ _ matched (fst (mapM score_of matched w2))
              i player (mapM_length score_of matched w2) Hi) as [sc Hsc].
  set (scores := fst (mapM score_of matched w2)) in *.
  set (w3 := snd (mapM score_of matched w2)) in *.
  (* third round: heal or read the window *)
  step.
  assert (Hpair : nth_error (combine matched ranks) i = Some (player, None))
    by (now apply nth_error_combine).
  destruct (mapM_heal player (combine matched ranks) w3 (nth_error_In _ _ Hpair))
    as [Hhealed (a & b & Hc4)].
  destruct (mapM_nth (fun _ => True) (heal_or_range (num := num))
              (fun _ _ _ => I) (combine matched ranks) w3 i I Hpair)
    as (wh & _ & Hsusp).
  assert (Hh : fst (heal_or_range (player, None) wh) = healed)
    by reflexivity.
  rewrite Hh in Hsusp.
  set (suspended := fst (mapM heal_or_range (combine matched ranks) w3)) in *.
  set (w4 := snd (mapM heal_or_range (combine matched ranks) w3)) in *.
  (* fourth round: the neighbours' profiles *)
  step.
  assert (Hjob : nth_error (combine (combine matched scores) suspended) i
                 = Some (player, sc, healed))
    by (apply nth_error_combine; auto; now apply nth_error_combine).
  assert (Hq4 : quiet (mapM (finish sql_id_eq)
                            (combine (combine matched scores) suspended)))
    by (apply quiet_mapM; intros x; apply quiet_finish).
  destruct (Hq4 w4) as [(_ & _ & Hl5 & _) [cs5 Hc5]].
  destruct (mapM_nth (fun _ => True) (finish sql_id_eq)
              (fun _ _ _ => I) (combine (combine matched scores) suspended)
              w4 i I Hjob) as (wf & _ & Hout).
  assert (Hf : fst (finish sql_id_eq (player, sc, healed) wf)
               = Returned (unranked_row player)) by reflexivity.
  rewrite Hf in Hout.
  set (outcomes := fst (mapM (finish sql_id_eq)
                          (combine (combine matched scores) suspended) w4)) in *.
  set (w5 := snd (mapM (finish sql_id_eq)
                    (combine (combine matched scores) suspended) w4)) in *.
  assert (Hfinal : healed_key (key_of player) w5
                   /\ In (ZADD (nlit 0) (key_of player)) (new_commands w w5)).
  { split.
    - destruct Hhealed as [Hs Ho]. unfold healed_key. now rewrite Hl5.
    - erewrite new_commands_app; [|rewrite Hc5, Hc4, Hc3, Hc2; unfold w1; simpl;
                                    rewrite <- !app_assoc; reflexivity].
      repeat (rewrite in_app_iff || simpl). tauto. }
  destruct Hfinal as [Hk Hcmd].
  destruct (all_returned outcomes) as [results|] eqn:Hall; unfold ret; simpl.
  - split; [exact Hk|]. split; [exact Hcmd|]. split; [now left|].
    split; [|reflexivity].
    intros rows [= <-]. exists i. split; auto.
    eapply all_returned_nth; eauto.
  - split; [exact Hk|]. split; [exact Hcmd|]. split; [now right|].
    split; [intros rows Hrows; discriminate|].
    intros Hnobody. exfalso.
    destruct (all_returned_none _ Hall) as [j Hj].
    destruct (mapM_nth_inv (fun _ => True) (finish sql_id_eq)
                (fun _ _ _ => I) _ w4 j I Hj)
      as ([[p sc'] susp] & wf' & _ & Hjobj & Hthrown).
    apply nth_error_combine_inv in Hjobj. destruct Hjobj as [Hps Hsuspj].
    apply nth_error_combine_inv in Hps. destruct Hps as [Hpj _].
    destruct (mapM_nth_inv (fun _ => True) (heal_or_range (num := num))
                (fun _ _ _ => I) _ w3 j I Hsuspj)
      as ([p' rk] & wh' & _ & Hpairj & Hsuspv).
    apply nth_error_combine_inv in Hpairj. destruct Hpairj as [Hpj' Hrankj].
    assert (p' = p) by congruence. subst p'.
    destruct (mapM_nth_inv (fun w' => leaderboard w' = leaderboard w) rank_of
                (fun a0 w0 Hw0 =>
                   eq_trans (proj1 (proj2 (proj2 (proj1 (quiet_zRevRank _ w0))))) Hw0)
                matched w1 j eq_refl Hrankj)
      as (p'' & wr' & Hwr' & Hpj'' & Hrk).
    assert (p'' = p) by congruence. subst p''.
    assert (Hrknone : rk = None).
    { rewrite Hrk. unfold rank_of, zRevRank. run. rewrite Hwr'.
      apply revrank_none_iff_no_score, Hnobody.
      eapply nth_error_In; eauto. }
    rewrite Hrknone in Hsuspv.
    change (fst (heal_or_range (p, None) wh')) with (@healed num) in Hsuspv.
    rewrite Hsuspv in Hthrown. discriminate.
Qed.

Lemma search_heals_unranked_player_witness :
  "Bob" <> ""
  /\ In bob (matching contains "Bob" world_unranked)
  /\ zset_score (key_of bob) (leaderboard world_unranked) = None
  /\ healed_key (key_of bob) (snd (search_f (Some "Bob") world_unranked)).
Proof.
  assert (Hq : "Bob" <> "") by discriminate.
  assert (Hmatch : In bob (matching contains "Bob" world_unranked))
    by (vm_compute; left; reflexivity).
  assert (Hunranked : zset_score (key_of bob) (leaderboard world_unranked) = None)
    by reflexivity.
  split; [exact Hq|]. split; [exact Hmatch|]. split; [exact Hunranked|].
  exact (proj1 (proj1 (search_heals_unranked_player
                         integer_id_eq contains world_unranked bob
                         Hq Hmatch Hunranked))).
Defined.

(* ================================================================= *)
(** ** Rounding *)

(** In binary64 the hundred rewards of a pool of 100 add up to the closed form
    only up to rounding: the two values are within 1e-12 and not equal. *)
Lemma settlement_total_binary64 :
  let w' := snd (leaderboard_reset world_hundred_binary64) in
  let sum := total (map snd (increments (new_commands world_hundred_binary64 w'))) in
  let closed := closed_form (nlit 100 : float) in
  PrimFloat.ltb (PrimFloat.abs (PrimFloat.sub sum closed)) (nlit (1 # 1000000000000))
  = true
  /\ PrimFloat.eqb sum closed = false.
Proof. vm_compute. split; reflexivity. Qed.

(* ================================================================= *)
(** ** Registering a player *)

Section Create.
Context {num : Type} `{JsNumber num}.
Variable sql_str_eq : string -> string -> bool.

Lemma create_run_new (w : World num) n c cc :
  blank n = false -> blank c = false -> blank cc = false ->
  existing sql_str_eq w n c cc = [] ->
  player_create sql_str_eq (Some n) (Some c) (Some cc) w
  = ({| status := 201;
        payload := created_ "Player created successfully" (auto_increment w) |},
     {| players := players w ++ [new_player w n c cc];
        auto_increment := auto_increment w + 1;
        leaderboard :=
          zset_add (nlit 0) (Z_toString (auto_increment w)) (leaderboard w);
        prize_pool := prize_pool w;
        issued := issued w
                  ++ [SELECT_exact n c cc; INSERT_player n c cc;
                      ZADD (nlit 0) (Z_toString (auto_increment w))] |}).
Proof.
  intros Hn Hc Hcc Hnone. unfold player_create, missing.
  rewrite Hn, Hc, Hcc. cbn [orb].
  unfold db_select_exact, db_insert, zAdd. run.
  unfold existing in Hnone. rewrite Hnone. simpl.
  rewrite <- !app_assoc. reflexivity.
Qed.

Lemma create_run_duplicate (w : World num) n c cc :
  blank n = false -> blank c = false -> blank cc = false ->
  existing sql_str_eq w n c cc <> [] ->
  player_create sql_str_eq (Some n) (Some c) (Some cc) w
  = ({| status := 409; payload := error_ "Player already exists" |},
     snd (issue (SELECT_exact n c cc) w)).
Proof.
  intros Hn Hc Hcc Hsome. unfold player_create, missing.
  rewrite Hn, Hc, Hcc. cbn [orb].
  unfold db_select_exact. run.
  unfold existing in Hsome.
  destruct (filter (same_player sql_str_eq n c cc) (players w)); [contradiction|].
  reflexivity.
Qed.

Lemma existing_after_insert (w : World num) n c cc :
  (forall s, sql_str_eq s s = true) ->
  existing sql_str_eq
    {| players := players w ++ [new_player w n c cc];
       auto_increment := auto_increment w + 1;
       leaderboard := zset_add (nlit 0) (Z_toString (auto_increment w)) (leaderboard w);
       prize_pool := prize_pool w;
       issued := issued w
                 ++ [SELECT_exact n c cc; INSERT_player n c cc;
                     ZADD (nlit 0) (Z_toString (auto_increment w))] |}
    n c cc <> [].
Proof.
  intros Hrefl. unfold existing. simpl. rewrite filter_app. simpl.
  unfold same_player at 2. simpl. rewrite !Hrefl. simpl.
  intros Habs. apply app_eq_nil in Habs. destruct Habs as [_ Habs]. discriminate.
Qed.
End Create.

(** A registration request in which name, country or countryCode is missing,
    empty or made of white space only is answered 400 and reaches neither
    store: no command is issued at all. *)
Theorem create_rejects_blank_details
  {num : Type} `{JsNumber num} (sql_str_eq : string -> string -> bool)
  (w : World num) (name country countryCode : option string)
  (Hblank : missing name = true \/ missing country = true
            \/ missing countryCode = true) :
  player_create sql_str_eq name country countryCode w
  = ({| status := InvalidInput;
        payload := error_ "Missing required player details" |}, w).
Proof.
  unfold player_create.
  destruct Hblank as [-> | [-> | ->]]; rewrite ?orb_true_r; reflexivity.
Qed.

Lemma create_rejects_blank_details_witness :
  missing (Some "  ") = true
  /\ create_f (Some "Ada") (Some "  ") (Some "US") world_ada
     = ({| status := InvalidInput;
           payload := error_ "Missing required player details" |}, world_ada).
Proof.
  split; [reflexivity|].
  apply (create_rejects_blank_details String.eqb world_ada
           (Some "Ada") (Some "  ") (Some "US")).
  right; left; reflexivity.
Defined.

(** When a row with the same name, country and country code exists, the
    registration is answered 409 after the duplicate check alone: no row is
    inserted, no id is consumed, and nothing is sent to Redis. *)
Theorem create_duplicate_changes_nothing
  {num : Type} `{JsNumber num} (sql_str_eq : string -> string -> bool)
  (w : World num) (n c cc : string)
  (Hn : blank n = false) (Hc : blank c = false) (Hcc : blank cc = false)
  (Hdup : existing sql_str_eq w n c cc <> []) :
  let r := player_create sql_str_eq (Some n) (Some c) (Some cc) w in
  status (fst r) = Conflict
  /\ same_stores w (snd r)
  /\ new_commands w (snd r) = [SELECT_exact n c cc].
Proof.
  intros r. subst r. rewrite create_run_duplicate by assumption.
  split; [reflexivity|]. split.
  - repeat split.
  - unfold new_commands. simpl. apply skipn_app_exact.
Qed.

Lemma create_duplicate_changes_nothing_witness :
  blank "Ada" = false /\ existing String.eqb world_ada "Ada" "US" "US" <> []
  /\ status (fst (create_f (Some "Ada") (Some "US") (Some "US") world_ada))
     = Conflict.
Proof.
  assert (Hdup : existing String.eqb world_ada "Ada" "US" "US" <> [])
    by (vm_compute; discriminate).
  split; [reflexivity|]. split; [exact Hdup|].
  apply (create_duplicate_changes_nothing String.eqb world_ada "Ada" "US" "US");
    [reflexivity|reflexivity|reflexivity|exact Hdup].
Defined.

(** A registration with three non-blank fields that fit their columns, an id
    the column can hold and no matching row is answered 201 with the next AUTO_INCREMENT value as playerId; exactly one
    row with that id and the three fields as sent is appended to [players];
    the sorted set then holds exactly one entry for the id's decimal string,
    with score 0 (an entry already stored under that key is replaced); the
    other members' scores and the prize pool are as before. *)
Theorem create_registers_with_zero_score
  {num : Type} `{JsNumber num} (sql_str_eq : string -> string -> bool)
  (w : World num) (n c cc : string)
  (Hn : blank n = false) (Hc : blank c = false) (Hcc : blank cc = false)
  (Hfit : fits_columns n c cc) (Hroom : id_fits w)
  (Hnew : existing sql_str_eq w n c cc = []) :
  let r := player_create sql_str_eq (Some n) (Some c) (Some cc) w in
  let key := Z_toString (auto_increment w) in
  fst r = {| status := 201;
             payload := created_ "Player created successfully" (auto_increment w) |}
  /\ players (snd r) = players w ++ [new_player w n c cc]
  /\ auto_increment (snd r) = auto_increment w + 1
  /\ healed_key key (snd r)
  /\ (forall m, m <> key ->
        zset_score m (leaderboard (snd r)) = zset_score m (leaderboard w)
        /\ occurrences m (leaderboard (snd r)) = occurrences m (leaderboard w))
  /\ prize_pool (snd r) = prize_pool w
  /\ new_commands w (snd r)
     = [SELECT_exact n c cc; INSERT_player n c cc; ZADD (nlit 0) key].
Proof.
  intros r key. subst r key. rewrite create_run_new by assumption. simpl.
  split; [reflexivity|]. split; [reflexivity|]. split; [reflexivity|].
  split; [|split; [|split]].
  - split; simpl.
    + apply zset_score_add_same.
    + apply occurrences_add_same.
  - intros m Hm. split.
    + now apply zset_score_add_other.
    + now apply occurrences_add_other.
  - reflexivity.
  - unfold new_commands. simpl. apply skipn_app_exact.
Qed.

Lemma create_registers_with_zero_score_witness :
  blank "Ada" = false
  /\ fits_columns "Ada" "US" "US"
  /\ id_fits (@empty_world float)
  /\ existing String.eqb (@empty_world float) "Ada" "US" "US" = []
  /\ players world_ada = [ada]
  /\ healed_key "1" world_ada.
Proof.
  assert (Hfit : fits_columns "Ada" "US" "US")
    by (unfold fits_columns; simpl; lia).
  assert (Hroom : id_fits (@empty_world float))
    by (unfold id_fits; simpl; lia).
  destruct (@create_registers_with_zero_score float _ String.eqb
              (@empty_world float) "Ada" "US" "US" eq_refl eq_refl eq_refl
              Hfit Hroom eq_refl)
    as (_ & Hplayers & _ & Hkey & _).
  split; [reflexivity|]. split; [exact Hfit|]. split; [exact Hroom|].
  split; [reflexivity|].
  split; [exact Hplayers | exact Hkey].
Defined.

(** Sending the same registration again is always answered 409 and changes
    nothing, whether the first request created the player or found it
    already there (for non-blank fields that fit their columns, an id the
    column can hold and a collation under which a string equals itself). *)
Theorem create_again_conflicts
  {num : Type} `{JsNumber num} (sql_str_eq : string -> string -> bool)
  (w : World num) (n c cc : string)
  (Hrefl : forall s, sql_str_eq s s = true)
  (Hn : blank n = false) (Hc : blank c = false) (Hcc : blank cc = false)
  (Hfit : fits_columns n c cc) (Hroom : id_fits w) :
  let first := player_create sql_str_eq (Some n) (Some c) (Some cc) w in
  let second := player_create sql_str_eq (Some n) (Some c) (Some cc) (snd first) in
  (status (fst first) = 201 \/ status (fst first) = Conflict)
  /\ status (fst second) = Conflict
  /\ same_stores (snd first) (snd second)
  /\ new_commands (snd first) (snd second) = [SELECT_exact n c cc].
Proof.
  intros first second. subst first second.
  destruct (existing sql_str_eq w n c cc) as [|p ps] eqn:Hex.
  - rewrite create_run_new by assumption. cbn [fst snd].
    rewrite create_run_duplicate
      by (try assumption; now apply existing_after_insert).
    split; [now left|]. split; [reflexivity|]. split.
    + repeat split.
    + unfold new_commands. simpl. apply skipn_app_exact.
  - assert (Hdup : existing sql_str_eq w n c cc <> [])
      by (rewrite Hex; discriminate).
    rewrite create_run_duplicate by assumption. cbn [fst snd].
    rewrite create_run_duplicate by assumption.
    split; [now right|]. split; [reflexivity|]. split.
    + repeat split.
    + unfold new_commands. simpl. apply skipn_app_exact.
Qed.

Lemma create_again_conflicts_witness :
  (forall s, String.eqb s s = true)
  /\ blank "Ada" = false
  /\ fits_columns "Ada" "US" "US"
  /\ id_fits (@empty_world float)
  /\ status (fst (create_f (Some "Ada") (Some "US") (Some "US") world_ada))
     = Conflict.
Proof.
  assert (Hfit : fits_columns "Ada" "US" "US")
    by (unfold fits_columns; simpl; lia).
  assert (Hroom : id_fits (@empty_world float))
    by (unfold id_fits; simpl; lia).
  split; [apply String.eqb_refl|]. split; [reflexivity|].
  split; [exact Hfit|]. split; [exact Hroom|].
  apply (@create_again_conflicts float _ String.eqb (@empty_world float)
           "Ada" "US" "US" String.eqb_refl eq_refl eq_refl eq_refl Hfit Hroom).
Defined.

(** A player just registered (non-blank fields that fit their columns, an id
    the column can hold) can earn at once: a request whose playerId MySQL
    matches with the new id and which prints as its decimal string, with an
    amount that Redis accepts (0 + amount is a number and INCRBYFLOAT
    answers), is answered 200, and the player's score is 0 + amount, in one
    entry. *)
Theorem created_player_can_earn
  {num : Type} `{JsNumber num}
  (Number_toString : num -> string) (sql_id_eq : JsValue num -> Z -> bool)
  (redis_incrbyfloat : num -> num -> option num)
  (sql_str_eq : string -> string -> bool)
  (w : World num) (n c cc : string) (playerId : JsValue num) (amount v : num)
  (Hn : blank n = false) (Hc : blank c = false) (Hcc : blank cc = false)
  (Hfit : fits_columns n c cc) (Hroom : id_fits w)
  (Hnew : existing sql_str_eq w n c cc = [])
  (Htruthy : truthy playerId = true)
  (Hid : sql_id_eq playerId (auto_increment w) = true)
  (Hkey : toString Number_toString playerId = Z_toString (auto_increment w))
  (Hscore : nis_nan (nadd (nlit 0) amount) = false)
  (Hpool : redis_incrbyfloat (pool_balance w) (nmul amount (nlit 0.02)) = Some v) :
  let created := snd (player_create sql_str_eq (Some n) (Some c) (Some cc) w) in
  let r := leaderboard_earn Number_toString sql_id_eq redis_incrbyfloat
             playerId (JNum amount) created in
  status (fst r) = 200
  /\ zset_score (Z_toString (auto_increment w)) (leaderboard (snd r))
     = Some (nadd (nlit 0) amount)
  /\ occurrences (Z_toString (auto_increment w)) (leaderboard (snd r)) = 1%nat
  /\ prize_pool (snd r) = Some v
  /\ players (snd r) = players w ++ [new_player w n c cc].
Proof.
  intros created r. subst created r.
  rewrite create_run_new by assumption. cbn [fst snd].
  rewrite (@earn_valid_known _ _ _ _ _ _ playerId amount v); [|assumption| | |].
  - simpl. rewrite Hkey. split; [reflexivity|]. split; [|split; [|split]].
    + rewrite zset_score_incrby_same, zset_score_add_same. reflexivity.
    + unfold zset_incrby.
      destruct (zset_score _ _); apply occurrences_add_same.
    + reflexivity.
    + reflexivity.
  - unfold known. simpl. rewrite filter_app. simpl. rewrite Hid.
    intros Habs. apply app_eq_nil in Habs. destruct Habs as [_ Habs].
    discriminate.
  - unfold new_score. cbn [leaderboard]. rewrite Hkey, zset_score_add_same.
    exact Hscore.
  - exact Hpool.
Qed.

Lemma created_player_can_earn_witness :
  existing String.eqb (@empty_world float) "Ada" "US" "US" = []
  /\ id_fits (@empty_world float)
  /\ truthy (JNum (nlit 1 : float)) = true
  /\ integer_id_eq (JNum (nlit 1)) (auto_increment (@empty_world float)) = true
  /\ status (fst (earn_f (JNum (nlit 1)) (JNum (nlit 100)) world_ada)) = 200.
Proof.
  assert (Htruthy : truthy (JNum (nlit 1 : float)) = true)
    by (vm_compute; reflexivity).
  assert (Hid : integer_id_eq (JNum (nlit 1))
                  (auto_increment (@empty_world float)) = true)
    by (vm_compute; reflexivity).
  assert (Hkey : toString integer_toString (JNum (nlit 1 : float))
                 = Z_toString (auto_increment (@empty_world float)))
    by (vm_compute; reflexivity).
  assert (Hfit : fits_columns "Ada" "US" "US")
    by (unfold fits_columns; simpl; lia).
  assert (Hroom : id_fits (@empty_world float))
    by (unfold id_fits; simpl; lia).
  assert (Hscore : nis_nan (nadd (nlit 0) (nlit 100 : float)) = false)
    by (vm_compute; reflexivity).
  assert (Hpool : binary64_incrbyfloat (pool_balance (@empty_world float))
                    (nmul (nlit 100) (nlit 0.02)) = Some (nlit 2))
    by (vm_compute; reflexivity).
  split; [reflexivity|]. split; [exact Hroom|]. split; [exact Htruthy|].
  split; [exact Hid|].
  apply (@created_player_can_earn float _ integer_toString integer_id_eq
           binary64_incrbyfloat String.eqb (@empty_world float) "Ada" "US" "US"
           (JNum (nlit 1)) (nlit 100) (nlit 2)
           eq_refl eq_refl eq_refl Hfit Hroom eq_refl Htruthy Hid Hkey
           Hscore Hpool).
Defined.

(* ================================================================= *)
(** ** The settlement and the entries it does not rank *)

Section SettlementFrame.
Context {num : Type} `{JsNumber num}.
Implicit Types (l : list (ScoreEntry num)) (m : string).

Lemma apply_rewards_cons (p : string * num) pairs l :
  apply_rewards (p :: pairs) l
  = apply_rewards pairs (zset_incrby (snd p) (fst p) l).
Proof. reflexivity. Qed.

Lemma incrby_member incr m m' l :
  zset_score m l <> None -> zset_score m (zset_incrby incr m' l) <> None.
Proof.
  intros Hm. destruct (string_dec m m') as [->|Hne].
  - rewrite zset_score_incrby_same. discriminate.
  - now rewrite zset_score_incrby_other.
Qed.

Lemma apply_rewards_other m (pairs : list (string * num)) : forall l,
  ~ In m (map fst pairs) ->
  zset_score m (apply_rewards pairs l) = zset_score m l.
Proof.
  induction pairs as [|p pairs IH]; intros l Hm; [reflexivity|].
  rewrite apply_rewards_cons, IH by (intros Hin; apply Hm; now right).
  apply zset_score_incrby_other. intros ->. apply Hm. now left.
Qed.

Lemma apply_rewards_member m (pairs : list (string * num)) : forall l,
  zset_score m l <> None -> zset_score m (apply_rewards pairs l) <> None.
Proof.
  induction pairs as [|p pairs IH]; intros l Hm; [exact Hm|].
  rewrite apply_rewards_cons. apply IH. now apply incrby_member.
Qed.

Lemma apply_rewards_no_new m (pairs : list (string * num)) : forall l,
  (forall k, In k (map fst pairs) -> zset_score k l <> None) ->
  zset_score m l = None -> zset_score m (apply_rewards pairs l) = None.
Proof.
  induction pairs as [|p pairs IH]; intros l Hin Hm; [exact Hm|].
  rewrite apply_rewards_cons. apply IH.
  - intros k Hk. apply incrby_member. apply Hin. now right.
  - rewrite zset_score_incrby_other; [exact Hm|].
    intros ->. apply (Hin (fst p)); [now left | exact Hm].
Qed.

Lemma in_firstn {A} (x : A) n (l : list A) : In x (firstn n l) -> In x l.
Proof.
  intros Hx. rewrite <- (firstn_skipn n l). apply in_or_app. now left.
Qed.

Lemma in_skipn {A} (x : A) n (l : list A) : In x (skipn n l) -> In x l.
Proof.
  intros Hx. rewrite <- (firstn_skipn n l). apply in_or_app. now right.
Qed.

(** A range read returns entries of the set. *)
Lemma zset_range_rev_In a b l e : In e (zset_range_rev a b l) -> In e l.
Proof.
  unfold zset_range_rev.
  match goal with |- context [if ?c then [] else _] => destruct c end;
    [intros []|].
  intros He. apply in_firstn, in_skipn in He. now apply in_rev.
Qed.

Lemma member_has_score e l : In e l -> zset_score (value e) l <> None.
Proof.
  intros He. unfold zset_score.
  destruct (find (is_member (value e)) l) eqn:Hf; [discriminate|].
  apply (find_none _ _ Hf) in He.
  unfold is_member in He. now rewrite String.eqb_refl in He.
Qed.

Lemma map_fst_combine_incl {A B} (a : list A) : forall (b : list B) x,
  In x (map fst (combine a b)) -> In x a.
Proof.
  induction a as [|a0 a IH]; intros [|b0 b] x; simpl; auto.
  - intros [].
  - intros [->|Hx]; eauto.
Qed.
End SettlementFrame.

(** The settlement pays only the entries it ranks: the score of a member
    outside the 100 best is what it was, and the run neither adds a member to
    the sorted set nor removes one. *)
Theorem settlement_touches_ranked_only :
  forall (num : Type) (N : JsNumber num) (w : World num),
    let ranked := zset_range_rev 0 99 (leaderboard w) in
    let w' := snd (leaderboard_reset w) in
    (forall m, ~ In m (map (@value num) ranked) ->
               zset_score m (leaderboard w') = zset_score m (leaderboard w))
    /\ (forall m, zset_score m (leaderboard w') = None
                  <-> zset_score m (leaderboard w) = None)
    /\ players w' = players w
    /\ auto_increment w' = auto_increment w.
Proof.
  intros num N w ranked w'. subst w'. rewrite leaderboard_reset_run. simpl.
  fold ranked.
  set (pairs := combine (map (@value num) ranked)
                        (shares (pool_balance w) 0 (pool_balance w)
                                (List.length ranked))).
  assert (Hsub : forall k, In k (map fst pairs) -> In k (map (@value num) ranked))
    by (intros k; apply map_fst_combine_incl).
  split; [|split; [|split; reflexivity]].
  - intros m Hm. apply apply_rewards_other. intros Hin. apply Hm. auto.
  - intros m. split.
    + intros Hnone.
      destruct (zset_score m (leaderboard w)) eqn:Hs; [|reflexivity].
      exfalso. apply (@apply_rewards_member num N m pairs (leaderboard w));
        [rewrite Hs; discriminate | exact Hnone].
    + apply apply_rewards_no_new. intros k Hk.
      apply Hsub, in_map_iff in Hk. destruct Hk as (e & <- & He).
      apply member_has_score. eapply zset_range_rev_In. exact He.
Qed.

(* ----------------------------------------------------------------- *)
(** *** Rewards in exact arithmetic *)

Section ExactRewards.
Local Open Scope Q_scope.

(** From the fourth entry on: rewards are not negative, none exceeds the one
    before it, and the first is 0.00567 of what remains. *)
Lemma shares_tail_monotone (P : Q) n : forall i rem,
  (3 <= i)%nat -> 0 <= rem ->
  Forall (fun r => 0 <= r) (shares P i rem n)
  /\ (forall j a b,
        nth_error (shares P i rem n) j = Some a ->
        nth_error (shares P i rem n) (S j) = Some b -> b <= a)
  /\ (forall a, nth_error (shares P i rem n) 0 = Some a -> a = rem * 0.00567).
Proof.
  induction n as [|n IH]; intros i rem Hi Hrem.
  - split; [constructor|]. split.
    + intros [|j] a b Ha; discriminate.
    + intros a Ha; discriminate.
  - cbn [shares]. destruct (Nat.ltb_spec i 3); [lia|].
    unfold nsub, nmul; simpl.
    assert (Hrem' : 0 <= rem - rem * 0.00567) by lra.
    destruct (IH (S i) (rem - rem * 0.00567) ltac:(lia) Hrem')
      as (Hpos & Hadj & Hhead).
    split; [|split].
    + constructor; [lra | exact Hpos].
    + intros [|j] a b Ha Hb; simpl in Ha, Hb.
      * injection Ha as <-. apply Hhead in Hb. subst b. lra.
      * eapply Hadj; eauto.
    + intros a [= <-]. reflexivity.
Qed.

Lemma shares_from_start (P : Q) m :
  shares P 0 P (3 + m)
  = P * 0.2 :: P * 0.15 :: P * 0.1
    :: shares P 3 (P - P * 0.2 - P * 0.15 - P * 0.1) m.
Proof. reflexivity. Qed.

Lemma shares_monotone (P : Q) n :
  0 <= P ->
  Forall (fun r => 0 <= r) (shares P 0 P n)
  /\ (forall j a b,
        nth_error (shares P 0 P n) j = Some a ->
        nth_error (shares P 0 P n) (S j) = Some b -> b <= a).
Proof.
  intros HP. destruct n as [|[|[|m]]].
  - split; [constructor|]. intros [|j] a b Ha; discriminate.
  - split; [repeat constructor; cbn; lra|].
    intros [|[|j]] a b Ha Hb; discriminate.
  - split; [repeat constructor; cbn; lra|].
    intros [|[|[|j]]] a b Ha Hb; try discriminate.
    cbn in Ha, Hb. injection Ha as <-. injection Hb as <-. lra.
  - change (S (S (S m))) with (3 + m)%nat. rewrite shares_from_start.
    assert (Hrem : 0 <= P - P * 0.2 - P * 0.15 - P * 0.1) by lra.
    destruct (@shares_tail_monotone P m 3%nat _ (le_n 3) Hrem)
      as (Hpos & Hadj & Hhead).
    split.
    + repeat (constructor; [lra|]). exact Hpos.
    + intros [|[|[|j]]] a b Ha Hb; cbn in Ha, Hb.
      * injection Ha as <-. injection Hb as <-. lra.
      * injection Ha as <-. injection Hb as <-. lra.
      * injection Ha as <-. apply Hhead in Hb. subst b. lra.
      * eapply Hadj; eauto.
Qed.

(** Nothing to distribute: every reward is 0. *)
Lemma shares_of_nothing (P : Q) n : forall i rem,
  P == 0 -> rem == 0 -> Forall (fun r => r == 0) (shares P i rem n).
Proof.
  induction n as [|n IH]; intros i rem HP Hrem; [constructor|].
  cbn [shares].
  assert (Hreward :
            (if (i <? 3)%nat then nmul P (nth i rewards (nlit 0))
             else nmul rem (nlit 0.00567)) == 0).
  { destruct (i <? 3)%nat; unfold nmul; simpl.
    - rewrite HP. apply Qmult_0_l.
    - rewrite Hrem. apply Qmult_0_l. }
  constructor; [exact Hreward|].
  apply IH; [exact HP|]. unfold nsub; simpl.
  rewrite Hreward, Hrem. reflexivity.
Qed.

Lemma total_of_nothing (l : list Q) :
  Forall (fun r => r == 0) l -> total l == 0.
Proof.
  induction 1 as [|r l Hr _ IH]; [reflexivity|].
  rewrite total_cons, Hr, IH. reflexivity.
Qed.

Lemma settlement_rewards (w : World Q) :
  map snd (increments (new_commands w (snd (leaderboard_reset w))))
  = shares (pool_balance w) 0 (pool_balance w)
           (List.length (zset_range_rev 0 99 (leaderboard w))).
Proof.
  rewrite settlement_increments. cbv zeta.
  apply map_snd_combine. now rewrite length_map, shares_length.
Qed.
End ExactRewards.

(** In exact arithmetic and with a pool that is not negative, no reward is
    negative and the rewards never grow along the ranking: a better rank is
    never paid less than the rank after it. *)
Theorem settlement_rewards_never_grow
  (w : World Q) (Hpool : (0 <= pool_balance w)%Q) :
  let paid := map snd (increments (new_commands w (snd (leaderboard_reset w)))) in
  Forall (fun r => (0 <= r)%Q) paid
  /\ (forall i a b,
        nth_error paid i = Some a -> nth_error paid (S i) = Some b ->
        (b <= a)%Q).
Proof.
  intros paid. subst paid. rewrite settlement_rewards.
  now apply shares_monotone.
Qed.

Lemma settlement_rewards_never_grow_witness :
  (0 <= pool_balance world_two_exact)%Q
  /\ Forall (fun r => (0 <= r)%Q)
       (map snd (increments
                   (new_commands world_two_exact
                                 (snd (leaderboard_reset world_two_exact))))).
Proof.
  assert (Hpool : (0 <= pool_balance world_two_exact)%Q)
    by (vm_compute; discriminate).
  split; [exact Hpool|].
  apply (settlement_rewards_never_grow world_two_exact Hpool).
Defined.

(** A settlement that follows another one at once has nothing to distribute:
    the pool it reads is the 0 the first run stored, every increment it sends
    is 0, and it stores 0 again. *)
Theorem second_settlement_pays_nothing :
  forall w : World Q,
    let w1 := snd (leaderboard_reset w) in
    let w2 := snd (leaderboard_reset w1) in
    let paid := map snd (increments (new_commands w1 w2)) in
    pool_balance w1 = 0%Q
    /\ Forall (fun r => (r == 0)%Q) paid
    /\ (total paid == 0)%Q
    /\ prize_pool w2 = Some 0%Q.
Proof.
  intros w w1 w2 paid.
  assert (Hpool : pool_balance w1 = 0%Q)
    by (subst w1; rewrite leaderboard_reset_run; reflexivity).
  assert (Hpaid : Forall (fun r => (r == 0)%Q) paid).
  { subst paid w2. rewrite settlement_rewards, Hpool.
    apply shares_of_nothing; reflexivity. }
  split; [exact Hpool|]. split; [exact Hpaid|].
  split; [now apply total_of_nothing|].
  subst w2. rewrite leaderboard_reset_run. reflexivity.
Qed.

(* ================================================================= *)
(** ** The views only read *)

Section ReadOnlyViews.
Context {num : Type} `{JsNumber num}.
Variable sql_id_eq : JsValue num -> Z -> bool.
Variable sql_like : string -> string -> bool.

Lemma quiet_getTopRankingPlayers : quiet (getTopRankingPlayers sql_id_eq).
Proof.
  unfold getTopRankingPlayers.
  apply quiet_bind; [apply quiet_zRangeWithScores|]. intros l.
  apply quiet_bind; [|intros; apply quiet_ret].
  unfold db_select_in. apply quiet_bind; [apply quiet_issue|].
  intros _. apply quiet_read.
Qed.

Lemma quiet_getSearchResults schedule players :
  quiet (getSearchResults sql_id_eq schedule players).
Proof.
  unfold getSearchResults. destruct (include_matched players []) as [adm inc].
  apply quiet_bind; [apply quiet_mapM; intros a; apply quiet_fetch|].
  intros tasks. destruct (fold_left resume schedule (inc, tasks)).
  apply quiet_ret.
Qed.

Lemma quiet_db_select_like_name q : quiet (db_select_like_name (num := num) sql_like q).
Proof.
  unfold db_select_like_name. apply quiet_bind; [apply quiet_issue|].
  intros _. apply quiet_read.
Qed.

Lemma quiet_top_ranking_data schedule query :
  quiet (top_ranking_data sql_id_eq sql_like schedule query).
Proof.
  unfold top_ranking_data.
  apply quiet_bind; [apply quiet_getTopRankingPlayers|]. intros top.
  destruct (negb (query_given query)); [apply quiet_ret|].
  apply quiet_bind; [apply quiet_db_select_like_name|]. intros matched.
  destruct (List.length matched =? 0)%nat; [apply quiet_ret|].
  apply quiet_bind.
  - apply quiet_mapM. intros p.
    apply quiet_bind; [apply quiet_zRevRank | intros; apply quiet_ret].
  - intros ranked.
    apply quiet_bind; [apply quiet_getSearchResults | intros; apply quiet_ret].
Qed.

Lemma map_index_length {A B} (f : A -> Z -> B) (l : list A) : forall i,
  List.length (map_index f i l) = List.length l.
Proof. induction l as [|a l IH]; intros i; simpl; auto. Qed.

Lemma map_index_nth {A B} (f : A -> Z -> B) (l : list A) : forall i j,
  nth_error (map_index f i l) j
  = option_map (fun a => f a (i + Z.of_nat j)) (nth_error l j).
Proof.
  induction l as [|a l IH]; intros i [|j]; simpl; auto.
  - now rewrite Z.add_0_r.
  - rewrite IH. destruct (nth_error l j); simpl; auto.
    f_equal. f_equal. lia.
Qed.

Lemma ranked_is_firstn (l : list (ScoreEntry num)) :
  zset_range_rev 0 99 l = firstn 100 (rev l).
Proof. rewrite zset_range_rev_slice by lia. reflexivity. Qed.

Lemma getTopRankingPlayers_run (w : World num) :
  let ranked := firstn 100 (rev (leaderboard w)) in
  let found :=
    filter (fun p => existsb (fun s => sql_id_eq (JStr s) (id p))
                             (map (@value num) ranked))
           (players w) in
  getTopRankingPlayers sql_id_eq w
  = (map_index
       (fun player index =>
          let playerDetails :=
            find (fun p => String.eqb (Z_toString (id p)) (value player)) found in
          {| top_ranking := index + 1;
             top_id := value player;
             top_playerName := option_map name playerDetails;
             top_country := option_map country playerDetails;
             top_countryCode := option_map country_code playerDetails;
             top_money := score player |})
       0 ranked,
     {| players := players w; auto_increment := auto_increment w;
        leaderboard := leaderboard w; prize_pool := prize_pool w;
        issued := issued w
                  ++ [ZRANGE_REV 0 99; SELECT_in (map (@value num) ranked)] |}).
Proof.
  unfold getTopRankingPlayers, zRangeWithScores, db_select_in. run.
  rewrite ranked_is_firstn, <- app_assoc. reflexivity.
Qed.
End ReadOnlyViews.

(** The top-N view of a leaderboard that is not empty: one range read and
    one profile query, nothing written; between 1 and 100 rows, one per entry
    of the ranks 0..99, in rank order; row i (from 0) has ranking i + 1, the
    entry's member as id and its score as money; its three profile fields
    are those of the first row the profile query returned whose id prints as
    the member, and they are all three null exactly when the query returned
    no such row. *)
Theorem top_view_lists_the_best
  {num : Type} `{JsNumber num} (sql_id_eq : JsValue num -> Z -> bool)
  (w : World num) (Hranked : leaderboard w <> []) :
  let r := getTopRankingPlayers sql_id_eq w in
  let ranked := firstn 100 (rev (leaderboard w)) in
  same_stores w (snd r)
  /\ new_commands w (snd r)
     = [ZRANGE_REV 0 99; SELECT_in (map (@value num) ranked)]
  /\ List.length (fst r) = List.length ranked
  /\ (1 <= List.length (fst r) <= 100)%nat
  /\ (forall i e,
        nth_error ranked i = Some e ->
        exists row,
          nth_error (fst r) i = Some row
          /\ top_ranking row = Z.of_nat i + 1
          /\ top_id row = value e
          /\ top_money row = score e
          /\ ((exists p,
                 In p (selected_in sql_id_eq (map (@value num) ranked) w)
                 /\ In p (players w) /\ Z_toString (id p) = value e
                 /\ top_playerName row = Some (name p)
                 /\ top_country row = Some (country p)
                 /\ top_countryCode row = Some (country_code p))
              \/ (top_playerName row = None /\ top_country row = None
                  /\ top_countryCode row = None
                  /\ forall p,
                       In p (selected_in sql_id_eq (map (@value num) ranked) w) ->
                       Z_toString (id p) <> value e))).
Proof.
  intros r ranked. subst r. rewrite getTopRankingPlayers_run. cbv zeta.
  fold ranked. cbn [fst snd].
  split; [repeat split|].
  split; [unfold new_commands; simpl; apply skipn_app_exact|].
  rewrite map_index_length.
  split; [reflexivity|]. split.
  - subst ranked. rewrite length_firstn, length_rev.
    destruct (leaderboard w); [contradiction|]. cbn [List.length]. lia.
  - intros i e He. rewrite map_index_nth, He. simpl.
    eexists. split; [reflexivity|]. simpl.
    split; [reflexivity|]. split; [reflexivity|]. split; [reflexivity|].
    match goal with
    | |- context [find ?f ?l] => destruct (find f l) as [p|] eqn:Hfind
    end.
    + left. exists p. apply find_some in Hfind. destruct Hfind as [Hsel Hp].
      assert (Hin := Hsel). apply filter_In in Hin. destruct Hin as [Hin _].
      apply String.eqb_eq in Hp. simpl. auto 10.
    + right. simpl. split; [reflexivity|]. split; [reflexivity|].
      split; [reflexivity|]. intros p Hsel Heq.
      apply (find_none _ _ Hfind) in Hsel. simpl in Hsel.
      apply String.eqb_neq in Hsel. contradiction.
Qed.

Lemma top_view_lists_the_best_witness :
  leaderboard world_two <> []
  /\ List.length (fst (top_f world_two)) = 2%nat
  /\ fst (top_f world_unranked)
     = [ {| top_ranking := 1; top_id := "1"; top_playerName := Some "Ada";
            top_country := Some "US"; top_countryCode := Some "US";
            top_money := nlit 500 |} ].
Proof.
  assert (Hranked : leaderboard world_two <> []) by discriminate.
  split; [exact Hranked|].
  destruct (top_view_lists_the_best integer_id_eq world_two Hranked)
    as (_ & _ & Hlen & _).
  split; [exact Hlen | vm_compute; reflexivity].
Defined.

(** The combined view never writes: with a leaderboard that is not empty it
    answers 200 with the top-N rows, and both stores hold afterwards what
    they held before, for every query and every order of the profile
    lookups.  searchResults is null exactly when no query is given (missing
    or empty) or no player's name matches it; the country is not searched. *)
Theorem combined_view_only_reads
  {num : Type} `{JsNumber num} (sql_id_eq : JsValue num -> Z -> bool)
  (sql_like : string -> string -> bool)
  (schedule : list (nat * nat)) (query : option string) (w : World num)
  (Hranked : leaderboard w <> []) :
  let r := top_ranking_data sql_id_eq sql_like schedule query w in
  status (fst r) = 200
  /\ same_stores w (snd r)
  /\ topRankingPlayers (payload (fst r)) = fst (getTopRankingPlayers sql_id_eq w)
  /\ (searchResults (payload (fst r)) = None
      <-> (forall q, query = Some q ->
             q = "" \/ filter (fun p => sql_like (name p) q) (players w) = [])).
Proof.
  intros r.
  assert (Hsame : same_stores w (snd r))
    by apply (quiet_top_ranking_data sql_id_eq sql_like schedule query w).
  revert Hsame. subst r. unfold top_ranking_data, bind.
  destruct (quiet_getTopRankingPlayers sql_id_eq w) as [(Hp1 & _) _].
  destruct (getTopRankingPlayers sql_id_eq w) as [top w1]. cbn [fst snd] in *.
  destruct query as [q|]; cbn [query_given negb].
  2:{ simpl. intros Hsame.
      split; [reflexivity|]. split; [exact Hsame|]. split; [reflexivity|].
      split; [intros _ q' Hq'; discriminate | reflexivity]. }
  destruct (String.eqb_spec q "") as [->|Hq]; cbn [negb].
  { simpl. intros Hsame.
    split; [reflexivity|]. split; [exact Hsame|]. split; [reflexivity|].
    split; [intros _ q' [= <-]; now left | reflexivity]. }
  assert (Hsel : db_select_like_name sql_like q w1
                 = (filter (fun p => sql_like (name p) q) (players w),
                    snd (issue (SELECT_like q) w1)))
    by (rewrite <- Hp1; reflexivity).
  rewrite Hsel. clear Hsel.
  destruct (filter (fun p => sql_like (name p) q) (players w)) as [|p0 ps] eqn:Hm.
  { simpl. intros Hsame.
    split; [reflexivity|]. split; [exact Hsame|]. split; [reflexivity|].
    split; [intros _ q' [= <-]; now right | reflexivity]. }
  cbn [List.length Nat.eqb].
  match goal with
  | |- context [mapM ?f ?l ?w0] => destruct (mapM f l w0) as [ranked w3]
  end.
  match goal with
  | |- context [getSearchResults ?f ?s ?l ?w0] =>
      destruct (getSearchResults f s l w0) as [results w4]
  end.
  simpl. intros Hsame.
  split; [reflexivity|]. split; [exact Hsame|]. split; [reflexivity|].
  split; [discriminate|].
  intros Hall. destruct (Hall q eq_refl) as [Habs|Habs]; [contradiction|].
  rewrite Hm in Habs. discriminate.
Qed.

Lemma combined_view_only_reads_witness :
  leaderboard world_two <> []
  /\ same_stores world_two
       (snd (ranking_data_f [(0, 0); (0, 1)]%nat (Some "Ada") world_two)).
Proof.
  assert (Hranked : leaderboard world_two <> []) by discriminate.
  split; [exact Hranked|].
  destruct (combined_view_only_reads integer_id_eq contains
              [(0, 0); (0, 1)]%nat (Some "Ada") world_two Hranked)
    as (_ & Hsame & _).
  exact Hsame.
Defined.

(* ================================================================= *)
(** ** Earnings one after the other *)

Section EarnCases.
Context {num : Type} `{JsNumber num}.
Variable Number_toString : num -> string.
Variable sql_id_eq : JsValue num -> Z -> bool.
Variable redis_incrbyfloat : num -> num -> option num.

(** An earning request either leaves both stores alone and is not answered
    200, or it credits the score; then it is answered 200 and the pool holds
    what Redis computed, or Redis refused the pool's increment, the answer
    is 500 and the pool is what it was. *)
Lemma earn_cases (w : World num) playerId amount :
  let r := leaderboard_earn Number_toString sql_id_eq redis_incrbyfloat
             playerId amount w in
  (status (fst r) <> 200 /\ same_stores w (snd r))
  \/ (exists a,
        amount = JNum a
        /\ players (snd r) = players w
        /\ auto_increment (snd r) = auto_increment w
        /\ leaderboard (snd r)
           = zset_incrby a (toString Number_toString playerId) (leaderboard w)
        /\ ((status (fst r) = 200
             /\ redis_incrbyfloat (pool_balance w) (nmul a (nlit 0.02))
                = prize_pool (snd r)
             /\ prize_pool (snd r) <> None)
            \/ (status (fst r) = 500
                /\ redis_incrbyfloat (pool_balance w) (nmul a (nlit 0.02)) = None
                /\ prize_pool (snd r) = prize_pool w))).
Proof.
  cbv zeta.
  assert (Hinvalid : status invalid_input <> 200)
    by (intros Hs; vm_compute in Hs; discriminate Hs).
  assert (Hmissing : status not_found <> 200)
    by (intros Hs; vm_compute in Hs; discriminate Hs).
  assert (Hfailed : status internal_error <> 200)
    by (intros Hs; vm_compute in Hs; discriminate Hs).
  destruct (truthy playerId) eqn:Ht.
  2:{ left. rewrite earn_invalid by (now left).
      split; [exact Hinvalid | apply same_stores_refl]. }
  destruct (is_number amount) eqn:Hnum.
  2:{ left. rewrite earn_invalid by (now right).
      split; [exact Hinvalid | apply same_stores_refl]. }
  destruct amount as [| |b|a|s|o]; try discriminate Hnum.
  destruct (known sql_id_eq w playerId) as [|p ps] eqn:Hk.
  { left. rewrite earn_valid_unknown by assumption.
    split; [exact Hmissing|]. simpl. repeat split. }
  assert (Hsome : known sql_id_eq w playerId <> [])
    by (rewrite Hk; discriminate).
  destruct (nis_nan (new_score a (toString Number_toString playerId) w))
    eqn:Hscore.
  { left. rewrite earn_score_refused by assumption.
    split; [exact Hfailed|]. simpl. repeat split. }
  right. exists a.
  destruct (redis_incrbyfloat (pool_balance w) (nmul a (nlit 0.02)))
    as [v|] eqn:Hpool.
  - rewrite (@earn_valid_known _ _ _ _ _ w playerId a v) by assumption.
    simpl. split; [reflexivity|]. split; [reflexivity|]. split; [reflexivity|].
    split; [reflexivity|]. left. split; [reflexivity|].
    split; [reflexivity | discriminate].
  - rewrite earn_pool_refused by assumption.
    simpl. split; [reflexivity|]. split; [reflexivity|]. split; [reflexivity|].
    split; [reflexivity|]. right. auto.
Qed.
End EarnCases.

Section ExactEarnings.
Local Open Scope Q_scope.
Variable Number_toString : Q -> string.
Variable sql_id_eq : JsValue Q -> Z -> bool.
Variable sql_str_eq : string -> string -> bool.
Variable sql_like : string -> string -> bool.

Lemma scores_kept_refl (l : list (ScoreEntry Q)) : scores_kept l l.
Proof. intros m s Hs. exists s. split; [exact Hs | apply Qle_refl]. Qed.

Lemma scores_kept_trans (l1 l2 l3 : list (ScoreEntry Q)) :
  scores_kept l1 l2 -> scores_kept l2 l3 -> scores_kept l1 l3.
Proof.
  intros H12 H23 m s Hs.
  destruct (H12 m s Hs) as (s2 & Hs2 & Hle2).
  destruct (H23 m s2 Hs2) as (s3 & Hs3 & Hle3).
  exists s3. split; [exact Hs3 | eapply Qle_trans; eauto].
Qed.

Lemma incrby_kept (r : Q) k (l : list (ScoreEntry Q)) :
  0 <= r -> scores_kept l (zset_incrby r k l).
Proof.
  intros Hr m s Hs. destruct (string_dec m k) as [->|Hne].
  - rewrite zset_score_incrby_same, Hs. exists (s + r).
    split; [reflexivity | lra].
  - rewrite zset_score_incrby_other by assumption.
    exists s. split; [exact Hs | apply Qle_refl].
Qed.

Lemma apply_rewards_kept (pairs : list (string * Q)) :
  forall l : list (ScoreEntry Q),
    Forall (fun p => 0 <= snd p) pairs -> scores_kept l (apply_rewards pairs l).
Proof.
  induction pairs as [|p pairs IH]; intros l Hpos; [apply scores_kept_refl|].
  inversion Hpos as [|? ? Hp Hrest]; subst.
  rewrite apply_rewards_cons.
  eapply scores_kept_trans; [apply incrby_kept; exact Hp | now apply IH].
Qed.

Lemma Forall_combine_snd {A B} (P : B -> Prop) (a : list A) : forall b : list B,
  Forall P b -> Forall (fun p => P (snd p)) (combine a b).
Proof.
  induction a as [|a0 a IH]; intros b Hb; [constructor|].
  destruct b as [|b0 b]; [constructor|].
  inversion Hb; subst. simpl. constructor; auto.
Qed.

Lemma settlement_keeps (w : World Q) :
  0 <= pool_balance w ->
  let w' := snd (leaderboard_reset w) in
  scores_kept (leaderboard w) (leaderboard w')
  /\ 0 <= pool_balance w' /\ players w' = players w.
Proof.
  intros Hpool w'. subst w'. rewrite leaderboard_reset_run. simpl.
  split; [|split; [unfold pool_balance; simpl; lra | reflexivity]].
  apply apply_rewards_kept. apply Forall_combine_snd.
  now apply shares_monotone.
Qed.

Lemma earn_keeps (w : World Q) playerId amount :
  0 <= pool_balance w ->
  raises_only (Earn playerId amount) ->
  let w' := snd (leaderboard_earn Number_toString sql_id_eq exact_incrbyfloat
                                  playerId amount w) in
  scores_kept (leaderboard w) (leaderboard w')
  /\ 0 <= pool_balance w' /\ players w' = players w.
Proof.
  intros Hpool Hamount w'. subst w'.
  destruct (earn_cases Number_toString sql_id_eq exact_incrbyfloat w
              playerId amount)
    as [[_ (Hp & _ & Hl & Hpp)]
       | (a & -> & Hp & _ & Hl & [(_ & Hpp & _) | (_ & Habs & _)])].
  - rewrite Hl. unfold pool_balance. rewrite Hpp.
    split; [apply scores_kept_refl|]. split; [exact Hpool | exact Hp].
  - simpl in Hamount. rewrite Hl. unfold pool_balance at 1. rewrite <- Hpp.
    split; [now apply incrby_kept|]. split; [|exact Hp].
    unfold exact_incrbyfloat, nmul. cbn [exact_number nlit]. lra.
  - discriminate Habs.
Qed.

Lemma handle_keeps (w : World Q) (r : Request Q) :
  0 <= pool_balance w -> raises_only r ->
  let w' := snd (handle Number_toString sql_id_eq sql_str_eq sql_like
                       exact_incrbyfloat r w) in
  scores_kept (leaderboard w) (leaderboard w')
  /\ 0 <= pool_balance w' /\ players w' = players w.
Proof.
  intros Hpool Hr. destruct r as [playerId amount|n c cc| |schedule query];
    unfold handle.
  - rewrite bind_run. simpl. now apply earn_keeps.
  - destruct Hr.
  - now apply settlement_keeps.
  - rewrite bind_run. cbn [snd ret].
    destruct (quiet_top_ranking_data sql_id_eq sql_like schedule query w)
      as [(Hp & _ & Hl & Hpp) _].
    cbv zeta. rewrite Hl. unfold pool_balance. rewrite Hpp.
    split; [apply scores_kept_refl|]. split; [exact Hpool | exact Hp].
Qed.
End ExactEarnings.

(** No sign check: in exact arithmetic an earning request with a negative
    amount for a registered player is answered 200, lowers the player's
    score by that amount and lowers the prize pool by 2% of it. *)
Theorem earn_takes_negative_amounts
  (Number_toString : Q -> string) (sql_id_eq : JsValue Q -> Z -> bool)
  (w : World Q) (playerId : JsValue Q) (amount s : Q)
  (Hid : truthy playerId = true)
  (Hknown : known sql_id_eq w playerId <> [])
  (Hscore : zset_score (toString Number_toString playerId) (leaderboard w)
            = Some s)
  (Hnegative : (amount < 0)%Q) :
  let r := leaderboard_earn Number_toString sql_id_eq exact_incrbyfloat
             playerId (JNum amount) w in
  status (fst r) = 200
  /\ zset_score (toString Number_toString playerId) (leaderboard (snd r))
     = Some (s + amount)%Q
  /\ (s + amount < s)%Q
  /\ (pool_balance (snd r) == pool_balance w + amount * 0.02)%Q
  /\ (pool_balance (snd r) < pool_balance w)%Q.
Proof.
  intros r. subst r.
  rewrite (@earn_valid_known _ _ _ _ _ w playerId amount
             (pool_balance w + amount * 0.02)%Q)
    by (assumption || reflexivity).
  cbn [fst snd status leaderboard].
  rewrite zset_score_incrby_same, Hscore.
  split; [reflexivity|]. split; [reflexivity|]. split; [lra|].
  generalize (pool_balance w). intros P.
  unfold pool_balance. cbn [prize_pool].
  split; [reflexivity | lra].
Qed.

Lemma earn_takes_negative_amounts_witness :
  truthy (JNum 1%Q) = true
  /\ known exact_id_eq world_two_exact (JNum 1%Q) <> []
  /\ (-100 < 0)%Q
  /\ zset_score "1"
       (leaderboard (snd (leaderboard_earn exact_toString exact_id_eq
                            exact_incrbyfloat
                            (JNum 1%Q) (JNum (-100)%Q) world_two_exact)))
     = Some (500 + -100)%Q.
Proof.
  assert (Hknown : known exact_id_eq world_two_exact (JNum 1%Q) <> [])
    by (vm_compute; discriminate).
  assert (Hneg : (-100 < 0)%Q) by reflexivity.
  split; [reflexivity|]. split; [exact Hknown|]. split; [exact Hneg|].
  apply (@earn_takes_negative_amounts exact_toString exact_id_eq
           world_two_exact (JNum 1%Q) (-100)%Q 500%Q
           eq_refl Hknown eq_refl Hneg).
Defined.

(** The pool is fed by accepted earnings alone: after any series of earning
    requests served one after the other, the pool is, in exact arithmetic,
    what it was plus 2% of the sum of the amounts of the requests answered
    200; a rejected request adds nothing, and [players] is never changed. *)
Theorem pool_collects_two_percent
  (Number_toString : Q -> string) (sql_id_eq : JsValue Q -> Z -> bool) :
  forall (reqs : list (JsValue Q * JsValue Q)) (w : World Q),
    let r := earn_all Number_toString sql_id_eq exact_incrbyfloat reqs w in
    List.length (fst r) = List.length reqs
    /\ (pool_balance (snd r)
        == pool_balance w + 0.02 * total (credited reqs (fst r)))%Q
    /\ players (snd r) = players w.
Proof.
  induction reqs as [|[playerId amount] reqs IH]; intros w; cbv zeta.
  - simpl. split; [reflexivity|]. split; [|reflexivity].
    unfold total; simpl. ring.
  - unfold earn_all. rewrite mapM_cons. cbn [fst snd].
    fold (earn_all Number_toString sql_id_eq exact_incrbyfloat reqs).
    set (first := leaderboard_earn Number_toString sql_id_eq exact_incrbyfloat
                    playerId amount w).
    destruct (IH (snd first)) as (Hlen & Hpool & Hplayers).
    cbn [List.length credited]. rewrite Hlen, Hpool, Hplayers.
    split; [reflexivity|].
    pose proof (earn_cases Number_toString sql_id_eq exact_incrbyfloat w
                  playerId amount) as Hcases.
    cbv zeta in Hcases. fold first in Hcases.
    destruct Hcases
      as [[Hs (Hp & _ & _ & Hpp)]
         | (a & Ha & Hp & _ & _ & [(Hs & Hpp & _) | (_ & Habs & _)])].
    + split; [|exact Hp].
      destruct (Z.eqb_spec (status (fst first)) 200) as [Heq|_];
        [contradiction|].
      unfold pool_balance at 1. rewrite Hpp. simpl. reflexivity.
    + split; [|exact Hp].
      rewrite Hs. change (200 =? 200) with true.
      cbn [app snd]. rewrite Ha. cbn [to_number]. rewrite total_cons.
      unfold pool_balance at 1. rewrite <- Hpp.
      unfold exact_incrbyfloat, nmul. cbn [exact_number nlit]. ring.
    + discriminate Habs.
Qed.

(** Scores never decrease and entries never disappear while earnings with
    amounts that are not negative, settlements and combined views (no
    registration among them) are served one after the other, starting from a
    pool that is not negative (exact arithmetic): every member of the sorted set is still a member at the
    end, with a score at least as high; the pool stays non-negative and
    [players] is unchanged. *)
Theorem scores_never_decrease
  (Number_toString : Q -> string) (sql_id_eq : JsValue Q -> Z -> bool)
  (sql_str_eq sql_like : string -> string -> bool)
  (rs : list (Request Q)) (w : World Q)
  (Hpool : (0 <= pool_balance w)%Q)
  (Hamounts : Forall raises_only rs) :
  let w' := snd (serve Number_toString sql_id_eq sql_str_eq sql_like
                      exact_incrbyfloat rs w) in
  scores_kept (leaderboard w) (leaderboard w')
  /\ (0 <= pool_balance w')%Q
  /\ players w' = players w.
Proof.
  unfold serve. rewrite bind_run. cbn [snd ret].
  revert w Hpool. induction Hamounts as [|r rs Hr _ IH]; intros w Hpool.
  - simpl. split; [apply scores_kept_refl|]. split; [exact Hpool | reflexivity].
  - rewrite mapM_cons. cbn [snd].
    destruct (handle_keeps Number_toString sql_id_eq sql_str_eq sql_like w r
                Hpool Hr)
      as (Hkept & Hpool1 & Hplayers).
    destruct (IH _ Hpool1) as (Hkept' & Hpool' & Hplayers').
    split; [eapply scores_kept_trans; eauto|].
    split; [exact Hpool'|]. now rewrite Hplayers'.
Qed.

Lemma scores_never_decrease_witness :
  (0 <= pool_balance world_two_exact)%Q
  /\ Forall raises_only
       [Earn (JNum 1%Q) (JNum 50%Q); Settle; View [] (Some "Bob")]
  /\ scores_kept (leaderboard world_two_exact)
       (leaderboard
          (snd (serve exact_toString exact_id_eq String.eqb contains
                  exact_incrbyfloat
                  [Earn (JNum 1%Q) (JNum 50%Q); Settle; View [] (Some "Bob")]
                  world_two_exact))).
Proof.
  assert (Hpool : (0 <= pool_balance world_two_exact)%Q)
    by (vm_compute; discriminate).
  assert (Hamounts : Forall raises_only
            [Earn (JNum 1%Q) (JNum 50%Q); Settle; View [] (Some "Bob")]).
  { repeat constructor. simpl. vm_compute. discriminate. }
  split; [exact Hpool|]. split; [exact Hamounts|].
  apply (@scores_never_decrease exact_toString exact_id_eq String.eqb contains
           _ world_two_exact Hpool Hamounts).
Defined.

(* ================================================================= *)
(** ** Which matched players are answered for, and in which order *)

Lemma map_replace_nth_same {A B} (f : A -> B) (a : A) : forall l i x,
  nth_error l i = Some x -> f a = f x ->
  map f (replace_nth i a l) = map f l.
Proof.
  induction l as [|y l IH]; intros [|i] x Hx Hf; simpl in *; try discriminate.
  - injection Hx as ->. now rewrite Hf.
  - f_equal. eapply IH; eauto.
Qed.

Lemma non_null_map {A B} (f : A -> B) : forall l,
  non_null (map (option_map f) l) = map f (non_null l).
Proof.
  induction l as [|[a|] l IH]; simpl; auto. now rewrite IH.
Qed.

Lemma non_null_In {A} (a : A) : forall l, In (Some a) l -> In a (non_null l).
Proof.
  induction l as [|[x|] l IH]; simpl; auto.
  - intros [[= ->]|Hin]; auto.
  - intros [Habs|Hin]; [discriminate|auto].
Qed.

Section SearchOrder.
Context {num : Type} `{JsNumber num}.
Variable sql_id_eq : JsValue num -> Z -> bool.
Implicit Types (l : list (ScoreEntry num)).

Lemma index_of_inj m m' : forall l r,
  index_of m l = Some r -> index_of m' l = Some r -> m = m'.
Proof.
  induction l as [|e l IH]; intros r Hm Hm'; simpl in *; [discriminate|].
  destruct (is_member m e) eqn:Em, (is_member m' e) eqn:Em'.
  - apply is_member_eq in Em, Em'. congruence.
  - injection Hm as <-.
    destruct (index_of m' l) as [k|] eqn:Hk; [|discriminate].
    apply index_of_nonneg in Hk. simpl in Hm'. injection Hm' as Hm'. lia.
  - injection Hm' as <-.
    destruct (index_of m l) as [k|] eqn:Hk; [|discriminate].
    apply index_of_nonneg in Hk. simpl in Hm. injection Hm as Hm. lia.
  - destruct (index_of m l) as [k|]; [|discriminate].
    destruct (index_of m' l) as [k'|]; [|discriminate].
    cbn [option_map] in Hm, Hm'. injection Hm as Hm. injection Hm' as Hm'.
    apply (IH k); [reflexivity|]. f_equal. lia.
Qed.

(** Two members with the same rank are the same member. *)
Lemma zset_revrank_inj m m' l r :
  zset_revrank m l = Some r -> zset_revrank m' l = Some r -> m = m'.
Proof. apply index_of_inj. Qed.

Lemma resume_heads (st : @Pending num) ev :
  map (option_map (@task_head num)) (snd (resume st ev))
  = map (option_map (@task_head num)) (snd st).
Proof.
  destruct st as [inc tasks], ev as [i index]. unfold resume.
  destruct (nth_error tasks i) as [[t|]|] eqn:Ht; try reflexivity.
  destruct (nth_error (surroundingPlayers t) index) as [[e d]|];
    try reflexivity.
  destruct (d_name d), (d_country d), (d_country_code d); try reflexivity.
  destruct (_ <? _).
  - destruct (negb (has inc (value e))); [|reflexivity].
    cbn [snd]. now apply map_replace_nth_same with (x := Some t).
  - destruct (_ >? _); [|reflexivity].
    destruct (negb (has inc (value e))); [|reflexivity].
    cbn [snd]. now apply map_replace_nth_same with (x := Some t).
Qed.

Lemma resume_all_heads schedule : forall st : @Pending num,
  map (option_map (@task_head num)) (snd (fold_left resume schedule st))
  = map (option_map (@task_head num)) (snd st).
Proof.
  induction schedule as [|ev schedule IH]; intros st; [reflexivity|].
  simpl. rewrite IH. apply resume_heads.
Qed.

Lemma fetch_head a (w : World num) :
  option_map (@task_head num) (fst (fetch sql_id_eq a w))
  = fetched (leaderboard w) a.
Proof.
  destruct a as [p b]. unfold fetch, fetched, key_of.
  destruct b; simpl; [|reflexivity].
  unfold zRevRank, zScore, zRangeWithScores. run.
  destruct (zset_revrank (Z_toString (id p)) (leaderboard w)) as [rank|];
    [|reflexivity].
  match goal with
  | |- context [mapM ?f ?l ?w0] => destruct (mapM f l w0) as [details w3]
  end.
  reflexivity.
Qed.

Lemma mapM_fetch_heads adm : forall w : World num,
  map (option_map (@task_head num)) (fst (mapM (fetch sql_id_eq) adm w))
  = map (fetched (leaderboard w)) adm.
Proof.
  induction adm as [|a adm IH]; intros w; [reflexivity|].
  rewrite mapM_cons. cbn [fst map]. rewrite fetch_head, IH.
  destruct (quiet_fetch sql_id_eq a w) as [(_ & _ & Hl & _) _].
  now rewrite Hl.
Qed.

Lemma include_matched_cons p rest inc :
  fst (include_matched (p :: rest) inc)
  = if has inc (key_of p)
    then (p, false) :: fst (include_matched rest inc)
    else (p, true) :: fst (include_matched rest (inc ++ [key_of p])).
Proof.
  simpl. unfold key_of. destruct (has inc (Z_toString (id p))).
  - now destruct (include_matched rest inc).
  - now destruct (include_matched rest (inc ++ [Z_toString (id p)])).
Qed.

Lemma include_matched_shown l players : forall inc,
  non_null (map (fetched l) (fst (include_matched players inc)))
  = map (fun a => (fst a, snd a, zset_score (key_of (fst a)) l))
        (shown_players l players inc).
Proof.
  induction players as [|p rest IH]; intros inc; [reflexivity|].
  rewrite include_matched_cons. cbn [shown_players].
  destruct (has inc (key_of p)).
  - cbn [map]. unfold fetched at 1. cbn [snd non_null]. apply IH.
  - cbn [map]. unfold fetched at 1. cbn [fst snd].
    destruct (zset_revrank (key_of p) l) as [R|]; cbn [option_map non_null];
      rewrite IH; reflexivity.
Qed.

Lemma shown_players_sound l players : forall inc p R,
  In (p, R) (shown_players l players inc) ->
  In p players /\ zset_revrank (key_of p) l = Some R
  /\ has inc (key_of p) = false.
Proof.
  induction players as [|p0 rest IH]; intros inc p R Hin; [destruct Hin|].
  cbn [shown_players] in Hin.
  destruct (has inc (key_of p0)) eqn:Hhas.
  - destruct (IH _ _ _ Hin) as (Hp & Hr & Hh). auto using in_cons.
  - apply in_app_or in Hin. destruct Hin as [Hin|Hin].
    + destruct (zset_revrank (key_of p0) l) as [R0|] eqn:Hr0; [|destruct Hin].
      destruct Hin as [[= <- <-]|[]]. split; [now left|]. auto.
    + destruct (IH _ _ _ Hin) as (Hp & Hr & Hh).
      split; [now right|]. split; [exact Hr|].
      destruct (has inc (key_of p)) eqn:Hinc; [|reflexivity].
      exfalso. apply has_In in Hinc.
      assert (Habs : has (inc ++ [key_of p0]) (key_of p) = true)
        by (apply has_In, in_or_app; now left).
      congruence.
Qed.

Lemma shown_players_later l players : forall inc p R k,
  In (p, R) (shown_players l players (inc ++ [k])) -> key_of p <> k.
Proof.
  intros inc p R k Hin Heq.
  destruct (shown_players_sound _ _ _ _ _ Hin) as (_ & _ & Hh).
  assert (Habs : has (inc ++ [k]) (key_of p) = true)
    by (apply has_In, in_or_app; right; left; now symmetry).
  congruence.
Qed.

Lemma shown_players_complete l players : forall inc p R,
  In p players -> zset_revrank (key_of p) l = Some R ->
  has inc (key_of p) = false ->
  exists p', In (p', R) (shown_players l players inc) /\ key_of p' = key_of p.
Proof.
  induction players as [|p0 rest IH]; intros inc p R Hin Hr Hh; [destruct Hin|].
  cbn [shown_players].
  destruct (string_dec (key_of p0) (key_of p)) as [Hk|Hk].
  - rewrite Hk, Hh, Hr. exists p0. split; [now left | exact Hk].
  - destruct Hin as [->|Hin]; [contradiction|].
    destruct (has inc (key_of p0)).
    + now apply IH.
    + destruct (IH (inc ++ [key_of p0]) p R Hin Hr) as (p' & Hp' & Hk').
      * destruct (has (inc ++ [key_of p0]) (key_of p)) eqn:Hinc; [|reflexivity].
        apply has_In, in_app_or in Hinc. destruct Hinc as [Hinc|[Hinc|[]]].
        -- apply has_In in Hinc. congruence.
        -- contradiction.
      * exists p'. split; [|exact Hk']. apply in_or_app. now right.
Qed.

Lemma shown_players_length l players : forall inc,
  (List.length (shown_players l players inc) <= List.length players)%nat.
Proof.
  induction players as [|p rest IH]; intros inc; [apply le_n|].
  cbn [shown_players List.length]. destruct (has inc (key_of p)).
  - specialize (IH inc). lia.
  - rewrite length_app. specialize (IH (inc ++ [key_of p])).
    destruct (zset_revrank (key_of p) l); simpl; lia.
Qed.

(** The matched players' part of the results, whatever the schedule. *)
Lemma getSearchResults_cores schedule players (w : World num) :
  map (@result_core num) (fst (getSearchResults sql_id_eq schedule players w))
  = map (core_of (leaderboard w)) (shown_players (leaderboard w) players []).
Proof.
  unfold getSearchResults.
  pose proof (include_matched_shown (leaderboard w) players []) as Hshown.
  destruct (include_matched players []) as [adm inc]. cbn [fst] in Hshown.
  unfold bind.
  pose proof (mapM_fetch_heads adm w) as Hheads.
  destruct (mapM (fetch sql_id_eq) adm w) as [tasks w1]. cbn [fst] in Hheads.
  pose proof (resume_all_heads schedule (inc, tasks)) as Hsame.
  destruct (fold_left resume schedule (inc, tasks)) as [inc' tasks'].
  cbn [snd] in Hsame. cbn [fst ret].
  rewrite <- Hheads, <- Hsame, non_null_map in Hshown.
  rewrite map_map.
  transitivity
    (map (fun a : Player * Z * option num =>
            (key_of (fst (fst a)), snd (fst a) + 1, name (fst (fst a)),
             country (fst (fst a)), country_code (fst (fst a)),
             Number_of (snd a)))
         (map (@task_head num) (non_null tasks'))).
  - rewrite map_map. reflexivity.
  - rewrite Hshown, map_map. reflexivity.
Qed.

(** Sorting by rank. *)
Lemma insert_by_rank_In x y : forall s,
  In y (insert_by_rank x s) <-> y = x \/ In y s.
Proof.
  induction s as [|z s IH]; simpl.
  - intuition.
  - destruct (snd x <=? snd z); simpl; [intuition|].
    rewrite IH. intuition.
Qed.

Lemma sort_by_rank_In y : forall s, In y (sort_by_rank s) <-> In y s.
Proof.
  induction s as [|x s IH]; simpl; [reflexivity|].
  rewrite insert_by_rank_In, IH. intuition.
Qed.

Lemma insert_by_rank_sorted x : forall s,
  StronglySorted (fun a b : Player * Z => snd a <= snd b) s ->
  StronglySorted (fun a b : Player * Z => snd a <= snd b) (insert_by_rank x s).
Proof.
  induction s as [|z s IH]; intros Hs; simpl.
  - constructor; constructor.
  - inversion Hs as [|? ? Hs' Hz]; subst.
    destruct (Z.leb_spec (snd x) (snd z)).
    + constructor; [exact Hs|]. constructor; [assumption|].
      eapply Forall_impl; [|exact Hz]. simpl. intros; lia.
    + constructor; [now apply IH|].
      apply Forall_forall. intros y Hy. apply insert_by_rank_In in Hy.
      destruct Hy as [->|Hy]; [lia|].
      rewrite Forall_forall in Hz. now apply Hz.
Qed.

Lemma sort_by_rank_sorted : forall s,
  StronglySorted (fun a b : Player * Z => snd a <= snd b) (sort_by_rank s).
Proof.
  induction s as [|x s IH]; simpl; [constructor|].
  now apply insert_by_rank_sorted.
Qed.

(** Players sorted by the rank they have in [l] are answered for in strictly
    ascending rank. *)
Lemma shown_players_ascending l : forall (xs : list (Player * Z)) inc,
  StronglySorted (fun a b : Player * Z => snd a <= snd b) xs ->
  (forall x, In x xs -> zset_revrank (key_of (fst x)) l = Some (snd x - 1)) ->
  StronglySorted Z.lt
    (map (fun a : Player * Z => snd a + 1) (shown_players l (map fst xs) inc)).
Proof.
  induction xs as [|x xs IH]; intros inc Hsorted Hrank; [constructor|].
  inversion Hsorted as [|? ? Hs' Hx]; subst.
  assert (Hrank' : forall y, In y xs ->
                     zset_revrank (key_of (fst y)) l = Some (snd y - 1))
    by (intros y Hy; apply Hrank; now right).
  cbn [map shown_players].
  destruct (has inc (key_of (fst x))); [now apply IH|].
  rewrite (Hrank x (or_introl eq_refl)). cbn [app map].
  constructor; [now apply IH|].
  apply Forall_forall. intros v Hv. apply in_map_iff in Hv.
  destruct Hv as ([p R] & <- & Hin). cbn [snd].
  assert (Hkey : key_of p <> key_of (fst x))
    by (eapply shown_players_later; exact Hin).
  destruct (shown_players_sound _ _ _ _ _ Hin) as (Hp & HR & _).
  apply in_map_iff in Hp. destruct Hp as (y & <- & Hy).
  rewrite (Hrank' y Hy) in HR. injection HR as <-.
  rewrite Forall_forall in Hx. specialize (Hx y Hy). cbn beta in Hx.
  assert (Hne : snd x - 1 <> snd y - 1).
  { intros Heq. apply Hkey.
    eapply zset_revrank_inj; [apply (Hrank' y Hy)|].
    rewrite <- Heq. apply Hrank. now left. }
  lia.
Qed.

(** Reading the ranks of the matched players. *)
Lemma ranks_read (matched : list Player) : forall w : World num,
  fst (mapM (fun player =>
               rank <- zRevRank (Z_toString (id player)) ;;
               ret (option_map (fun r => (player, r + 1)) rank))
            matched w)
  = map (fun p => option_map (fun r => (p, r + 1))
                             (zset_revrank (key_of p) (leaderboard w)))
        matched
  /\ leaderboard
       (snd (mapM (fun player =>
                     rank <- zRevRank (Z_toString (id player)) ;;
                     ret (option_map (fun r => (player, r + 1)) rank))
                  matched w))
     = leaderboard w.
Proof.
  induction matched as [|p matched IH]; intros w; [split; reflexivity|].
  rewrite mapM_cons. cbn [fst snd map].
  match goal with
  | |- context [mapM ?f matched ?w0] => destruct (IH w0) as [Hv Hl]
  end.
  rewrite Hv, Hl. split; reflexivity.
Qed.

Lemma ranked_pairs (matched : list Player) l x :
  In x (non_null (map (fun p => option_map (fun r => (p, r + 1))
                                           (zset_revrank (key_of p) l))
                      matched))
  <-> In (fst x) matched /\ zset_revrank (key_of (fst x)) l = Some (snd x - 1).
Proof.
  split.
  - intros Hx. apply in_non_null, in_map_iff in Hx.
    destruct Hx as (p & Hp & Hin).
    destruct (zset_revrank (key_of p) l) as [R|] eqn:HR; [|discriminate].
    injection Hp as <-. cbn [fst snd]. split; [exact Hin|].
    rewrite HR. f_equal. lia.
  - intros [Hin HR]. apply non_null_In, in_map_iff.
    exists (fst x). split; [|exact Hin]. rewrite HR. simpl.
    destruct x as [p r]. cbn [fst snd]. do 2 f_equal. lia.
Qed.
End SearchOrder.

(** For every order in which the neighbours' profile lookups answer, the
    matched players' part of the search results is the same: one result for
    each distinct id among the players handed in that has a rank, in the
    order handed in, with the rank read plus one and the score read (0 when
    null).  Hence every player handed in that is ranked is shown by id, and
    there are never more results than players. *)
Theorem search_results_cover_ranked_matches
  {num : Type} `{JsNumber num} (sql_id_eq : JsValue num -> Z -> bool)
  (schedule : list (nat * nat)) (players : list Player) (w : World num) :
  let l := leaderboard w in
  let results := fst (getSearchResults sql_id_eq schedule players w) in
  map (@result_core num) results = map (core_of l) (shown_players l players [])
  /\ (forall p R,
        In p players -> zset_revrank (key_of p) l = Some R ->
        exists r,
          In r results /\ r_id r = key_of p /\ r_ranking r = R + 1
          /\ r_money r = Number_of (zset_score (key_of p) l))
  /\ (List.length results <= List.length players)%nat.
Proof.
  intros l results.
  assert (Hc : map (@result_core num) results
               = map (core_of l) (shown_players l players []))
    by apply getSearchResults_cores.
  split; [exact Hc|]. split.
  - intros p R Hin HR.
    destruct (@shown_players_complete num _ l players [] p R Hin HR eq_refl)
      as (p' & Hp' & Hk).
    apply (in_map (core_of l)) in Hp'. rewrite <- Hc in Hp'.
    apply in_map_iff in Hp'. destruct Hp' as (r & Hr & Hrin).
    exists r. split; [exact Hrin|].
    unfold result_core, core_of in Hr. cbn [fst snd] in Hr.
    injection Hr as Hid Hrank _ _ _ Hmoney.
    rewrite Hid, Hrank, Hmoney, Hk. auto.
  - apply (f_equal (@List.length _)) in Hc. rewrite !length_map in Hc.
    rewrite Hc. apply shown_players_length.
Qed.

(** The search results of the combined view come in strictly ascending rank:
    for a query that is not empty and a leaderboard that is not empty, every
    player whose name matches and who has a rank is shown once, with that
    rank plus one; every result is such a player; and a result stands before
    another exactly when its rank is better.  searchResults is null only
    when no name matches. *)
Theorem combined_view_results_by_rank
  {num : Type} `{JsNumber num} (sql_id_eq : JsValue num -> Z -> bool)
  (sql_like : string -> string -> bool)
  (schedule : list (nat * nat)) (q : string) (w : World num)
  (Hq : q <> "") (Hranked : leaderboard w <> []) :
  match searchResults
          (payload (fst (top_ranking_data sql_id_eq sql_like schedule (Some q) w)))
  with
  | Some results =>
      StronglySorted Z.lt (map (@r_ranking num) results)
      /\ (forall p R,
            In p (players w) -> sql_like (name p) q = true ->
            zset_revrank (key_of p) (leaderboard w) = Some R ->
            exists r, In r results /\ r_id r = key_of p /\ r_ranking r = R + 1)
      /\ (forall r,
            In r results ->
            exists p,
              In p (players w) /\ sql_like (name p) q = true
              /\ r_id r = key_of p /\ r_playerName r = name p
              /\ zset_revrank (key_of p) (leaderboard w)
                 = Some (r_ranking r - 1))
  | None => filter (fun p => sql_like (name p) q) (players w) = []
  end.
Proof.
  unfold top_ranking_data. step.
  destruct (quiet_getTopRankingPlayers sql_id_eq w) as [(Hp1 & _ & Hl1 & _) _].
  destruct (getTopRankingPlayers sql_id_eq w) as [top w1]. cbn [fst snd] in *.
  cbn [query_given]. destruct (String.eqb_spec q ""); [contradiction|].
  cbn [negb]. step.
  assert (Hsel : db_select_like_name sql_like q w1
                 = (filter (fun p => sql_like (name p) q) (players w),
                    snd (issue (SELECT_like q) w1)))
    by (rewrite <- Hp1; reflexivity).
  rewrite Hsel. clear Hsel. cbn [fst snd].
  remember (filter (fun p => sql_like (name p) q) (players w)) as matched
    eqn:Hm.
  destruct matched as [|p0 ps]; [reflexivity|].
  cbn [List.length Nat.eqb]. set (matched := p0 :: ps) in *.
  step.
  destruct (ranks_read matched (snd (issue (SELECT_like q) w1))) as [Hv Hl2].
  rewrite Hv. cbn [snd issue leaderboard] in Hl2 |- *. rewrite Hl1 in Hl2 |- *.
  match goal with
  | |- context [snd (mapM ?f matched ?w0)] =>
      set (w3 := snd (mapM f matched w0)) in *
  end.
  set (filtered := sort_by_rank _).
  step. cbn [fst ret payload searchResults].
  set (results := fst (getSearchResults sql_id_eq schedule (map fst filtered) w3)).
  assert (Hc : map (@result_core num) results
               = map (core_of (leaderboard w))
                     (shown_players (leaderboard w) (map fst filtered) []))
    by (rewrite <- Hl2; apply getSearchResults_cores).
  assert (Hfiltered : forall x, In x filtered <->
            In (fst x) matched
            /\ zset_revrank (key_of (fst x)) (leaderboard w) = Some (snd x - 1))
    by (intros x; unfold filtered; rewrite sort_by_rank_In; apply ranked_pairs).
  assert (Hmatched : forall p, In p matched <->
            In p (players w) /\ sql_like (name p) q = true)
    by (intros p; rewrite Hm; apply filter_In).
  split; [|split].
  - replace (map (@r_ranking num) results)
      with (map (fun a : Player * Z => snd a + 1)
                (shown_players (leaderboard w) (map fst filtered) [])).
    + apply shown_players_ascending; [apply sort_by_rank_sorted|].
      intros x Hx. now apply Hfiltered.
    + apply (f_equal (map (fun c : string * Z * string * string * string * num =>
                             snd (fst (fst (fst (fst c))))))) in Hc.
      rewrite !map_map in Hc. symmetry. exact Hc.
  - intros p R Hin Hlike HR.
    assert (Hp : In p (map fst filtered)).
    { apply in_map_iff. exists (p, R + 1). split; [reflexivity|].
      apply Hfiltered. cbn [fst snd]. split; [now apply Hmatched|].
      rewrite HR. f_equal. lia. }
    destruct (@shown_players_complete num _ (leaderboard w) (map fst filtered)
                [] p R Hp HR eq_refl) as (p' & Hp' & Hk).
    apply (in_map (core_of (leaderboard w))) in Hp'. rewrite <- Hc in Hp'.
    apply in_map_iff in Hp'. destruct Hp' as (r & Hr & Hrin).
    exists r. split; [exact Hrin|].
    unfold result_core, core_of in Hr. cbn [fst snd] in Hr.
    injection Hr as Hid Hrank _ _ _ _. rewrite Hid, Hrank, Hk. auto.
  - intros r Hr.
    apply (in_map (@result_core num)) in Hr. rewrite Hc in Hr.
    apply in_map_iff in Hr. destruct Hr as ([p R] & Hcore & Hin).
    destruct (shown_players_sound _ _ _ _ _ Hin) as (Hp & HR & _).
    apply in_map_iff in Hp. destruct Hp as (x & Hx & Hxin).
    apply Hfiltered in Hxin. destruct Hxin as [Hxm _]. rewrite Hx in Hxm.
    apply Hmatched in Hxm. destruct Hxm as [Hpw Hlike].
    unfold result_core, core_of in Hcore. cbn [fst snd] in Hcore.
    injection Hcore as Hid Hrank Hname _ _ _.
    exists p. split; [exact Hpw|]. split; [exact Hlike|].
    split; [now symmetry|]. split; [now symmetry|].
    rewrite HR. f_equal. lia.
Qed.

Lemma combined_view_results_by_rank_witness :
  "Bob" <> "" /\ leaderboard world_two <> []
  /\ match searchResults
             (payload (fst (ranking_data_f [(0, 0); (0, 1)]%nat (Some "Bob")
                              world_two)))
     with
     | Some results => StronglySorted Z.lt (map (@r_ranking float) results)
     | None => False
     end.
Proof.
  assert (Hq : "Bob" <> "") by discriminate.
  assert (Hranked : leaderboard world_two <> []) by discriminate.
  split; [exact Hq|]. split; [exact Hranked|].
  pose proof (@combined_view_results_by_rank float _ integer_id_eq contains
                [(0, 0); (0, 1)]%nat "Bob" world_two Hq Hranked) as Hthm.
  unfold ranking_data_f.
  destruct (searchResults
              (payload (fst (top_ranking_data integer_id_eq contains
                               [(0, 0); (0, 1)]%nat (Some "Bob") world_two))))
    as [results|] eqn:Hres.
  - exact (proj1 Hthm).
  - vm_compute in Hthm. discriminate Hthm.
Defined.

(* ================================================================= *)
(** ** The profiles shown with the neighbours *)

Section NeighbourProfiles.
Context {num : Type} `{JsNumber num}.
Variable sql_id_eq : JsValue num -> Z -> bool.
Implicit Types (t : @Task num) (tasks : list (option (@Task num))).

Lemma getPlayerDetails_of_row (e : ScoreEntry num) (w : World num) :
  details_of_row sql_id_eq (players w)
    (e, fst (getPlayerDetails sql_id_eq (value e) w)).
Proof.
  unfold getPlayerDetails, details_of_row. cbn [fst snd].
  destruct (String.eqb (value e) ""); [now left|].
  unfold db_select_details. run.
  destruct (filter (fun p => sql_id_eq (JStr (value e)) (id p)) (players w))
    as [|p0 rest] eqn:Hf; [now left|].
  right. exists p0.
  assert (Hin : In p0 (filter (fun p => sql_id_eq (JStr (value e)) (id p))
                              (players w)))
    by (rewrite Hf; now left).
  apply filter_In in Hin. destruct Hin as [Hin Hid]. auto.
Qed.

Lemma mapM_details rows (surrounding : list (ScoreEntry num)) :
  forall w : World num,
    rows = players w ->
    Forall (details_of_row sql_id_eq rows)
      (combine surrounding
         (fst (mapM (fun e => getPlayerDetails sql_id_eq (value e))
                    surrounding w))).
Proof.
  induction surrounding as [|e surrounding IH]; intros w Hw; [constructor|].
  rewrite mapM_cons. cbn [fst combine]. constructor.
  - rewrite Hw. apply getPlayerDetails_of_row.
  - apply IH.
    destruct (quiet_getPlayerDetails sql_id_eq (value e) w) as [(Hp & _) _].
    now rewrite Hp.
Qed.

Lemma fetch_profiles a (w : World num) t :
  fst (fetch sql_id_eq a w) = Some t ->
  profiles_ok sql_id_eq (players w) t.
Proof.
  destruct a as [p b]. unfold fetch. destruct b; simpl; [|discriminate].
  unfold zRevRank, zScore, zRangeWithScores. run.
  destruct (zset_revrank (Z_toString (id p)) (leaderboard w)) as [rank|];
    [|discriminate].
  match goal with
  | |- context [mapM ?f ?l ?w0] =>
      pose proof (@mapM_details (players w) l w0 eq_refl) as Hd;
      destruct (mapM f l w0) as [details w3]
  end.
  cbn [fst] in Hd. simpl. intros [= <-].
  split; [exact Hd|]. split; constructor.
Qed.

Lemma mapM_fetch_profiles rows adm : forall w : World num,
  rows = players w ->
  Forall (fun ot => forall t, ot = Some t -> profiles_ok sql_id_eq rows t)
         (fst (mapM (fetch sql_id_eq) adm w)).
Proof.
  induction adm as [|a adm IH]; intros w Hw; [constructor|].
  rewrite mapM_cons. cbn [fst]. constructor.
  - intros t Ht. rewrite Hw. now apply fetch_profiles with (a := a).
  - apply IH. destruct (quiet_fetch sql_id_eq a w) as [(Hp & _) _].
    now rewrite Hp.
Qed.

Lemma Forall_snoc {A} (P : A -> Prop) (l : list A) (a : A) :
  Forall P l -> P a -> Forall P (l ++ [a]).
Proof. intros Hl Ha. apply Forall_app. split; [exact Hl | now constructor]. Qed.

Lemma resume_profiles rows (st : @Pending num) ev :
  Forall (fun ot => forall t, ot = Some t -> profiles_ok sql_id_eq rows t)
         (snd st) ->
  Forall (fun ot => forall t, ot = Some t -> profiles_ok sql_id_eq rows t)
         (snd (resume st ev)).
Proof.
  destruct st as [inc tasks], ev as [i index]. cbn [snd]. intros Hok.
  unfold resume.
  destruct (nth_error tasks i) as [[t|]|] eqn:Ht; try exact Hok.
  destruct (nth_error (surroundingPlayers t) index) as [[e d]|] eqn:He;
    try exact Hok.
  destruct (d_name d) as [n|] eqn:Hn; try exact Hok.
  destruct (d_country d) as [c|] eqn:Hc; try exact Hok.
  destruct (d_country_code d) as [cc|] eqn:Hcc; try exact Hok.
  assert (Ht_ok : profiles_ok sql_id_eq rows t).
  { rewrite Forall_forall in Hok. apply (Hok (Some t)); [|reflexivity].
    eapply nth_error_In; eauto. }
  destruct Ht_ok as (Hsur & Hprev & Hnext).
  assert (Hrow : profile_of sql_id_eq rows
                   {| n_ranking := task_startRank t + Z.of_nat index + 1;
                      n_id := value e; n_playerName := n; n_country := c;
                      n_countryCode := cc; n_money := score e |}).
  { rewrite Forall_forall in Hsur.
    destruct (Hsur (e, d) (nth_error_In _ _ He)) as [Hnone|(p & Hp & Hid & Hd)];
      cbn [fst snd] in *.
    - rewrite Hnone in Hn. discriminate.
    - rewrite Hd in Hn, Hc, Hcc. cbn in Hn, Hc, Hcc.
      injection Hn as <-. injection Hc as <-. injection Hcc as <-.
      exists p. cbn. auto. }
  destruct (_ <? _).
  - destruct (negb (has inc (value e))); [|exact Hok]. cbn [snd].
    apply Forall_replace_nth; [exact Hok|]. intros t' [= <-].
    split; [exact Hsur|]. split; [|exact Hnext].
    cbn [push_prev task_prev]. now apply Forall_snoc.
  - destruct (_ >? _); [|exact Hok].
    destruct (negb (has inc (value e))); [|exact Hok]. cbn [snd].
    apply Forall_replace_nth; [exact Hok|]. intros t' [= <-].
    split; [exact Hsur|]. split; [exact Hprev|].
    cbn [push_next task_next]. now apply Forall_snoc.
Qed.

Lemma resume_all_profiles rows schedule : forall st : @Pending num,
  Forall (fun ot => forall t, ot = Some t -> profiles_ok sql_id_eq rows t)
         (snd st) ->
  Forall (fun ot => forall t, ot = Some t -> profiles_ok sql_id_eq rows t)
         (snd (fold_left resume schedule st)).
Proof.
  induction schedule as [|ev schedule IH]; intros st Hst; [exact Hst|].
  simpl. apply IH. now apply resume_profiles.
Qed.
End NeighbourProfiles.

(** Every neighbour row of every search result carries the name, country and
    country code of a row of [players] that MySQL matches with the row's id,
    in whatever order the profile lookups answer: a window entry whose id
    has no row in [players] is never listed, and no profile is made up. *)
Theorem neighbours_carry_stored_profiles
  {num : Type} `{JsNumber num} (sql_id_eq : JsValue num -> Z -> bool)
  (schedule : list (nat * nat)) (matched : list Player) (w : World num) :
  Forall (fun r : @SearchResult num =>
            Forall (profile_of sql_id_eq (players w)) (prevPlayers r)
            /\ Forall (profile_of sql_id_eq (players w)) (nextPlayers r))
         (fst (getSearchResults sql_id_eq schedule matched w)).
Proof.
  unfold getSearchResults.
  destruct (include_matched matched []) as [adm inc]. unfold bind.
  assert (Hok : Forall (fun ot => forall t, ot = Some t ->
                          profiles_ok sql_id_eq (players w) t)
                       (fst (mapM (fetch sql_id_eq) adm w)))
    by now apply mapM_fetch_profiles.
  destruct (mapM (fetch sql_id_eq) adm w) as [tasks w1]. cbn [fst] in Hok.
  assert (Hok' : Forall (fun ot => forall t, ot = Some t ->
                           profiles_ok sql_id_eq (players w) t)
                        (snd (fold_left resume schedule (inc, tasks))))
    by now apply resume_all_profiles.
  destruct (fold_left resume schedule (inc, tasks)) as [inc' tasks'].
  cbn [snd] in Hok'. cbn [fst ret].
  apply Forall_forall. intros r Hr. apply in_map_iff in Hr.
  destruct Hr as (t & <- & Ht). apply in_non_null in Ht.
  rewrite Forall_forall in Hok'.
  destruct (Hok' (Some t) Ht t eq_refl) as (_ & Hprev & Hnext).
  split; assumption.
Qed.

(* ================================================================= *)
(** ** The other revisions of the handlers *)

(** The router build of the earn handler never looks the player up: a
    request with a truthy playerId and a number amount which Redis accepts
    (the new score is a number, and INCRBYFLOAT answers with a value [v]) is
    answered 200 after two Redis commands and no query, whether or not the
    id is in [players]; it credits the score stored under the id's string
    (creating the entry when there is none) and leaves in the pool what
    Redis computed.  On Scenario A's world an earning for the unknown id
    9999 creates a score of 100. *)
Theorem router_earn_credits_unknown_player
  {num : Type} `{JsNumber num} (Number_toString : num -> string)
  (redis_incrbyfloat : num -> num -> option num)
  (w : World num) (playerId : JsValue num) (amount v : num)
  (Hid : truthy playerId = true)
  (Hscore : nis_nan (new_score amount (toString Number_toString playerId) w)
            = false)
  (Hpool : redis_incrbyfloat (pool_balance w) (nmul amount (nlit 0.02)) = Some v) :
  let key := toString Number_toString playerId in
  let r := router_leaderboard_earn Number_toString redis_incrbyfloat
             playerId (JNum amount) w in
  (status (fst r) = 200
   /\ new_commands w (snd r)
      = [ZINCRBY amount key; INCRBYFLOAT (nmul amount (nlit 0.02))]
   /\ zset_score key (leaderboard (snd r)) = Some (new_score amount key w)
   /\ prize_pool (snd r) = Some v
   /\ players (snd r) = players w)
  /\ (let r := router_leaderboard_earn integer_toString binary64_incrbyfloat
                 (JNum (nlit 9999)) (JNum (nlit 100)) world_ada in
      known integer_id_eq world_ada (JNum (nlit 9999)) = []
      /\ status (fst r) = 200
      /\ zset_score "9999" (leaderboard (snd r)) = Some (nlit 100)
      /\ prize_pool (snd r) = Some (nlit 2)).
Proof.
  intros key r. split; [|vm_compute; repeat split; reflexivity].
  subst r key. unfold router_leaderboard_earn. rewrite Hid.
  cbn [negb orb is_number typeof].
  unfold try_zIncrBy, zIncrBy, incrByFloat. run.
  unfold new_score in Hscore. rewrite Hscore. simpl.
  unfold pool_balance in Hpool. rewrite Hpool. simpl.
  split; [reflexivity|]. split; [|split; [|split; reflexivity]].
  - unfold new_commands. simpl. rewrite <- app_assoc. apply skipn_app_exact.
  - apply zset_score_incrby_same.
Qed.

Lemma router_earn_credits_unknown_player_witness :
  truthy (JNum (nlit 9999 : float)) = true
  /\ nis_nan (new_score (nlit 100) "9999" world_ada) = false
  /\ binary64_incrbyfloat (pool_balance world_ada) (nmul (nlit 100) (nlit 0.02))
     = Some (nlit 2)
  /\ status (fst (router_leaderboard_earn integer_toString binary64_incrbyfloat
                    (JNum (nlit 9999)) (JNum (nlit 100)) world_ada)) = 200.
Proof.
  assert (Hid : truthy (JNum (nlit 9999 : float)) = true)
    by (vm_compute; reflexivity).
  assert (Hscore : nis_nan (new_score (nlit 100)
                              (toString integer_toString (JNum (nlit 9999)))
                              world_ada) = false)
    by (vm_compute; reflexivity).
  assert (Hpool : binary64_incrbyfloat (pool_balance world_ada)
                    (nmul (nlit 100) (nlit 0.02)) = Some (nlit 2))
    by (vm_compute; reflexivity).
  split; [exact Hid|]. split; [exact Hscore|]. split; [exact Hpool|].
  exact (proj1 (proj1 (@router_earn_credits_unknown_player float _
                         integer_toString binary64_incrbyfloat world_ada
                         (JNum (nlit 9999)) (nlit 100) (nlit 2)
                         Hid Hscore Hpool))).
Defined.

Section Unranked.
Context {num : Type} `{JsNumber num}.
Variable sql_id_eq : JsValue num -> Z -> bool.

Lemma window_entry_has_score (l : list (ScoreEntry num)) cs (t : @Task num) i e d :
  window_of l cs t ->
  nth_error (surroundingPlayers t) i = Some (e, d) ->
  zset_score (value e) l <> None.
Proof.
  intros (_ & _ & _ & Hwin & _) Hnth.
  apply member_has_score. apply (zset_range_rev_In (task_startRank t) (task_endRank t)).
  rewrite <- Hwin. apply in_map_iff. exists (e, d). split; [reflexivity|].
  eapply nth_error_In; eauto.
Qed.

Lemma task_ids_have_scores ps (l : list (ScoreEntry num)) cs (t : @Task num) k :
  task_ok ps l cs t -> In k (task_ids t) -> zset_score k l <> None.
Proof.
  intros (_ & Hwin & Hprev & Hnext) Hk. unfold task_ids in Hk.
  destruct Hk as [<-|Hk].
  - destruct Hwin as (Hrank & _). intros Hnone.
    apply revrank_none_iff_no_score in Hnone. congruence.
  - apply in_app_or in Hk.
    assert (Hrows : forall better rows,
              Forall (row_at t better) rows -> In k (map (@n_id num) rows) ->
              zset_score k l <> None).
    { intros better rows Hrows Hin. apply in_map_iff in Hin.
      destruct Hin as (row & <- & Hrow).
      rewrite Forall_forall in Hrows.
      destruct (Hrows row Hrow) as (i & e & d & Hnth & -> & _).
      eapply window_entry_has_score; eauto. }
    destruct Hk as [Hk|Hk]; eauto.
Qed.
End Unranked.

(** getSearchResults only reads, and it does not repair: both stores hold
    afterwards what they held before, and a matched player without an entry
    in the sorted set still has none; that player's id is in no result,
    neither as the matched player nor as a neighbour.  (Scenario D on this
    revision: the search for Bob answers with no result.) *)
Theorem getSearchResults_drops_unranked_player
  {num : Type} `{JsNumber num} (sql_id_eq : JsValue num -> Z -> bool)
  (schedule : list (nat * nat)) (matched : list Player) (w : World num)
  (p : Player)
  (Hunranked : zset_score (key_of p) (leaderboard w) = None) :
  let r := getSearchResults sql_id_eq schedule matched w in
  (same_stores w (snd r)
   /\ zset_score (key_of p) (leaderboard (snd r)) = None
   /\ ~ In (key_of p) (flat_map (@result_ids num) (fst r)))
  /\ (let r := getSearchResults integer_id_eq [] [bob] world_unranked in
      fst r = [] /\ zset_score "2" (leaderboard (snd r)) = None).
Proof.
  intros r. split; [|vm_compute; split; reflexivity].
  assert (Hsame : same_stores w (snd r))
    by apply (quiet_getSearchResults sql_id_eq schedule matched w).
  split; [exact Hsame|]. split.
  - destruct Hsame as (_ & _ & Hl & _). now rewrite Hl.
  - destruct (getSearchResults_spec sql_id_eq schedule matched w)
      as (_ & tasks & Hres & Hok & _).
    fold r in Hres, Hok. rewrite Hres, result_ids_of. unfold ids_of.
    intros Hin. apply in_flat_map in Hin. destruct Hin as (t & Ht & Hk).
    apply in_non_null in Ht. rewrite Forall_forall in Hok.
    eapply task_ids_have_scores;
      [exact (Hok _ Ht t eq_refl) | exact Hk | exact Hunranked].
Qed.

Lemma getSearchResults_drops_unranked_player_witness :
  zset_score (key_of bob) (leaderboard world_unranked) = None
  /\ ~ In (key_of bob)
       (flat_map (@result_ids float)
          (fst (getSearchResults integer_id_eq [] [bob] world_unranked))).
Proof.
  assert (Hunranked : zset_score (key_of bob) (leaderboard world_unranked) = None)
    by reflexivity.
  split; [exact Hunranked|].
  exact (proj2 (proj2 (proj1 (@getSearchResults_drops_unranked_player float _
                                integer_id_eq [] [bob] world_unranked bob
                                Hunranked)))).
Defined.

Section UnrankedMatch.
Context {num : Type} `{JsNumber num}.
Variable sql_id_eq : JsValue num -> Z -> bool.

(** An id without an entry in the sorted set is shown by no result. *)
Lemma unranked_in_no_result schedule (matched : list Player) (w : World num) k :
  zset_score k (leaderboard w) = None ->
  ~ In k (flat_map (@result_ids num)
            (fst (getSearchResults sql_id_eq schedule matched w))).
Proof.
  intros Hunranked.
  destruct (getSearchResults_spec sql_id_eq schedule matched w)
    as (_ & tasks & Hres & Hok & _).
  rewrite Hres, result_ids_of. unfold ids_of.
  intros Hin. apply in_flat_map in Hin. destruct Hin as (t & Ht & Hk).
  apply in_non_null in Ht. rewrite Forall_forall in Hok.
  eapply task_ids_have_scores;
    [exact (Hok _ Ht t eq_refl) | exact Hk | exact Hunranked].
Qed.
End UnrankedMatch.

(** C5, as the code has it.  In the last revision the search is part of the
    combined view, and it neither answers for a matched player without an
    entry in the sorted set nor repairs the set: for a query that is not
    empty and a leaderboard that is not empty, the route answers 200 with a
    list of search results in which that player's id does not occur, neither
    as a matched player nor as a neighbour; every result it does carry
    belongs to a member of the sorted set and shows that member's rank plus
    one; the list is empty when no matched player has an entry; both stores
    hold afterwards what they held before, so the player still has no entry.
    (Scenario D on this revision: Bob is registered and unranked; a search
    for "Bob" answers 200 with no result and a later lookup of id 2 finds
    nothing.) *)
Theorem search_omits_unranked_player
  {num : Type} `{JsNumber num} (sql_id_eq : JsValue num -> Z -> bool)
  (sql_like : string -> string -> bool)
  (schedule : list (nat * nat)) (q : string) (w : World num) (player : Player)
  (Hq : q <> "") (Hranked : leaderboard w <> [])
  (Hplayer : In player (players w))
  (Hlike : sql_like (name player) q = true)
  (Hunranked : zset_score (key_of player) (leaderboard w) = None) :
  let r := top_ranking_data sql_id_eq sql_like schedule (Some q) w in
  (status (fst r) = 200
   /\ same_stores w (snd r)
   /\ zset_score (key_of player) (leaderboard (snd r)) = None
   /\ zset_revrank (key_of player) (leaderboard (snd r)) = None
   /\ exists results,
        searchResults (payload (fst r)) = Some results
        /\ ~ In (key_of player) (flat_map (@result_ids num) results)
        /\ (forall row, In row results ->
              exists R,
                zset_revrank (r_id row) (leaderboard w) = Some R
                /\ r_ranking row = R + 1)
        /\ ((forall p, In p (players w) -> sql_like (name p) q = true ->
                       zset_score (key_of p) (leaderboard w) = None) ->
            results = []))
  /\ (let r := ranking_data_f [] (Some "Bob") world_unranked in
      status (fst r) = 200
      /\ searchResults (payload (fst r)) = Some []
      /\ leaderboard (snd r) = leaderboard world_unranked
      /\ zset_score "2" (leaderboard (snd r)) = None).
Proof.
  intros r. split; [|vm_compute; repeat split; reflexivity].
  assert (Hsame : same_stores w (snd r))
    by apply (quiet_top_ranking_data sql_id_eq sql_like schedule (Some q) w).
  assert (Hstill : zset_score (key_of player) (leaderboard (snd r)) = None)
    by (destruct Hsame as (_ & _ & Hl & _); now rewrite Hl).
  assert (Hrun : status (fst r) = 200
                 /\ exists results,
                      searchResults (payload (fst r)) = Some results
                      /\ ~ In (key_of player) (flat_map (@result_ids num) results)
                      /\ (forall row, In row results ->
                            exists R,
                              zset_revrank (r_id row) (leaderboard w) = Some R
                              /\ r_ranking row = R + 1)
                      /\ ((forall p, In p (players w) ->
                                     sql_like (name p) q = true ->
                                     zset_score (key_of p) (leaderboard w) = None) ->
                          results = [])).
  { subst r. clear Hsame Hstill. unfold top_ranking_data. step.
    destruct (quiet_getTopRankingPlayers sql_id_eq w) as [(Hp1 & _ & Hl1 & _) _].
    destruct (getTopRankingPlayers sql_id_eq w) as [top w1]. cbn [fst snd] in *.
    cbn [query_given]. destruct (String.eqb_spec q ""); [contradiction|].
    cbn [negb]. step.
    assert (Hsel : db_select_like_name sql_like q w1
                   = (filter (fun p => sql_like (name p) q) (players w),
                      snd (issue (SELECT_like q) w1)))
      by (rewrite <- Hp1; reflexivity).
    rewrite Hsel. clear Hsel. cbn [fst snd].
    assert (Hfound : In player (filter (fun p => sql_like (name p) q) (players w)))
      by (apply filter_In; split; assumption).
    remember (filter (fun p => sql_like (name p) q) (players w)) as matched
      eqn:Hm.
    destruct matched as [|p0 ps]; [destruct Hfound|].
    cbn [List.length Nat.eqb]. set (matched := p0 :: ps) in *.
    step.
    destruct (ranks_read matched (snd (issue (SELECT_like q) w1))) as [Hv Hl2].
    rewrite Hv. cbn [snd issue leaderboard] in Hl2 |- *. rewrite Hl1 in Hl2 |- *.
    match goal with
    | |- context [snd (mapM ?f matched ?w0)] =>
        set (w3 := snd (mapM f matched w0)) in *
    end.
    set (filtered := sort_by_rank _).
    step. cbn [fst ret payload searchResults status].
    set (results := fst (getSearchResults sql_id_eq schedule (map fst filtered) w3)).
    assert (Hc : map (@result_core num) results
                 = map (core_of (leaderboard w))
                       (shown_players (leaderboard w) (map fst filtered) []))
      by (rewrite <- Hl2; apply getSearchResults_cores).
    assert (Hfiltered : forall x, In x filtered <->
              In (fst x) matched
              /\ zset_revrank (key_of (fst x)) (leaderboard w) = Some (snd x - 1))
      by (intros x; unfold filtered; rewrite sort_by_rank_In; apply ranked_pairs).
    split; [reflexivity|]. exists results. split; [reflexivity|].
    split; [|split].
    - apply unranked_in_no_result. now rewrite Hl2.
    - intros row Hrow.
      apply (in_map (@result_core num)) in Hrow. rewrite Hc in Hrow.
      apply in_map_iff in Hrow. destruct Hrow as ([p R] & Hcore & Hin).
      destruct (shown_players_sound _ _ _ _ _ Hin) as (_ & HR & _).
      unfold result_core, core_of in Hcore. cbn [fst snd] in Hcore.
      injection Hcore as Hid Hrank _ _ _ _.
      exists R. rewrite <- Hid, <- Hrank. split; [exact HR|reflexivity].
    - intros Hnobody.
      assert (Hnone : filtered = []).
      { destruct filtered as [|x xs] eqn:Hx; [reflexivity|]. exfalso.
        destruct (proj1 (Hfiltered x) (or_introl eq_refl)) as [Hxm HxR].
        rewrite Hm in Hxm. apply filter_In in Hxm. destruct Hxm as [Hxp Hxl].
        specialize (Hnobody _ Hxp Hxl).
        apply revrank_none_iff_no_score in Hnobody. congruence. }
      rewrite Hnone in Hc. cbn [map shown_players] in Hc.
      destruct results; [reflexivity|discriminate Hc]. }
  destruct Hrun as [Hstatus Hresults].
  split; [exact Hstatus|]. split; [exact Hsame|]. split; [exact Hstill|].
  split; [now apply revrank_none_iff_no_score|]. exact Hresults.
Qed.

Lemma search_omits_unranked_player_witness :
  "Bob" <> "" /\ leaderboard world_unranked <> []
  /\ In bob (players world_unranked)
  /\ contains (name bob) "Bob" = true
  /\ zset_score (key_of bob) (leaderboard world_unranked) = None
  /\ zset_score (key_of bob)
       (leaderboard (snd (ranking_data_f [] (Some "Bob") world_unranked))) = None.
Proof.
  assert (Hq : "Bob" <> "") by discriminate.
  assert (Hranked : leaderboard world_unranked <> []) by discriminate.
  assert (Hplayer : In bob (players world_unranked))
    by (vm_compute; right; left; reflexivity).
  assert (Hlike : contains (name bob) "Bob" = true) by reflexivity.
  assert (Hunranked : zset_score (key_of bob) (leaderboard world_unranked) = None)
    by reflexivity.
  split; [exact Hq|]. split; [exact Hranked|]. split; [exact Hplayer|].
  split; [exact Hlike|]. split; [exact Hunranked|].
  exact (proj1 (proj2 (proj2 (proj1
           (@search_omits_unranked_player float _ integer_id_eq contains
              [] "Bob" world_unranked bob
              Hq Hranked Hplayer Hlike Hunranked))))).
Defined.

(** C5, as the claim has it, fails on the last revision: Bob is registered
    and has no entry in the sorted set; the search for "Bob" answers with no
    row for him (so none with a null rank and a zero score), no ZADD is sent,
    and the sorted set has no entry for id 2 afterwards. *)
Lemma search_does_not_heal :
  let r := ranking_data_f [] (Some "Bob") world_unranked in
  In bob (players world_unranked)
  /\ zset_score "2" (leaderboard world_unranked) = None
  /\ status (fst r) = 200
  /\ searchResults (payload (fst r)) = Some []
  /\ existsb (fun c => match c with ZADD _ _ => true | _ => false end)
             (new_commands world_unranked (snd r)) = false
  /\ zset_score "2" (leaderboard (snd r)) = None
  /\ occurrences "2" (leaderboard (snd r)) = 0%nat.
Proof.
  vm_compute. split; [right; left; reflexivity|]. repeat split; reflexivity.
Qed.

Section RouteWindow.
Context {num : Type} `{JsNumber num}.

Lemma mapM_range (p : Player) (R : Z) : forall pairs (w : World num),
  In (p, Some R) pairs ->
  exists a b,
    issued (snd (mapM heal_or_range pairs w))
    = issued w ++ a ++ ZRANGE_REV (R - 3) (R + 2) :: b.
Proof.
  induction pairs as [|x pairs IH]; intros w Hin; [destruct Hin|].
  rewrite mapM_cons. cbn [snd].
  destruct Hin as [->|Hin].
  - destruct (mapM_appends heal_or_range pairs heal_or_range_appends
                (snd (heal_or_range (p, Some R) w))) as [cs2 Hc2].
    exists [], cs2. rewrite Hc2. simpl. unfold zRangeWithScores. run.
    rewrite <- app_assoc. reflexivity.
  - destruct (IH (snd (heal_or_range x w)) Hin) as (a & b & Hab).
    destruct (heal_or_range_appends x w) as [cs1 Hc1].
    exists (cs1 ++ a), b. rewrite Hab, Hc1, <- !app_assoc. reflexivity.
Qed.
End RouteWindow.

(** The neighbourhood code inside GET /leaderboard/search does not clamp its
    window: for every matched player found at 0-based rank R the range sent
    to Redis is R-3 .. R+2, also when R-3 is negative (which Redis counts
    from the end of the set), and the route answers 200 or 500.  For Ada at
    rank 0 of two players the range sent is -3 .. 2 and the answer is 500,
    the neighbourhood code having thrown on a profile it found. *)
Theorem search_route_window_not_clamped
  {num : Type} `{JsNumber num} (sql_id_eq : JsValue num -> Z -> bool)
  (sql_like : string -> string -> bool)
  (q : string) (w : World num) (player : Player) (R : Z)
  (Hq : q <> "")
  (Hmatch : In player (matching sql_like q w))
  (Hrank : zset_revrank (key_of player) (leaderboard w) = Some R) :
  let r := leaderboard_search sql_id_eq sql_like (Some q) w in
  (In (ZRANGE_REV (R - 3) (R + 2)) (new_commands w (snd r))
   /\ (status (fst r) = 200 \/ status (fst r) = 500)
   /\ players (snd r) = players w)
  /\ (let r := search_f (Some "Ada") world_two in
      zset_revrank "1" (leaderboard world_two) = Some 0
      /\ In (ZRANGE_REV (-3) 2) (issued (snd r))
      /\ status (fst r) = 500).
Proof.
  intros r. split; [|vm_compute; repeat split; auto 10].
  subst r. unfold leaderboard_search.
  assert (Hg : query_given (Some q) = true).
  { simpl. destruct (String.eqb_spec q ""); [contradiction|reflexivity]. }
  rewrite Hg. cbn [negb]. cbv beta iota zeta.
  set (w1 := {| players := players w; auto_increment := auto_increment w;
                leaderboard := leaderboard w; prize_pool := prize_pool w;
                issued := issued w ++ [SELECT_like q] |}).
  assert (Hsel : db_select_like sql_like q w = (matching sql_like q w, w1))
    by reflexivity.
  step. rewrite Hsel. cbn [fst snd].
  set (matched := matching sql_like q w) in *.
  destruct (In_nth_error _ _ Hmatch) as [i Hi].
  assert (Hlen : (List.length matched =? 0)%nat = false).
  { destruct matched; [destruct i; discriminate|reflexivity]. }
  rewrite Hlen.
  (* first round: ranks *)
  step.
  set (rank_of := fun player0 : Player => zRevRank (Z_toString (id player0))).
  assert (Hq1 : quiet (mapM rank_of matched))
    by (apply quiet_mapM; intros a; apply quiet_zRevRank).
  destruct (Hq1 w1) as [(Hp2 & _) [cs2 Hc2]].
  destruct (mapM_nth (fun w' => leaderboard w' = leaderboard w) rank_of
              (fun a w0 Hw0 =>
                 eq_trans (proj1 (proj2 (proj2 (proj1 (quiet_zRevRank _ w0))))) Hw0)
              matched w1 i (a := player) eq_refl Hi) as (wr & Hwr & Hrk).
  assert (Hsome : fst (rank_of player wr) = Some R).
  { unfold rank_of, zRevRank. run. rewrite Hwr. exact Hrank. }
  rewrite Hsome in Hrk.
  set (ranks := fst (mapM rank_of matched w1)) in *.
  set (w2 := snd (mapM rank_of matched w1)) in *.
  (* second round: scores *)
  step.
  set (score_of := fun player0 : Player => zScore (Z_toString (id player0))).
  assert (Hq2 : quiet (mapM score_of matched))
    by (apply quiet_mapM; intros a; apply quiet_zScore).
  destruct (Hq2 w2) as [(Hp3 & _) [cs3 Hc3]].
  set (scores := fst (mapM score_of matched w2)) in *.
  set (w3 := snd (mapM score_of matched w2)) in *.
  (* third round: heal or read the window *)
  step.
  assert (Hpair : nth_error (combine matched ranks) i = Some (player, Some R))
    by (now apply nth_error_combine).
  destruct (mapM_range player R (combine matched ranks) w3
              (nth_error_In _ _ Hpair)) as (a & b & Hc4).
  assert (Hp4 : players (snd (mapM heal_or_range (combine matched ranks) w3))
                = players w3).
  { apply (mapM_snd_inv (fun w' => players w' = players w3)); [|reflexivity].
    intros [p0 [rk|]] w0 Hw0; simpl.
    - unfold zRangeWithScores. run. exact Hw0.
    - unfold zAdd. run. exact Hw0. }
  set (suspended := fst (mapM heal_or_range (combine matched ranks) w3)) in *.
  set (w4 := snd (mapM heal_or_range (combine matched ranks) w3)) in *.
  (* fourth round: the neighbours' profiles *)
  step.
  assert (Hq4 : quiet (mapM (finish sql_id_eq)
                            (combine (combine matched scores) suspended)))
    by (apply quiet_mapM; intros x; apply quiet_finish).
  destruct (Hq4 w4) as [(Hp5 & _) [cs5 Hc5]].
  set (outcomes := fst (mapM (finish sql_id_eq)
                          (combine (combine matched scores) suspended) w4)) in *.
  set (w5 := snd (mapM (finish sql_id_eq)
                    (combine (combine matched scores) suspended) w4)) in *.
  assert (Hcmd : In (ZRANGE_REV (R - 3) (R + 2)) (new_commands w w5)).
  { erewrite new_commands_app; [|rewrite Hc5, Hc4, Hc3, Hc2; unfold w1; simpl;
                                  rewrite <- !app_assoc; reflexivity].
    repeat (rewrite in_app_iff || simpl). tauto. }
  assert (Hplayers : players w5 = players w)
    by (rewrite Hp5, Hp4, Hp3, Hp2; reflexivity).
  destruct (all_returned outcomes) as [results|]; unfold ret; simpl.
  - split; [exact Hcmd|]. split; [now left | exact Hplayers].
  - split; [exact Hcmd|]. split; [now right | exact Hplayers].
Qed.

Lemma search_route_window_not_clamped_witness :
  "Ada" <> ""
  /\ In ada (matching contains "Ada" world_two)
  /\ zset_revrank (key_of ada) (leaderboard world_two) = Some 0
  /\ In (ZRANGE_REV (0 - 3) (0 + 2))
        (new_commands world_two (snd (search_f (Some "Ada") world_two))).
Proof.
  assert (Hq : "Ada" <> "") by discriminate.
  assert (Hmatch : In ada (matching contains "Ada" world_two))
    by (vm_compute; left; reflexivity).
  assert (Hrank : zset_revrank (key_of ada) (leaderboard world_two) = Some 0)
    by reflexivity.
  split; [exact Hq|]. split; [exact Hmatch|]. split; [exact Hrank|].
  exact (proj1 (proj1 (@search_route_window_not_clamped float _
                         integer_id_eq contains "Ada" world_two ada 0
                         Hq Hmatch Hrank))).
Defined.

(* ----------------------------------------------------------------- *)
(** *** The first revision of the search route *)

Section PlainSearch.
Context {num : Type} `{JsNumber num}.

(** Reading one thing per element: what is read depends on the sorted set
    alone, and the sorted set stays as it is. *)
Lemma mapM_reads {A B} (f : A -> M num B)
      (g : A -> list (ScoreEntry num) -> B) :
  (forall a w, fst (f a w) = g a (leaderboard w)) ->
  (forall a, quiet (f a)) ->
  forall l w, fst (mapM f l w) = map (fun a => g a (leaderboard w)) l.
Proof.
  intros Hval Hquiet. induction l as [|a l IH]; intros w; [reflexivity|].
  rewrite mapM_cons. cbn [fst map]. rewrite Hval, IH.
  destruct (Hquiet a w) as [(_ & _ & Hl & _) _]. now rewrite Hl.
Qed.

Lemma quiet_leaderboard_search_plain (sql_like : string -> string -> bool) query :
  quiet (leaderboard_search_plain (num := num) sql_like query).
Proof.
  unfold leaderboard_search_plain.
  destruct (negb (query_given query)); [apply quiet_ret|].
  apply quiet_bind.
  { unfold db_select_like. apply quiet_bind; [apply quiet_issue|].
    intros _. apply quiet_read. }
  intros matched. destruct (List.length matched =? 0)%nat; [apply quiet_ret|].
  apply quiet_bind; [apply quiet_mapM; intros a; apply quiet_zRevRank|].
  intros ranks.
  apply quiet_bind; [apply quiet_mapM; intros a; apply quiet_zScore|].
  intros scores. apply quiet_ret.
Qed.

Lemma combine_maps {A B C} (f : A -> B) (g : A -> C) : forall l : list A,
  combine (combine l (map f l)) (map g l) = map (fun a => (a, f a, g a)) l.
Proof. induction l as [|a l IH]; simpl; [reflexivity | now rewrite IH]. Qed.
End PlainSearch.

(** The first revision of GET /leaderboard/search (the one the router build
    has too) only reads: for a query that is not empty it answers 200 with
    one row per player whose name or country matches, in the order MySQL
    returns them; a row's ranking is the rank plus one, or null for a player
    without an entry, and its money is the score, or 0 when the score is
    null or 0; both stores hold afterwards what they held before, so a
    player without an entry is not given one.  Without a query the answer is
    400 and no store is asked. *)
Theorem plain_search_only_reads
  {num : Type} `{JsNumber num} (sql_like : string -> string -> bool)
  (q : string) (w : World num) (Hq : q <> "") :
  let r := leaderboard_search_plain sql_like (Some q) w in
  let l := leaderboard w in
  fst r
  = {| status := 200;
       payload :=
         plain_rows
           (map (fun p => plain_row (p, zset_revrank (key_of p) l,
                                     zset_score (key_of p) l))
                (matching sql_like q w)) |}
  /\ same_stores w (snd r)
  /\ (forall query, query_given query = false ->
        leaderboard_search_plain sql_like query w
        = ({| status := InvalidInput;
              payload := plain_error "Query parameter is required" |}, w)).
Proof.
  intros r l. split; [|split].
  - subst r. unfold leaderboard_search_plain.
    assert (Hg : query_given (Some q) = true).
    { simpl. destruct (String.eqb_spec q ""); [contradiction|reflexivity]. }
    rewrite Hg. cbn [negb]. cbv beta iota zeta.
    set (w1 := {| players := players w; auto_increment := auto_increment w;
                  leaderboard := leaderboard w; prize_pool := prize_pool w;
                  issued := issued w ++ [SELECT_like q] |}).
    assert (Hsel : db_select_like sql_like q w = (matching sql_like q w, w1))
      by reflexivity.
    step. rewrite Hsel. cbn [fst snd].
    set (matched := matching sql_like q w) in *.
    destruct (List.length matched =? 0)%nat eqn:Hlen.
    { destruct matched; [reflexivity|discriminate]. }
    step.
    set (rank_of := fun player0 : Player => zRevRank (Z_toString (id player0))).
    assert (Hq1 : quiet (mapM rank_of matched))
      by (apply quiet_mapM; intros a; apply quiet_zRevRank).
    destruct (Hq1 w1) as [(_ & _ & Hl2 & _) _].
    assert (Hranks : fst (mapM rank_of matched w1)
                     = map (fun p => zset_revrank (key_of p) (leaderboard w1))
                           matched).
    { apply mapM_reads with (g := fun p l0 => zset_revrank (key_of p) l0);
        [reflexivity | intros a; apply quiet_zRevRank]. }
    rewrite Hranks. clear Hranks.
    step.
    set (score_of := fun player0 : Player => zScore (Z_toString (id player0))).
    assert (Hscores : forall w0,
              fst (mapM score_of matched w0)
              = map (fun p => zset_score (key_of p) (leaderboard w0)) matched).
    { intros w0.
      apply mapM_reads with (g := fun p l0 => zset_score (key_of p) l0);
        [reflexivity | intros a; apply quiet_zScore]. }
    rewrite Hscores, Hl2. clear Hscores. cbn [leaderboard w1 ret fst].
    fold l. rewrite combine_maps. rewrite map_map. reflexivity.
  - apply (quiet_leaderboard_search_plain sql_like (Some q) w).
  - intros query Hnone. unfold leaderboard_search_plain. now rewrite Hnone.
Qed.

Lemma plain_search_only_reads_witness :
  "Bob" <> ""
  /\ fst (leaderboard_search_plain (num := float) contains (Some "Bob")
            world_unranked)
     = {| status := 200;
          payload := plain_rows
                       [ {| p_ranking := None; p_playerName := "Bob";
                            p_country := "TR"; p_countryCode := "TR";
                            p_money := nlit 0 |} ] |}.
Proof.
  assert (Hq : "Bob" <> "") by discriminate.
  split; [exact Hq|].
  rewrite (proj1 (@plain_search_only_reads float _ contains "Bob"
                    world_unranked Hq)).
  vm_compute. reflexivity.
Defined.

(* ================================================================= *)
(** ** Registered players stay ranked *)

Section Registered.
Context {num : Type} `{JsNumber num}.
Variable Number_toString : num -> string.
Variable sql_id_eq : JsValue num -> Z -> bool.
Variable sql_str_eq : string -> string -> bool.
Variable sql_like : string -> string -> bool.
Variable redis_incrbyfloat : num -> num -> option num.

(** A registration leaves both stores alone, or appends one row and stores
    score 0 under its id. *)
Lemma create_cases (w : World num) name country countryCode :
  let w' := snd (player_create sql_str_eq name country countryCode w) in
  same_stores w w'
  \/ exists n c cc,
       players w' = players w ++ [new_player w n c cc]
       /\ leaderboard w'
          = zset_add (nlit 0) (Z_toString (auto_increment w)) (leaderboard w).
Proof.
  cbv zeta.
  destruct (missing name || missing country || missing countryCode) eqn:Hm.
  - left. unfold player_create. rewrite Hm. apply same_stores_refl.
  - apply orb_false_elim in Hm. destruct Hm as [Hm Hcc].
    apply orb_false_elim in Hm. destruct Hm as [Hn Hc].
    destruct name as [n|]; [|discriminate].
    destruct country as [c|]; [|discriminate].
    destruct countryCode as [cc|]; [|discriminate].
    simpl in Hn, Hc, Hcc.
    destruct (existing sql_str_eq w n c cc) as [|p ps] eqn:Hex.
    + right. exists n, c, cc. rewrite create_run_new by assumption.
      split; reflexivity.
    + left. rewrite create_run_duplicate
        by (try assumption; rewrite Hex; discriminate).
      simpl. repeat split.
Qed.

Lemma all_ranked_same (w w' : World num) :
  same_stores w w' -> all_ranked w -> all_ranked w'.
Proof.
  intros (Hp & _ & Hl & _) Hranked p Hin. rewrite Hl. apply Hranked.
  now rewrite <- Hp.
Qed.

Lemma handle_ranked (r : Request num) (w : World num) :
  all_ranked w ->
  let w' := snd (handle Number_toString sql_id_eq sql_str_eq sql_like
                       redis_incrbyfloat r w) in
  all_ranked w' /\ incl (players w) (players w').
Proof.
  intros Hranked.
  destruct r as [playerId amount|n c cc| |schedule query]; unfold handle;
    cbv zeta.
  - rewrite bind_run. cbn [snd ret].
    destruct (earn_cases Number_toString sql_id_eq redis_incrbyfloat w
                playerId amount)
      as [[_ Hsame] | (a & _ & Hp & _ & Hl & _)].
    + split; [now apply (all_ranked_same Hsame)|].
      destruct Hsame as (Hp & _). rewrite Hp. apply incl_refl.
    + split; [|rewrite Hp; apply incl_refl].
      intros p Hin. rewrite Hl. apply incrby_member. apply Hranked.
      now rewrite <- Hp.
  - rewrite bind_run. cbn [snd ret].
    destruct (create_cases w n c cc) as [Hsame | (n' & c' & cc' & Hp & Hl)].
    + split; [now apply (all_ranked_same Hsame)|].
      destruct Hsame as (Hp & _). rewrite Hp. apply incl_refl.
    + split; [|rewrite Hp; apply incl_appl, incl_refl].
      intros p Hin. rewrite Hl. rewrite Hp in Hin.
      destruct (string_dec (key_of p) (Z_toString (auto_increment w)))
        as [->|Hne].
      * rewrite zset_score_add_same. discriminate.
      * rewrite zset_score_add_other by assumption.
        apply in_app_or in Hin. destruct Hin as [Hin|[<-|[]]].
        -- now apply Hranked.
        -- exfalso. apply Hne. reflexivity.
  - rewrite leaderboard_reset_run. cbn [snd players leaderboard].
    split; [|apply incl_refl].
    intros p Hin. cbn [players] in Hin. apply apply_rewards_member.
    now apply Hranked.
  - rewrite bind_run. cbn [snd ret].
    pose proof (proj1 (quiet_top_ranking_data sql_id_eq sql_like schedule
                         query w)) as Hsame.
    split; [now apply (all_ranked_same Hsame)|].
    destruct Hsame as (Hp & _). rewrite Hp. apply incl_refl.
Qed.
End Registered.

(** Identity and ranking stay consistent: if every row of [players] has an
    entry in the sorted set under its id, this is still so after any series
    of earnings, registrations, settlements and combined views served one
    after the other, for every number interpretation; and no row of
    [players] is ever removed. *)
Theorem registered_players_stay_ranked
  {num : Type} `{JsNumber num}
  (Number_toString : num -> string) (sql_id_eq : JsValue num -> Z -> bool)
  (sql_str_eq sql_like : string -> string -> bool)
  (redis_incrbyfloat : num -> num -> option num)
  (rs : list (Request num)) (w : World num)
  (Hranked : all_ranked w) :
  let w' := snd (serve Number_toString sql_id_eq sql_str_eq sql_like
                      redis_incrbyfloat rs w) in
  all_ranked w' /\ incl (players w) (players w').
Proof.
  unfold serve. rewrite bind_run. cbn [snd ret].
  apply (mapM_snd_inv
           (fun w' => all_ranked w' /\ incl (players w) (players w'))
           (handle Number_toString sql_id_eq sql_str_eq sql_like
                   redis_incrbyfloat)).
  - intros r w0 [Hr Hincl].
    destruct (handle_ranked Number_toString sql_id_eq sql_str_eq sql_like
                redis_incrbyfloat r Hr)
      as [Hr' Hincl'].
    split; [exact Hr'|]. eapply incl_tran; eauto.
  - split; [exact Hranked | apply incl_refl].
Qed.

Lemma registered_players_stay_ranked_witness :
  all_ranked world_two
  /\ all_ranked
       (snd (serve integer_toString integer_id_eq String.eqb contains
               binary64_incrbyfloat
               [Register (Some "Cy") (Some "FR") (Some "FR");
                Earn (JNum (nlit 3)) (JNum (nlit 10)); Settle;
                View [] (Some "Cy")]
               world_two)).
Proof.
  assert (Hranked : all_ranked world_two).
  { intros p [<-|[<-|[]]]; vm_compute; discriminate. }
  split; [exact Hranked|].
  apply (@registered_players_stay_ranked float _ integer_toString integer_id_eq
           String.eqb contains binary64_incrbyfloat _ world_two Hranked).
Defined.

(* ================================================================= *)
(** ** How many neighbours a result shows *)

Section ShortLists.
Context {num : Type} `{JsNumber num}.
Implicit Types (t : @Task num).

Lemma NoDup_flat_map_in {A B} (f : A -> list B) : forall (l : list A) a,
  NoDup (flat_map f l) -> In a l -> NoDup (f a).
Proof.
  induction l as [|x l IH]; intros a Hnd Hin; [destruct Hin|].
  simpl in Hnd. destruct Hin as [->|Hin].
  - eapply NoDup_app_remove_r. exact Hnd.
  - apply IH; [|exact Hin]. eapply NoDup_app_remove_l. exact Hnd.
Qed.

Lemma nth_error_firstn_lt {A} (l : list A) : forall n i,
  (i < n)%nat -> nth_error (firstn n l) i = nth_error l i.
Proof.
  induction l as [|x l IH]; intros [|n] [|i] Hlt; simpl; try lia; auto.
  apply IH. lia.
Qed.

Lemma nth_error_skipn_shift {A} (l : list A) : forall n i,
  nth_error (skipn n l) i = nth_error l (n + i).
Proof.
  induction l as [|x l IH]; intros [|n] i; simpl; auto.
  now destruct i.
Qed.

(** The window of a suspended callback: at most three positions before the
    player's own, at most two after it. *)
Lemma window_shape (l : list (ScoreEntry num)) cs t :
  window_of l cs t ->
  0 <= task_rank t - task_startRank t <= 3
  /\ (List.length (surroundingPlayers t)
      <= Z.to_nat (task_rank t - task_startRank t) + 3)%nat.
Proof.
  intros (Hrank & Hstart & Hend & Hwin & _).
  apply zset_revrank_nonneg in Hrank.
  rewrite startRank_of_max in Hstart. unfold endRank_of in Hend.
  split; [lia|].
  rewrite <- (length_map fst), Hwin.
  etransitivity; [apply zset_range_rev_length; lia|]. lia.
Qed.

Lemma rows_before (l : list (ScoreEntry num)) cs t rows :
  window_of l cs t ->
  Forall (row_at t true) rows ->
  incl (map (@n_id num) rows)
       (map (fun a => value (fst a))
            (firstn (Z.to_nat (task_rank t - task_startRank t))
                    (surroundingPlayers t))).
Proof.
  intros Hwin Hrows k Hk. apply in_map_iff in Hk.
  destruct Hk as (row & <- & Hrow). rewrite Forall_forall in Hrows.
  destruct (Hrows row Hrow) as (index & e & d & Hnth & -> & _ & _ & Hlt).
  apply in_map_iff. exists (e, d). split; [reflexivity|].
  apply (nth_error_In _ index). rewrite nth_error_firstn_lt by lia.
  exact Hnth.
Qed.

Lemma rows_after (l : list (ScoreEntry num)) cs t rows :
  window_of l cs t ->
  Forall (row_at t false) rows ->
  incl (map (@n_id num) rows)
       (map (fun a => value (fst a))
            (skipn (S (Z.to_nat (task_rank t - task_startRank t)))
                   (surroundingPlayers t))).
Proof.
  intros Hwin Hrows k Hk. apply in_map_iff in Hk.
  destruct Hk as (row & <- & Hrow). rewrite Forall_forall in Hrows.
  destruct (Hrows row Hrow) as (index & e & d & Hnth & -> & _ & _ & Hlt).
  destruct (window_shape Hwin) as [Hk _].
  apply in_map_iff. exists (e, d). split; [reflexivity|].
  apply (nth_error_In _ (index - S (Z.to_nat (task_rank t - task_startRank t)))).
  rewrite nth_error_skipn_shift.
  replace (S (Z.to_nat (task_rank t - task_startRank t))
           + (index - S (Z.to_nat (task_rank t - task_startRank t))))%nat
    with index by lia.
  exact Hnth.
Qed.

Lemma task_lists_short ps (l : list (ScoreEntry num)) cs t :
  task_ok ps l cs t -> NoDup (task_ids t) ->
  (List.length (task_prev t) <= 3)%nat /\ (List.length (task_next t) <= 2)%nat.
Proof.
  intros (_ & Hwin & Hprev & Hnext) Hnd. unfold task_ids in Hnd.
  inversion Hnd as [|? ? _ Hrows]; subst.
  destruct (window_shape Hwin) as [Hk Hlen].
  split.
  - rewrite <- (length_map (@n_id num)).
    etransitivity.
    + apply NoDup_incl_length;
        [eapply NoDup_app_remove_r; exact Hrows | eapply rows_before; eauto].
    + rewrite length_map, length_firstn. lia.
  - rewrite <- (length_map (@n_id num)).
    etransitivity.
    + apply NoDup_incl_length;
        [eapply NoDup_app_remove_l; exact Hrows | eapply rows_after; eauto].
    + rewrite length_map, length_skipn. lia.
Qed.
End ShortLists.

(** A search result shows at most three neighbours ranked better than the
    matched player and at most two ranked worse, in whatever order the
    profile lookups answer (and however often one of them is answered). *)
Theorem neighbour_lists_are_short
  {num : Type} `{JsNumber num} (sql_id_eq : JsValue num -> Z -> bool)
  (schedule : list (nat * nat)) (matched : list Player) (w : World num) :
  Forall (fun r : @SearchResult num =>
            (List.length (prevPlayers r) <= 3)%nat
            /\ (List.length (nextPlayers r) <= 2)%nat)
         (fst (getSearchResults sql_id_eq schedule matched w)).
Proof.
  destruct (getSearchResults_spec sql_id_eq schedule matched w)
    as (_ & tasks & Hres & Hok & Hnd).
  rewrite Hres. apply Forall_forall. intros r Hr.
  apply in_map_iff in Hr. destruct Hr as (t & <- & Ht).
  rewrite Forall_forall in Hok.
  apply (task_lists_short (Hok _ (in_non_null _ _ Ht) t eq_refl)).
  unfold ids_of in Hnd. eapply NoDup_flat_map_in; eauto.
Qed.

(* ================================================================= *)
(** ** Which window entries become neighbours *)

Section Partition.
Context {num : Type} `{JsNumber num}.
Variable sql_id_eq : JsValue num -> Z -> bool.
Implicit Types (t : @Task num) (tasks : list (option (@Task num))).

Lemma answers_all_In schedule n i index :
  answers_all schedule n = true ->
  (i < n)%nat -> (index < 6)%nat -> In (i, index) schedule.
Proof.
  unfold answers_all. intros Hall Hi Hindex.
  rewrite forallb_forall in Hall.
  assert (Hrow := Hall i ltac:(apply in_seq; lia)).
  rewrite forallb_forall in Hrow.
  assert (Hev := Hrow index ltac:(apply in_seq; lia)).
  apply existsb_exists in Hev. destruct Hev as ([i' index'] & Hin & Heq).
  apply andb_true_iff in Heq. destruct Heq as [Hi' Hindex'].
  apply Nat.eqb_eq in Hi', Hindex'. cbn [fst snd] in *. now subst.
Qed.

Lemma resume_windows (st : @Pending num) ev :
  map (option_map (@task_window num)) (snd (resume st ev))
  = map (option_map (@task_window num)) (snd st).
Proof.
  destruct st as [inc tasks], ev as [i index]. unfold resume.
  destruct (nth_error tasks i) as [[t|]|] eqn:Ht; try reflexivity.
  destruct (nth_error (surroundingPlayers t) index) as [[e d]|];
    try reflexivity.
  destruct (d_name d), (d_country d), (d_country_code d); try reflexivity.
  destruct (_ <? _).
  - destruct (negb (has inc (value e))); [|reflexivity].
    cbn [snd]. now apply map_replace_nth_same with (x := Some t).
  - destruct (_ >? _); [|reflexivity].
    destruct (negb (has inc (value e))); [|reflexivity].
    cbn [snd]. now apply map_replace_nth_same with (x := Some t).
Qed.

Lemma resume_all_windows schedule : forall st : @Pending num,
  map (option_map (@task_window num)) (snd (fold_left resume schedule st))
  = map (option_map (@task_window num)) (snd st).
Proof.
  induction schedule as [|ev schedule IH]; intros st; [reflexivity|].
  simpl. rewrite IH. apply resume_windows.
Qed.

(** The set of included ids only grows. *)
Lemma resume_grows (st : @Pending num) ev : incl (fst st) (fst (resume st ev)).
Proof.
  destruct st as [inc tasks], ev as [i index]. unfold resume. cbn [fst].
  destruct (nth_error tasks i) as [[t|]|]; try apply incl_refl.
  destruct (nth_error (surroundingPlayers t) index) as [[e d]|];
    try apply incl_refl.
  destruct (d_name d), (d_country d), (d_country_code d); try apply incl_refl.
  destruct (_ <? _).
  - destruct (negb (has inc (value e))); [|apply incl_refl].
    cbn [fst]. apply incl_appl, incl_refl.
  - destruct (_ >? _); [|apply incl_refl].
    destruct (negb (has inc (value e))); [|apply incl_refl].
    cbn [fst]. apply incl_appl, incl_refl.
Qed.

Lemma resume_all_grows schedule : forall st : @Pending num,
  incl (fst st) (fst (fold_left resume schedule st)).
Proof.
  induction schedule as [|ev schedule IH]; intros st; [apply incl_refl|].
  simpl. eapply incl_tran; [apply resume_grows | apply IH].
Qed.

(** Once the lookup for a window entry with a profile, other than the
    player's own, has answered, the entry's id is in the set. *)
Lemma resume_answers (st : @Pending num) i index R S sur e d :
  nth_error (map (option_map (@task_window num)) (snd st)) i
  = Some (Some (R, S, sur)) ->
  nth_error sur index = Some (e, d) ->
  profile_found d = true ->
  S + Z.of_nat index <> R ->
  In (value e) (fst (resume st (i, index))).
Proof.
  destruct st as [inc tasks]. cbn [snd]. intros Ht He Hd Hne.
  rewrite nth_error_map in Ht.
  destruct (nth_error tasks i) as [[t|]|] eqn:Hti; try discriminate.
  cbn [option_map] in Ht. injection Ht as HR HS Hsur.
  unfold resume. rewrite Hti, Hsur, He. unfold profile_found in Hd.
  destruct (d_name d), (d_country d), (d_country_code d); try discriminate.
  rewrite HR, HS.
  destruct (Z.ltb_spec (S + Z.of_nat index) R).
  - destruct (has inc (value e)) eqn:Hhas; cbn [negb fst].
    + now apply has_In.
    + apply in_or_app. right. now left.
  - destruct (Z.gtb_spec (S + Z.of_nat index) R); [|lia].
    destruct (has inc (value e)) eqn:Hhas; cbn [negb fst].
    + now apply has_In.
    + apply in_or_app. right. now left.
Qed.

Lemma resume_all_answers schedule i index R S sur e d :
  nth_error sur index = Some (e, d) ->
  profile_found d = true ->
  S + Z.of_nat index <> R ->
  In (i, index) schedule ->
  forall st : @Pending num,
    nth_error (map (option_map (@task_window num)) (snd st)) i
    = Some (Some (R, S, sur)) ->
    In (value e) (fst (fold_left resume schedule st)).
Proof.
  intros He Hd Hne. induction schedule as [|ev schedule IH]; [intros []|].
  intros [->|Hin] st Ht; simpl.
  - apply resume_all_grows. eapply resume_answers; eauto.
  - apply IH; [exact Hin|]. now rewrite resume_windows.
Qed.

(** Every id in the set is one the set started with or one that is shown. *)
Lemma resume_known base (st : @Pending num) ev :
  incl (fst st) (base ++ ids_of (snd st)) ->
  incl (fst (resume st ev)) (base ++ ids_of (snd (resume st ev))).
Proof.
  destruct st as [inc tasks], ev as [i index]. cbn [fst snd]. intros Hincl.
  unfold resume.
  destruct (nth_error tasks i) as [[t|]|] eqn:Ht; try exact Hincl.
  destruct (nth_error (surroundingPlayers t) index) as [[e d]|] eqn:He;
    try exact Hincl.
  destruct (d_name d) as [n|], (d_country d) as [c|],
           (d_country_code d) as [cc|]; try exact Hincl.
  assert (Hpush : forall t',
            Permutation (task_ids t') (value e :: task_ids t) ->
            incl (inc ++ [value e])
                 (base ++ ids_of (replace_nth i (Some t') tasks))).
  { intros t' Hperm x Hx.
    assert (Hids := ids_of_replace _ _ Ht Hperm).
    apply in_app_or in Hx. apply in_or_app.
    destruct Hx as [Hx|[<-|[]]].
    - apply Hincl in Hx. apply in_app_or in Hx. destruct Hx as [Hx|Hx]; auto.
      right. apply (Permutation_in _ (Permutation_sym Hids)). now right.
    - right. apply (Permutation_in _ (Permutation_sym Hids)). now left. }
  destruct (_ <? _).
  - destruct (negb (has inc (value e))); [|exact Hincl]. cbn [fst snd].
    apply Hpush.
    apply (task_ids_push_prev t
             {| n_ranking := task_startRank t + Z.of_nat index + 1;
                n_id := value e; n_playerName := n; n_country := c;
                n_countryCode := cc; n_money := score e |}).
  - destruct (_ >? _); [|exact Hincl].
    destruct (negb (has inc (value e))); [|exact Hincl]. cbn [fst snd].
    apply Hpush.
    apply (task_ids_push_next t
             {| n_ranking := task_startRank t + Z.of_nat index + 1;
                n_id := value e; n_playerName := n; n_country := c;
                n_countryCode := cc; n_money := score e |}).
Qed.

Lemma resume_all_known base schedule : forall st : @Pending num,
  incl (fst st) (base ++ ids_of (snd st)) ->
  incl (fst (fold_left resume schedule st))
       (base ++ ids_of (snd (fold_left resume schedule st))).
Proof.
  induction schedule as [|ev schedule IH]; intros st Hst; [exact Hst|].
  simpl. apply IH. now apply resume_known.
Qed.

(** The lookup of a member that has a row answers with the three fields. *)
Lemma getPlayerDetails_found k (w : World num) :
  has_profile sql_id_eq (players w) k = true ->
  profile_found (fst (getPlayerDetails sql_id_eq k w)) = true.
Proof.
  unfold has_profile, getPlayerDetails. intros Hk.
  apply andb_true_iff in Hk. destruct Hk as [Hne Hrow].
  destruct (String.eqb k ""); [discriminate|].
  unfold db_select_details. run.
  destruct (filter (fun p => sql_id_eq (JStr k) (id p)) (players w))
    as [|p0 rest] eqn:Hf; [|reflexivity].
  apply existsb_exists in Hrow. destruct Hrow as (p & Hin & Hp).
  assert (Hin' : In p (filter (fun p => sql_id_eq (JStr k) (id p)) (players w)))
    by (apply filter_In; auto).
  rewrite Hf in Hin'. destruct Hin'.
Qed.

Definition found_ok (rows : list Player)
           (sur : list (ScoreEntry num * PlayerDetails)) : Prop :=
  Forall (fun a => has_profile sql_id_eq rows (value (fst a)) = true ->
                   profile_found (snd a) = true) sur.

Lemma mapM_details_found rows (surrounding : list (ScoreEntry num)) :
  forall w : World num,
    rows = players w ->
    found_ok rows
      (combine surrounding
         (fst (mapM (fun e => getPlayerDetails sql_id_eq (value e))
                    surrounding w))).
Proof.
  induction surrounding as [|e surrounding IH]; intros w Hw; [constructor|].
  rewrite mapM_cons. cbn [fst combine]. constructor.
  - rewrite Hw. cbn [fst snd]. apply getPlayerDetails_found.
  - apply IH.
    destruct (quiet_getPlayerDetails sql_id_eq (value e) w) as [(Hp & _) _].
    now rewrite Hp.
Qed.

Lemma fetch_found a (w : World num) t :
  fst (fetch sql_id_eq a w) = Some t ->
  found_ok (players w) (surroundingPlayers t).
Proof.
  destruct a as [p b]. unfold fetch. destruct b; simpl; [|discriminate].
  unfold zRevRank, zScore, zRangeWithScores. run.
  destruct (zset_revrank (Z_toString (id p)) (leaderboard w)) as [rank|];
    [|discriminate].
  match goal with
  | |- context [mapM ?f ?l ?w0] =>
      pose proof (@mapM_details_found (players w) l w0 eq_refl) as Hd;
      destruct (mapM f l w0) as [details w3]
  end.
  cbn [fst] in Hd. simpl. intros [= <-]. exact Hd.
Qed.

Lemma mapM_fetch_found rows adm : forall w : World num,
  rows = players w ->
  Forall (fun ow => forall x, ow = Some x -> found_ok rows (snd x))
         (map (option_map (@task_window num))
              (fst (mapM (fetch sql_id_eq) adm w))).
Proof.
  induction adm as [|a adm IH]; intros w Hw; [constructor|].
  rewrite mapM_cons. cbn [fst map]. constructor.
  - intros x Hx.
    destruct (fst (fetch sql_id_eq a w)) as [t|] eqn:Ht; [|discriminate].
    injection Hx as <-. rewrite Hw. cbn [snd task_window].
    now apply fetch_found with (a := a).
  - apply IH. destruct (quiet_fetch sql_id_eq a w) as [(Hp & _) _].
    now rewrite Hp.
Qed.

(** The window holds the entry of every rank between its bounds. *)
Lemma window_entry (l : list (ScoreEntry num)) cs t pos e :
  window_of l cs t ->
  task_startRank t <= pos <= task_endRank t ->
  nth_error (rev l) (Z.to_nat pos) = Some e ->
  exists d,
    nth_error (surroundingPlayers t) (Z.to_nat (pos - task_startRank t))
    = Some (e, d).
Proof.
  intros (Hrank & Hstart & Hend & Hwin & _) Hpos He.
  apply zset_revrank_nonneg in Hrank.
  rewrite startRank_of_max in Hstart. unfold endRank_of in Hend.
  assert (Hnth : nth_error (map fst (surroundingPlayers t))
                           (Z.to_nat (pos - task_startRank t)) = Some e).
  { rewrite Hwin, zset_range_rev_slice by lia.
    rewrite nth_error_firstn_lt by lia.
    rewrite nth_error_skipn_shift.
    replace (Z.to_nat (task_startRank t) + Z.to_nat (pos - task_startRank t))%nat
      with (Z.to_nat pos) by lia.
    exact He. }
  rewrite nth_error_map in Hnth.
  destruct (nth_error (surroundingPlayers t) (Z.to_nat (pos - task_startRank t)))
    as [[e' d]|]; [|discriminate].
  injection Hnth as <-. now exists d.
Qed.

(** A member stands at one rank only. *)
Lemma member_at_one_rank (l : list (ScoreEntry num)) i j e e' :
  NoDup (map (@value num) l) ->
  nth_error (rev l) i = Some e -> nth_error (rev l) j = Some e' ->
  value e = value e' -> i = j.
Proof.
  intros Hnd Hi Hj Heq.
  assert (Hnd' : NoDup (map (@value num) (rev l)))
    by (rewrite map_rev; now apply NoDup_rev).
  rewrite NoDup_nth_error in Hnd'. apply Hnd'.
  - rewrite length_map. apply nth_error_Some. congruence.
  - rewrite !nth_error_map, Hi, Hj. cbn [option_map]. now rewrite Heq.
Qed.

Lemma admitted_keys_known (adm : list (Player * bool)) :
  incl (admitted_keys adm) (map key_of (map fst adm)).
Proof.
  induction adm as [|[p b] adm IH]; [apply incl_refl|].
  unfold admitted_keys. cbn [flat_map map fst snd]. intros x Hx.
  apply in_app_or in Hx. destruct Hx as [Hx|Hx].
  - destruct b; [|destruct Hx]. destruct Hx as [<-|[]]. now left.
  - right. now apply IH.
Qed.

(** getSearchResults when every lookup has answered. *)
Lemma getSearchResults_answered schedule matched (w : World num) :
  answers_all schedule (List.length matched) = true ->
  let res := getSearchResults sql_id_eq schedule matched w in
  exists tasks,
    fst res = map result_of (non_null tasks)
    /\ Forall (fun ot => forall t, ot = Some t ->
                 task_ok matched (leaderboard w) (new_commands w (snd res)) t)
              tasks
    /\ NoDup (ids_of tasks)
    /\ forall t index e d,
         In (Some t) tasks ->
         nth_error (surroundingPlayers t) index = Some (e, d) ->
         (index < 6)%nat ->
         has_profile sql_id_eq (players w) (value e) = true ->
         task_startRank t + Z.of_nat index <> task_rank t ->
         In (value e) (map key_of matched ++ ids_of tasks).
Proof.
  intros Hall. unfold getSearchResults.
  destruct (include_matched matched []) as [adm inc] eqn:Hadm.
  destruct (include_matched_spec _ _ Hadm) as (Hfst & Hinc & Hnd).
  simpl in Hinc. specialize (Hnd (NoDup_nil _)).
  assert (Hin : Forall (fun a : Player * bool => In (fst a) matched) adm).
  { rewrite <- Hfst. apply Forall_forall. intros a Ha. now apply in_map. }
  destruct (@mapM_fetch num _ sql_id_eq matched adm w Hin)
    as (Hl & cs & Hcs & Hok & Hincl & Hnodup).
  pose proof (@mapM_fetch_found (players w) adm w eq_refl) as Hfound.
  pose proof (mapM_length (fetch sql_id_eq) adm w) as Hlen.
  unfold bind.
  destruct (mapM (fetch sql_id_eq) adm w) as [tasks w1].
  simpl in Hl, Hcs, Hok, Hincl, Hnodup, Hfound, Hlen.
  destruct (@resume_all_invariants num _ matched (leaderboard w) cs schedule
              (inc, tasks)) as [Hok' [Hnd' _]].
  { split; [exact Hok|]. split; simpl.
    - apply Hnodup. now rewrite <- Hinc.
    - now rewrite Hinc. }
  pose proof (resume_all_windows schedule (inc, tasks)) as Hwin.
  pose proof (@resume_all_known inc schedule (inc, tasks)
                ltac:(cbn [fst snd]; apply incl_appl, incl_refl)) as Hknown.
  pose proof (fun i index R S sur e d He Hd Hne Hev =>
                @resume_all_answers schedule i index R S sur e d He Hd Hne Hev
                                    (inc, tasks)) as Hans.
  destruct (fold_left resume schedule (inc, tasks)) as [inc' tasks'].
  cbn [fst snd ret] in *.
  exists tasks'. split; [reflexivity|]. split.
  { erewrite new_commands_app by exact Hcs. exact Hok'. }
  split; [exact Hnd'|].
  intros t index e d Ht He Hindex Hprofile Hne.
  destruct (In_nth_error _ _ Ht) as [i Hi].
  assert (Hwi : nth_error (map (option_map (@task_window num)) tasks) i
                = Some (Some (task_rank t, task_startRank t, surroundingPlayers t))).
  { rewrite <- Hwin, nth_error_map, Hi. reflexivity. }
  assert (Hi_lt : (i < List.length matched)%nat).
  { rewrite <- Hfst, length_map, <- Hlen, <- (length_map (option_map (@task_window num))).
    apply nth_error_Some. congruence. }
  assert (Hd : profile_found d = true).
  { rewrite Forall_forall in Hfound.
    assert (Hsur := Hfound _ (nth_error_In _ _ Hwi) _ eq_refl).
    cbn [snd] in Hsur. unfold found_ok in Hsur. rewrite Forall_forall in Hsur.
    apply (Hsur (e, d)); [eapply nth_error_In; eauto | exact Hprofile]. }
  assert (Hshown : In (value e) inc').
  { eapply Hans; eauto. now apply answers_all_In with (n := List.length matched). }
  apply Hknown in Hshown. apply in_app_or in Hshown. apply in_or_app.
  destruct Hshown as [Hbase|Hids]; [left|now right].
  rewrite Hinc in Hbase. apply admitted_keys_known in Hbase.
  now rewrite Hfst in Hbase.
Qed.

(** A window entry with a profile, other than the player's own, is the id of
    a matched player or a row of exactly the list it belongs to, in this or
    another result, once every lookup has answered. *)
Lemma entry_shown matched (l : list (ScoreEntry num)) cs tasks rows t pos e :
  Forall (fun ot => forall t, ot = Some t -> task_ok matched l cs t) tasks ->
  (forall t index e d,
     In (Some t) tasks ->
     nth_error (surroundingPlayers t) index = Some (e, d) ->
     (index < 6)%nat ->
     has_profile sql_id_eq rows (value e) = true ->
     task_startRank t + Z.of_nat index <> task_rank t ->
     In (value e) (map key_of matched ++ ids_of tasks)) ->
  NoDup (map (@value num) l) ->
  In (Some t) tasks ->
  task_startRank t <= pos <= task_endRank t -> pos <> task_rank t ->
  nth_error (rev l) (Z.to_nat pos) = Some e ->
  has_profile sql_id_eq rows (value e) = true ->
  (exists p, In p matched /\ key_of p = value e)
  \/ (exists t' row,
        In (Some t') tasks
        /\ n_id row = value e /\ n_ranking row = pos + 1 /\ n_money row = score e
        /\ (pos < task_rank t' /\ In row (task_prev t')
            \/ task_rank t' < pos /\ In row (task_next t'))).
Proof.
  intros Hok Hshown Hnd Ht Hpos Hne He Hprofile.
  rewrite Forall_forall in Hok.
  destruct (Hok _ Ht t eq_refl) as (_ & Hwin & _).
  destruct (window_entry Hwin Hpos He) as [d Hd].
  assert (Hw := Hwin). destruct Hw as (Hrank & Hstart & Hend & _).
  apply zset_revrank_nonneg in Hrank.
  rewrite startRank_of_max in Hstart. unfold endRank_of in Hend.
  assert (Hin : In (value e) (map key_of matched ++ ids_of tasks)).
  { apply (Hshown t _ e d Ht Hd); [lia | exact Hprofile | lia]. }
  apply in_app_or in Hin. destruct Hin as [Hin|Hin].
  { left. apply in_map_iff in Hin. destruct Hin as (p & Hp & Hpin). eauto. }
  unfold ids_of in Hin. apply in_flat_map in Hin.
  destruct Hin as (t' & Ht' & Hk). apply in_non_null in Ht'.
  destruct (Hok _ Ht' t' eq_refl) as (Hplayer & Hwin' & Hprev & Hnext).
  unfold task_ids in Hk. destruct Hk as [Hk|Hk]; [left; eauto|].
  right. exists t'.
  assert (Hrow : forall better row,
            row_at t' better row -> n_id row = value e ->
            n_ranking row = pos + 1 /\ n_money row = score e
            /\ if better then pos < task_rank t' else task_rank t' < pos).
  { intros better row (index & e' & d' & Hnth & Hid & Hm & Hrk & Hside) Heq.
    destruct Hwin' as (Hrank' & Hstart' & Hend' & Hsur' & _).
    apply zset_revrank_nonneg in Hrank'.
    rewrite startRank_of_max in Hstart'. unfold endRank_of in Hend'.
    assert (He' : nth_error (map fst (surroundingPlayers t')) index = Some e')
      by (rewrite nth_error_map, Hnth; reflexivity).
    rewrite Hsur' in He'. apply zset_range_rev_nth in He'; [|lia].
    destruct He' as [He' _].
    assert (Hsame : Z.to_nat pos = (Z.to_nat (task_startRank t') + index)%nat).
    { eapply member_at_one_rank; eauto. congruence. }
    assert (e' = e) by congruence. subst e'.
    assert (Hp : pos = task_startRank t' + Z.of_nat index) by lia.
    rewrite Hrk, Hm, <- Hp. split; [reflexivity|]. split; [reflexivity|].
    destruct better; lia. }
  apply in_app_or in Hk. destruct Hk as [Hk|Hk];
    apply in_map_iff in Hk; destruct Hk as (row & Hid & Hrin); exists row.
  - rewrite Forall_forall in Hprev.
    destruct (Hrow true row (Hprev _ Hrin) Hid) as (Hrk & Hm & Hside).
    split; [exact Ht'|]. split; [exact Hid|]. split; [exact Hrk|].
    split; [exact Hm|]. left. auto.
  - rewrite Forall_forall in Hnext.
    destruct (Hrow false row (Hnext _ Hrin) Hid) as (Hrk & Hm & Hside).
    split; [exact Ht'|]. split; [exact Hid|]. split; [exact Hrk|].
    split; [exact Hm|]. right. auto.
Qed.
End Partition.

(** C6, as the code has it.  Every search result stands for a matched player
    found in the sorted set at 0-based rank R.  For it the engine asked Redis
    for exactly the ranks max(0, R-3) .. R+2, which holds at most 6 entries;
    every row of [prevPlayers] is the entry at a rank from max(0, R-3) up to
    R-1, every row of [nextPlayers] the entry at rank R+1 or R+2, each
    labelled with its 1-based rank; so the entry at R itself is in neither
    list.  This holds in whatever order the lookups of the neighbours'
    profiles answer.

    The two lists do not hold every other entry of the window.  When every
    lookup has answered (and the sorted set holds a member once), an entry
    of the window at a rank other than R whose member has a profile is the
    id of one of the matched players, or it is a row, with its rank and
    score, of a list of the search results: [prevPlayers] of a result ranked
    after it or [nextPlayers] of a result ranked before it.  It is a row of
    this result's own list on its side of R when it is not a matched
    player's id and no other result shows it. *)
Theorem neighbourhood_window_and_sides
  {num : Type} `{JsNumber num} (sql_id_eq : JsValue num -> Z -> bool)
  (schedule : list (nat * nat)) (matched : list Player) (w : World num)
  (r : @SearchResult num)
  (Hr : In r (fst (getSearchResults sql_id_eq schedule matched w))) :
  exists player R,
    In player matched
    /\ r_id r = Z_toString (id player)
    /\ zset_revrank (r_id r) (leaderboard w) = Some R
    /\ r_ranking r = R + 1
    /\ In (ZRANGE_REV (Z.max 0 (R - 3)) (R + 2))
          (new_commands w (snd (getSearchResults sql_id_eq schedule matched w)))
    /\ (List.length (zset_range_rev (Z.max 0 (R - 3)) (R + 2) (leaderboard w))
        <= 6)%nat
    /\ (forall row, In row (prevPlayers r) ->
          exists pos e,
            nth_error (rev (leaderboard w)) (Z.to_nat pos) = Some e
            /\ Z.max 0 (R - 3) <= pos < R
            /\ n_id row = value e /\ n_money row = score e
            /\ n_ranking row = pos + 1)
    /\ (forall row, In row (nextPlayers r) ->
          exists pos e,
            nth_error (rev (leaderboard w)) (Z.to_nat pos) = Some e
            /\ R < pos <= R + 2
            /\ n_id row = value e /\ n_money row = score e
            /\ n_ranking row = pos + 1)
    /\ (answers_all schedule (List.length matched) = true ->
        NoDup (map (@value num) (leaderboard w)) ->
        forall pos e,
          Z.max 0 (R - 3) <= pos <= R + 2 -> pos <> R ->
          nth_error (rev (leaderboard w)) (Z.to_nat pos) = Some e ->
          has_profile sql_id_eq (players w) (value e) = true ->
          ((exists p, In p matched /\ key_of p = value e)
           \/ (exists r' row,
                 In r' (fst (getSearchResults sql_id_eq schedule matched w))
                 /\ n_id row = value e /\ n_ranking row = pos + 1
                 /\ n_money row = score e
                 /\ (pos < r_ranking r' - 1 /\ In row (prevPlayers r')
                     \/ r_ranking r' - 1 < pos /\ In row (nextPlayers r'))))
          /\ ((forall p, In p matched -> key_of p <> value e) ->
              (forall r',
                 In r' (fst (getSearchResults sql_id_eq schedule matched w)) ->
                 In (value e) (neighbour_ids r') -> r' = r) ->
              exists row,
                In row (if pos <? R then prevPlayers r else nextPlayers r)
                /\ n_id row = value e /\ n_ranking row = pos + 1
                /\ n_money row = score e)).
Proof.
  assert (Hr0 := Hr).
  destruct (getSearchResults_spec sql_id_eq schedule matched w)
    as (_ & tasks & Hres & Hok & _).
  rewrite Hres in Hr. apply in_map_iff in Hr. destruct Hr as (t & <- & Ht).
  apply in_non_null in Ht. rewrite Forall_forall in Hok.
  destruct (Hok _ Ht t eq_refl)
    as (Hin & (Hrank & Hstart & Hend & Hwin & Hcmd) & Hprev & Hnext).
  assert (HR : 0 <= task_rank t) by (eapply zset_revrank_nonneg; eauto).
  rewrite startRank_of_max in Hstart. unfold endRank_of in Hend.
  rewrite Hstart, Hend in *.
  assert (Hrows : forall better row,
             row_at t better row ->
             exists pos e,
               nth_error (rev (leaderboard w)) (Z.to_nat pos) = Some e
               /\ Z.max 0 (task_rank t - 3) <= pos <= task_rank t + 2
               /\ (if better then pos < task_rank t else task_rank t < pos)
               /\ n_id row = value e /\ n_money row = score e
               /\ n_ranking row = pos + 1).
  { intros better row (index & e & d & He & Hid & Hm & Hrk & Hside).
    assert (He' : nth_error (map fst (surroundingPlayers t)) index = Some e)
      by (rewrite nth_error_map, He; reflexivity).
    rewrite Hwin in He'.
    apply zset_range_rev_nth in He'; [|lia]. destruct He' as [Hnth Hle].
    exists (Z.max 0 (task_rank t - 3) + Z.of_nat index), e.
    rewrite Hstart in Hrk, Hside.
    replace (Z.to_nat (Z.max 0 (task_rank t - 3) + Z.of_nat index))
      with (Z.to_nat (Z.max 0 (task_rank t - 3)) + index)%nat by lia.
    destruct better; repeat split; auto; try lia. }
  exists (task_player t), (task_rank t). cbn [result_of r_id r_ranking prevPlayers nextPlayers].
  split; [exact Hin|]. split; [reflexivity|]. split; [exact Hrank|].
  split; [reflexivity|]. split; [exact Hcmd|].
  split; [|split; [|split]].
  - assert (Hlen := zset_range_rev_length
                      (a := Z.max 0 (task_rank t - 3)) (b := task_rank t + 2)
                      (leaderboard w) ltac:(lia)).
    lia.
  - intros row Hrow. rewrite Forall_forall in Hprev.
    destruct (Hrows true row (Hprev _ Hrow))
      as (pos & e & Hn & Hb & Hs & Hi & Hm & Hk).
    exists pos, e. repeat split; auto; lia.
  - intros row Hrow. rewrite Forall_forall in Hnext.
    destruct (Hrows false row (Hnext _ Hrow))
      as (pos & e & Hn & Hb & Hs & Hi & Hm & Hk).
    exists pos, e. repeat split; auto; lia.
  - intros Hall Hnd pos e Hpos Hne He Hprofile.
    destruct (getSearchResults_answered sql_id_eq schedule matched w Hall)
      as (tasks' & Hres' & Hok' & _ & Hshown).
    rewrite Hres' in Hr0 |- *. apply in_map_iff in Hr0.
    destruct Hr0 as (t0 & Ht0 & Ht0in). apply in_non_null in Ht0in.
    assert (Hrank0 : task_rank t0 = task_rank t).
    { apply (f_equal (@r_ranking num)) in Ht0. cbn in Ht0. lia. }
    assert (Hprev0 : task_prev t0 = task_prev t)
      by (apply (f_equal (@prevPlayers num)) in Ht0; exact Ht0).
    assert (Hnext0 : task_next t0 = task_next t)
      by (apply (f_equal (@nextPlayers num)) in Ht0; exact Ht0).
    assert (Hw0 : task_startRank t0 = Z.max 0 (task_rank t - 3)
                  /\ task_endRank t0 = task_rank t + 2).
    { assert (Hok0 := Hok'). rewrite Forall_forall in Hok0.
      destruct (Hok0 _ Ht0in t0 eq_refl) as (_ & (_ & Hs0 & He0 & _) & _).
      rewrite startRank_of_max in Hs0. unfold endRank_of in He0.
      rewrite Hs0, He0, Hrank0. auto. }
    destruct Hw0 as [Hs0 He0].
    assert (Hcases := @entry_shown num _ sql_id_eq matched (leaderboard w) _ tasks'
                        (players w) t0 pos e Hok' Hshown Hnd Ht0in
                        ltac:(rewrite Hs0, He0; lia) ltac:(rewrite Hrank0; exact Hne)
                        He Hprofile).
    split.
    + destruct Hcases as [Hm|(t' & row & Ht' & Hid & Hrk & Hmoney & Hside)];
        [now left|right].
      exists (result_of t'), row.
      split; [apply in_map; now apply non_null_In|].
      split; [exact Hid|]. split; [exact Hrk|]. split; [exact Hmoney|].
      cbn [result_of r_ranking prevPlayers nextPlayers].
      destruct Hside as [[Hlt Hrin]|[Hgt Hrin]]; [left|right]; split; auto; lia.
    + intros Hnot Honly.
      destruct Hcases as [(p & Hp & Hk)|(t' & row & Ht' & Hid & Hrk & Hmoney & Hside)].
      { exfalso. exact (Hnot p Hp Hk). }
      assert (Heq : result_of t' = result_of t).
      { apply Honly; [apply in_map; now apply non_null_In|].
        unfold neighbour_ids. cbn [result_of prevPlayers nextPlayers].
        rewrite <- Hid. apply in_or_app.
        destruct Hside as [[_ Hrin]|[_ Hrin]]; [left|right]; now apply in_map. }
      assert (Hrank' : task_rank t' = task_rank t).
      { apply (f_equal (@r_ranking num)) in Heq. cbn in Heq. lia. }
      assert (Hprev' : task_prev t' = task_prev t)
        by (apply (f_equal (@prevPlayers num)) in Heq; exact Heq).
      assert (Hnext' : task_next t' = task_next t)
        by (apply (f_equal (@nextPlayers num)) in Heq; exact Heq).
      exists row. split; [|auto].
      destruct (Z.ltb_spec pos (task_rank t));
        destruct Hside as [[Hlt Hrin]|[Hgt Hrin]]; try lia; congruence.
Qed.

Lemma neighbourhood_window_and_sides_witness :
  In bob_between
     (fst (getSearchResults integer_id_eq (in_window_order 0) [bob] world_three))
  /\ answers_all (in_window_order 0) (List.length [bob]) = true
  /\ NoDup (map (@value float) (leaderboard world_three))
  /\ (exists R,
        zset_revrank (r_id bob_between) (leaderboard world_three) = Some R
        /\ r_ranking bob_between = R + 1
        /\ forall row, In row (prevPlayers bob_between) ->
             exists pos, Z.max 0 (R - 3) <= pos < R /\ n_ranking row = pos + 1)
  /\ (exists row,
        In row (nextPlayers bob_between)
        /\ n_id row = "3" /\ n_ranking row = 3 /\ n_money row = nlit 100).
Proof.
  assert (Hresults : fst (getSearchResults integer_id_eq (in_window_order 0)
                            [bob] world_three) = [bob_between])
    by (vm_compute; reflexivity).
  assert (Hr : In bob_between
                  (fst (getSearchResults integer_id_eq (in_window_order 0)
                          [bob] world_three)))
    by (rewrite Hresults; left; reflexivity).
  assert (Hall : answers_all (in_window_order 0) (List.length [bob]) = true)
    by reflexivity.
  assert (Hnd : NoDup (map (@value float) (leaderboard world_three))).
  { cbn. repeat constructor; cbn; intuition discriminate. }
  split; [exact Hr|]. split; [exact Hall|]. split; [exact Hnd|].
  destruct (neighbourhood_window_and_sides
              integer_id_eq (in_window_order 0) [bob] world_three bob_between Hr)
    as (player & R & _ & _ & Hrank & Hranking & _ & _ & Hprev & _ & Hcomplete).
  split.
  - exists R. split; [exact Hrank|]. split; [exact Hranking|].
    intros row Hrow.
    destruct (Hprev row Hrow) as (pos & e & _ & Hpos & _ & _ & Hk).
    exists pos. auto.
  - assert (HR : R = 1) by (cbn in Hranking; lia). subst R.
    destruct (Hcomplete Hall Hnd 2 {| value := "3"; score := nlit 100 |}
                ltac:(lia) ltac:(lia) eq_refl eq_refl) as [_ Hown].
    apply Hown.
    + intros p [<-|[]]. vm_compute. discriminate.
    + intros r' Hr' _. rewrite Hresults in Hr'.
      destruct Hr' as [<-|[]]. reflexivity.
Defined.

(** C6, as the claim has it, fails when a window entry is shown elsewhere.
    Ada, Bob and Bea hold ranks 0, 1 and 2; the search for "B" matches Bob
    and Bea.  Bob's window is the ranks 0 .. 3, which holds Ada, Bob and Bea;
    Bea stands after Bob and has a profile, and she is in neither list of
    Bob's result, being a matched player herself.  Ada stands before both
    and is a row of one of them only: of Bob's when his lookups answer
    first, of Bea's when hers do. *)
Lemma window_entry_in_neither_list :
  zset_range_rev (Z.max 0 (1 - 3)) (1 + 2) (leaderboard world_three)
  = [ {| value := "1"; score := nlit 500 |};
      {| value := "2"; score := nlit 300 |};
      {| value := "3"; score := nlit 100 |} ]
  /\ has_profile integer_id_eq (players world_three) "3" = true
  /\ answers_all (in_window_order 0 ++ in_window_order 1) 2 = true
  /\ answers_all (in_window_order 1 ++ in_window_order 0) 2 = true
  /\ searchResults
       (payload (fst (ranking_data_f (in_window_order 0 ++ in_window_order 1)
                        (Some "B") world_three)))
     = Some [ {| r_id := "2"; r_ranking := 2; r_playerName := "Bob";
                 r_country := "TR"; r_countryCode := "TR"; r_money := nlit 300;
                 prevPlayers := [ada_first]; nextPlayers := [] |};
              {| r_id := "3"; r_ranking := 3; r_playerName := "Bea";
                 r_country := "FR"; r_countryCode := "FR"; r_money := nlit 100;
                 prevPlayers := []; nextPlayers := [] |} ]
  /\ searchResults
       (payload (fst (ranking_data_f (in_window_order 1 ++ in_window_order 0)
                        (Some "B") world_three)))
     = Some [ {| r_id := "2"; r_ranking := 2; r_playerName := "Bob";
                 r_country := "TR"; r_countryCode := "TR"; r_money := nlit 300;
                 prevPlayers := []; nextPlayers := [] |};
              {| r_id := "3"; r_ranking := 3; r_playerName := "Bea";
                 r_country := "FR"; r_countryCode := "FR"; r_money := nlit 100;
                 prevPlayers := [ada_first]; nextPlayers := [] |} ].
Proof. vm_compute. repeat split; reflexivity. Qed.

(* ================================================================= *)
(** ** The sorted set holds a member once *)

Section Distinct.
Context {num : Type} `{JsNumber num}.
Variable Number_toString : num -> string.
Variable sql_id_eq : JsValue num -> Z -> bool.
Variable sql_str_eq : string -> string -> bool.
Variable sql_like : string -> string -> bool.
Variable redis_incrbyfloat : num -> num -> option num.

Lemma members_insert (e : ScoreEntry num) : forall l,
  Permutation (map (@value num) (zset_insert e l)) (value e :: map (@value num) l).
Proof.
  induction l as [|x l IH]; simpl; [reflexivity|].
  destruct (entry_ltb e x); simpl; [reflexivity|].
  rewrite IH. apply perm_swap.
Qed.

Lemma members_remove m : forall l : list (ScoreEntry num),
  NoDup (map (@value num) l) ->
  NoDup (map (@value num) (zset_remove m l))
  /\ ~ In m (map (@value num) (zset_remove m l)).
Proof.
  unfold zset_remove.
  induction l as [|x l IH]; intros Hnd; simpl.
  - split; [constructor|intros []].
  - inversion Hnd as [|? ? Hx Hl]; subst. destruct (IH Hl) as [Hnd' Hm].
    destruct (is_member m x) eqn:Hmx; simpl.
    + split; assumption.
    + split.
      * constructor; [|exact Hnd']. intros Hin. apply Hx.
        apply in_map_iff in Hin. destruct Hin as (y & Hy & Hyin).
        apply filter_In in Hyin. apply in_map_iff. exists y. tauto.
      * intros [Heq|Hin]; [|contradiction].
        apply is_member_eq in Heq. congruence.
Qed.

Lemma add_distinct s m (l : list (ScoreEntry num)) :
  NoDup (map (@value num) l) -> NoDup (map (@value num) (zset_add s m l)).
Proof.
  intros Hnd. unfold zset_add. destruct (@members_remove m l Hnd) as [Hnd' Hm].
  eapply Permutation_NoDup; [symmetry; apply members_insert|].
  simpl. now constructor.
Qed.

Lemma incrby_distinct a m (l : list (ScoreEntry num)) :
  NoDup (map (@value num) l) -> NoDup (map (@value num) (zset_incrby a m l)).
Proof.
  intros Hnd. unfold zset_incrby.
  destruct (zset_score m l); now apply add_distinct.
Qed.

Lemma apply_rewards_distinct (pairs : list (string * num)) : forall l,
  NoDup (map (@value num) l) ->
  NoDup (map (@value num) (apply_rewards pairs l)).
Proof.
  induction pairs as [|p pairs IH]; intros l Hnd; [exact Hnd|].
  rewrite apply_rewards_cons. apply IH. now apply incrby_distinct.
Qed.

Lemma handle_distinct (r : Request num) (w : World num) :
  NoDup (map (@value num) (leaderboard w)) ->
  NoDup (map (@value num)
             (leaderboard (snd (handle Number_toString sql_id_eq sql_str_eq
                                        sql_like redis_incrbyfloat r w)))).
Proof.
  intros Hnd.
  destruct r as [playerId amount|n c cc| |schedule query]; unfold handle.
  - rewrite bind_run. cbn [snd ret].
    destruct (earn_cases Number_toString sql_id_eq redis_incrbyfloat w
                playerId amount)
      as [[_ (_ & _ & Hl & _)] | (a & _ & _ & _ & Hl & _)]; rewrite Hl.
    + exact Hnd.
    + now apply incrby_distinct.
  - rewrite bind_run. cbn [snd ret].
    destruct (create_cases sql_str_eq w n c cc)
      as [(_ & _ & Hl & _) | (n' & c' & cc' & _ & Hl)]; rewrite Hl.
    + exact Hnd.
    + now apply add_distinct.
  - rewrite leaderboard_reset_run. cbn [snd leaderboard].
    now apply apply_rewards_distinct.
  - rewrite bind_run. cbn [snd ret].
    destruct (proj1 (quiet_top_ranking_data sql_id_eq sql_like schedule
                       query w)) as (_ & _ & Hl & _).
    now rewrite Hl.
Qed.
End Distinct.

(** The sorted set never holds a member twice: when its members are pairwise
    distinct (as in the empty set), they still are after any series of
    earnings, registrations, settlements and combined views served one after
    the other, for every number interpretation. *)
Theorem members_stay_distinct
  {num : Type} `{JsNumber num}
  (Number_toString : num -> string) (sql_id_eq : JsValue num -> Z -> bool)
  (sql_str_eq sql_like : string -> string -> bool)
  (redis_incrbyfloat : num -> num -> option num)
  (rs : list (Request num)) (w : World num)
  (Hdistinct : NoDup (map (@value num) (leaderboard w))) :
  NoDup (map (@value num)
             (leaderboard (snd (serve Number_toString sql_id_eq sql_str_eq
                                      sql_like redis_incrbyfloat rs w))))
  /\ NoDup (map (@value num)
                (leaderboard (snd (serve Number_toString sql_id_eq sql_str_eq
                                         sql_like redis_incrbyfloat rs
                                         empty_world)))).
Proof.
  assert (Hserve : forall w0 : World num,
            NoDup (map (@value num) (leaderboard w0)) ->
            NoDup (map (@value num)
                       (leaderboard (snd (serve Number_toString sql_id_eq
                                                sql_str_eq sql_like
                                                redis_incrbyfloat rs w0))))).
  { intros w0 Hw0. unfold serve. rewrite bind_run. cbn [snd ret].
    apply (mapM_snd_inv
             (fun w' => NoDup (map (@value num) (leaderboard w')))
             (handle Number_toString sql_id_eq sql_str_eq sql_like
                     redis_incrbyfloat)).
    - intros r w1 Hw1. now apply handle_distinct.
    - exact Hw0. }
  split; [now apply Hserve|]. apply Hserve. constructor.
Qed.

Lemma members_stay_distinct_witness :
  NoDup (map (@value float) (leaderboard world_three))
  /\ NoDup (map (@value float)
                (leaderboard
                   (snd (serve integer_toString integer_id_eq String.eqb contains
                           binary64_incrbyfloat
                           [Earn (JNum (nlit 3)) (JNum (nlit 1000));
                            Register (Some "Cy") (Some "FR") (Some "FR");
                            Settle; View [] (Some "B")]
                           world_three)))).
Proof.
  assert (Hnd : NoDup (map (@value float) (leaderboard world_three))).
  { cbn. repeat constructor; cbn; intuition discriminate. }
  split; [exact Hnd|].
  exact (proj1 (@members_stay_distinct float _ integer_toString integer_id_eq
                  String.eqb contains binary64_incrbyfloat _ world_three Hnd)).
Defined.
